(** * simple_search_engine: the BM25 indexing and ranking core

    A shallow embedding of [engine.py] (classes [InvertedIndex],
    [BM25Ranker] and [SearchEngine]) and the properties its specification
    states about it.

    Modelling conventions.
    - Python [int]s that count things (document ids, occurrence counts,
      lengths) are [nat]; [top_k], which may be negative, is [Z].
    - Python [float]s are real numbers: rounding is abstracted away, the
      partiality of the operations is not.  [x / y] raises
      [ZeroDivisionError] when [y] is zero and [math.log x] raises
      [ValueError] when [x <= 0]; both are functions into [result].
    - A Python [dict] keeps its keys in insertion order, and the order is
      observable here (it decides ties in the ranking), so a dict is an
      association list with [od_get] / [od_set].
    - A pandas [DataFrame] is an ordered dict from column name to the list
      of that column's cells. *)

From Stdlib Require Import String Ascii List Bool Arith ZArith Lia.
From Stdlib Require Import Reals Lra Permutation Sorted.
Import ListNotations.

Local Open Scope string_scope.
Local Open Scope list_scope.

(** ** Exceptions and the error monad *)

Inductive exn : Type :=
| ZeroDivisionError
| ValueError
| KeyError
| IndexError
| AttributeError
| TypeError.

Inductive result (A : Type) : Type :=
| Ok (a : A)
| Err (e : exn).
Arguments Ok {A} a.
Arguments Err {A} e.

Definition bind {A B : Type} (m : result A) (k : A -> result B) : result B :=
  match m with
  | Ok a => k a
  | Err e => Err e
  end.

Notation "x <- m ;; k" := (bind m (fun x => k))
  (at level 61, m at next level, right associativity).
Notation "' p <- m ;; k" := (bind m (fun x => let p := x in k))
  (at level 61, p pattern, m at next level, right associativity).

(** A [for] loop whose body may raise: the state is threaded from left to
    right and the first exception ends the loop. *)
Fixpoint for_each {A S : Type} (body : S -> A -> result S) (l : list A) (s : S)
  : result S :=
  match l with
  | [] => Ok s
  | x :: l' => s' <- body s x ;; for_each body l' s'
  end.

(** A list comprehension whose element expression may raise. *)
Fixpoint map_result {A B : Type} (f : A -> result B) (l : list A)
  : result (list B) :=
  match l with
  | [] => Ok []
  | x :: l' => y <- f x ;; ys <- map_result f l' ;; Ok (y :: ys)
  end.

(** ** Insertion-ordered dictionaries *)

Section OrderedDict.
Context {K V : Type}.
Variable eqb : K -> K -> bool.

(** [d.get(k)] *)
Fixpoint od_get (k : K) (d : list (K * V)) : option V :=
  match d with
  | [] => None
  | (k', v) :: d' => if eqb k k' then Some v else od_get k d'
  end.

(** [d[k] = v]: an existing key keeps its position, a new key goes last. *)
Fixpoint od_set (k : K) (v : V) (d : list (K * V)) : list (K * V) :=
  match d with
  | [] => [(k, v)]
  | (k', v') :: d' =>
      if eqb k k' then (k', v) :: d' else (k', v') :: od_set k v d'
  end.

(** [d.get(k, dflt)] *)
Definition od_get_default (k : K) (dflt : V) (d : list (K * V)) : V :=
  match od_get k d with
  | Some v => v
  | None => dflt
  end.

(** [k in d] *)
Definition od_mem (k : K) (d : list (K * V)) : bool :=
  match od_get k d with
  | Some _ => true
  | None => false
  end.
End OrderedDict.

(** ** Tokenizer *)

(** Characters are modelled for ASCII text: [str.lower] folds [A-Z] and
    [\w] is [[A-Za-z0-9_]]. *)
Definition in_range (lo hi : nat) (c : ascii) : bool :=
  (lo <=? nat_of_ascii c)%nat && (nat_of_ascii c <=? hi)%nat.

Definition lower_char (c : ascii) : ascii :=
  if in_range 65 90 c then ascii_of_nat (nat_of_ascii c + 32) else c.

Fixpoint lower (s : string) : string :=
  match s with
  | EmptyString => EmptyString
  | String c s' => String (lower_char c) (lower s')
  end.

Definition is_word (c : ascii) : bool :=
  in_range 97 122 c || in_range 65 90 c || in_range 48 57 c
  || (nat_of_ascii c =? 95)%nat.

(** The run of word characters collected so far (most recent first), as
    one match of [\w+]; nothing when the run is empty. *)
Definition flush (run : list ascii) : list string :=
  match run with
  | [] => []
  | _ => [string_of_list_ascii (rev run)]
  end.

(** [re.findall(r"\w+", s)]: the maximal runs of word characters, left to
    right. *)
Fixpoint findall_word (run : list ascii) (s : string) : list string :=
  match s with
  | EmptyString => flush run
  | String c s' =>
      if is_word c then findall_word (c :: run) s'
      else flush run ++ findall_word [] s'
  end.

(** [InvertedIndex.tokenize] *)
Definition tokenize (text : string) : list string :=
  findall_word [] (lower text).

(** [collections.Counter(toks)]: each element is counted as it is met, so
    the keys are the distinct tokens in order of first occurrence. *)
Definition Counter (toks : list string) : list (string * nat) :=
  fold_left
    (fun c t => od_set String.eqb t (od_get_default String.eqb t 0%nat c + 1)%nat c)
    toks [].

(** ** InvertedIndex *)

Record InvertedIndex : Type := mkIndex {
  index : list (string * list (nat * nat));
  doc_lens : list (nat * nat);
  N : nat;
  avg_dl : R
}.

(** [InvertedIndex.__init__] *)
Definition InvertedIndex_init : InvertedIndex :=
  {| index := []; doc_lens := []; N := 0; avg_dl := 0%R |}.

(** [enumerate(docs)] *)
Definition enumerate {A : Type} (l : list A) : list (nat * A) :=
  combine (seq 0 (length l)) l.

(** [index.get(term, {})] *)
Definition index_get (term : string) (ix : list (string * list (nat * nat)))
  : list (nat * nat) :=
  od_get_default String.eqb term [] ix.

(** [self.index[term][i] = cnt]; [self.index] is a [defaultdict(dict)], so
    a term seen for the first time gets a fresh inner dict. *)
Definition index_set (term : string) (i cnt : nat)
    (ix : list (string * list (nat * nat))) : list (string * list (nat * nat)) :=
  od_set String.eqb term (od_set Nat.eqb i cnt (index_get term ix)) ix.

(** One iteration of the loop over the documents. *)
Definition build_doc (self : InvertedIndex) (it : nat * string) : InvertedIndex :=
  let '(i, text) := it in
  let toks := tokenize text in
  let lens := od_set Nat.eqb i (length toks) (doc_lens self) in
  let freqs := Counter toks in
  let ix := fold_left (fun ix tc => index_set (fst tc) i (snd tc) ix)
                      freqs (index self) in
  {| index := ix; doc_lens := lens; N := N self; avg_dl := avg_dl self |}.

(** Python's [x / y] on numbers. *)
Definition truediv (x y : R) : result R :=
  if Req_dec_T y 0 then Err ZeroDivisionError else Ok (x / y)%R.

(** [sum(l)] on a list of ints. *)
Definition py_sum (l : list nat) : nat := fold_left Nat.add l 0%nat.

(** [InvertedIndex.build] *)
Definition build (self : InvertedIndex) (docs : list string)
  : result InvertedIndex :=
  let self1 := {| index := index self; doc_lens := doc_lens self;
                  N := length docs; avg_dl := avg_dl self |} in
  let self2 := fold_left build_doc (enumerate docs) self1 in
  avg <- (if (N self2 =? 0)%nat then Ok 0%R
          else truediv (INR (py_sum (map snd (doc_lens self2)))) (INR (N self2))) ;;
  Ok {| index := index self2; doc_lens := doc_lens self2;
        N := N self2; avg_dl := avg |}.

(** The index a caller works with: a fresh instance, built once, as
    [SearchEngine] makes it.  ([build] does not clear the dicts, so on an
    instance that was built before, the old postings and lengths stay;
    the properties below are about [build_index].) *)
Definition build_index (docs : list string) : result InvertedIndex :=
  build InvertedIndex_init docs.

(** ** BM25Ranker *)

Record BM25Ranker : Type := mkRanker {
  idx : InvertedIndex;
  k1 : R;
  b : R
}.

(** [BM25Ranker.__init__] with its default parameters. *)
Definition BM25Ranker_init (ix : InvertedIndex) : BM25Ranker :=
  {| idx := ix; k1 := 1.5%R; b := 0.75%R |}.

(** [math.log] *)
Definition math_log (x : R) : result R :=
  if Rlt_dec 0 x then Ok (ln x) else Err ValueError.

(** [BM25Ranker.idf] *)
Definition idf (self : BM25Ranker) (term : string) : result R :=
  let df := length (index_get term (index (idx self))) in
  q <- truediv (INR (N (idx self)) - INR df + 0.5)%R (INR df + 0.5)%R ;;
  math_log (q + 1)%R.

(** [self.idx.doc_lens[doc_id]] *)
Definition doc_len (ix : InvertedIndex) (doc_id : nat) : result nat :=
  match od_get Nat.eqb doc_id (doc_lens ix) with
  | Some dl => Ok dl
  | None => Err KeyError
  end.

(** The body of the inner loop of [score]: one posting [(doc_id, f)] of
    the current term. [scores] is a [defaultdict(float)]. *)
Definition score_posting (self : BM25Ranker) (idf_t : R)
    (scores : list (nat * R)) (p : nat * nat) : result (list (nat * R)) :=
  let '(doc_id, f) := p in
  dl <- doc_len (idx self) doc_id ;;
  r <- truediv (b self * INR dl)%R (avg_dl (idx self)) ;;
  let denom := (INR f + k1 self * (1 - b self + r))%R in
  c <- truediv (idf_t * (INR f * (k1 self + 1)))%R denom ;;
  Ok (od_set Nat.eqb doc_id (od_get_default Nat.eqb doc_id 0%R scores + c)%R scores).

(** The body of the outer loop of [score]: one distinct query term. *)
Definition score_term (self : BM25Ranker)
    (scores : list (nat * R)) (term : string) : result (list (nat * R)) :=
  let postings := index_get term (index (idx self)) in
  match postings with
  | [] => Ok scores
  | _ =>
      idf_t <- idf self term ;;
      for_each (score_posting self idf_t) postings scores
  end.

(** The accumulator of [score] after the loop over the query terms. *)
Definition accumulate (self : BM25Ranker) (query : string)
  : result (list (nat * R)) :=
  let q_toks := Counter (tokenize query) in
  for_each (score_term self) (map fst q_toks) [].

(** [sorted(items, key=lambda x: x[1], reverse=True)]. Python's sort is
    stable, also under [reverse=True]; a stable sort is determined by its
    input, and it is written here as an insertion sort: an item goes
    behind the items of strictly greater key and in front of the rest,
    which all come later in the input. *)
Fixpoint insert_desc (x : nat * R) (l : list (nat * R)) : list (nat * R) :=
  match l with
  | [] => [x]
  | y :: l' =>
      if Rlt_dec (snd x) (snd y) then y :: insert_desc x l' else x :: y :: l'
  end.

Fixpoint sorted_desc (l : list (nat * R)) : list (nat * R) :=
  match l with
  | [] => []
  | x :: l' => insert_desc x (sorted_desc l')
  end.

(** [l[:k]], also for a negative [k]. *)
Definition slice_to {A : Type} (l : list A) (k : Z) : list A :=
  if (k <? 0)%Z then firstn (length l - Z.to_nat (- k)) l
  else firstn (Z.to_nat k) l.

(** [BM25Ranker.score] *)
Definition score (self : BM25Ranker) (query : string) (top_k : Z)
  : result (list (nat * R)) :=
  scores <- accumulate self query ;;
  Ok (slice_to (sorted_desc scores) top_k).

(** ** A small model of pandas *)

(** A float as a DataFrame holds it: numpy arithmetic never raises, a
    division by zero gives an infinity or NaN. Signed zeros are not
    modelled. *)
Inductive xfloat : Type :=
| Fin (x : R)
| PInf
| NInf
| NaN.

Inductive cell : Type :=
| CStr (s : string)
| CFloat (x : xfloat)
| CNone.

Definition DataFrame : Type := list (string * list cell).

Definition xneg (x : xfloat) : xfloat :=
  match x with
  | Fin r => Fin (- r)
  | PInf => NInf
  | NInf => PInf
  | NaN => NaN
  end.

(** The infinity of the sign of [r], NaN at zero: [inf * r]. *)
Definition inf_times (r : R) : xfloat :=
  if Rlt_dec 0 r then PInf else if Rlt_dec r 0 then NInf else NaN.

Definition xmul (x y : xfloat) : xfloat :=
  match x, y with
  | NaN, _ | _, NaN => NaN
  | Fin r, Fin r' => Fin (r * r')
  | PInf, Fin r | Fin r, PInf => inf_times r
  | NInf, Fin r | Fin r, NInf => xneg (inf_times r)
  | PInf, PInf | NInf, NInf => PInf
  | PInf, NInf | NInf, PInf => NInf
  end.

Definition xdiv (x y : xfloat) : xfloat :=
  match x, y with
  | NaN, _ | _, NaN => NaN
  | Fin r, Fin r' => if Req_dec_T r' 0 then inf_times r else Fin (r / r')
  | Fin _, PInf | Fin _, NInf => Fin 0
  | PInf, Fin r => if Rlt_dec r 0 then NInf else PInf
  | NInf, Fin r => if Rlt_dec r 0 then PInf else NInf
  | PInf, PInf | PInf, NInf | NInf, PInf | NInf, NInf => NaN
  end.

(** The larger of two values, a NaN being skipped. *)
Definition xmax (x y : xfloat) : xfloat :=
  match x, y with
  | NaN, z | z, NaN => z
  | PInf, _ | _, PInf => PInf
  | NInf, z | z, NInf => z
  | Fin r, Fin r' => Fin (Rmax r r')
  end.

(** A cell of a numeric column. *)
Definition as_float (c : cell) : result xfloat :=
  match c with
  | CFloat x => Ok x
  | CNone => Ok NaN
  | CStr _ => Err TypeError
  end.

(** [series.max()] *)
Definition series_max (col : list xfloat) : xfloat := fold_left xmax col NaN.

(** [len(df)]: all columns have the same length. *)
Definition nrows (df : DataFrame) : nat :=
  match df with
  | [] => 0%nat
  | (_, col) :: _ => length col
  end.

(** [df.empty] *)
Definition df_empty (df : DataFrame) : bool :=
  match df with
  | [] => true
  | _ => (nrows df =? 0)%nat
  end.

(** [df[col]] *)
Definition df_getitem (df : DataFrame) (col : string) : result (list cell) :=
  match od_get String.eqb col df with
  | Some cells => Ok cells
  | None => Err KeyError
  end.

(** [df.iloc[i].to_dict()] for [i >= 0] *)
Definition iloc_to_dict (df : DataFrame) (i : nat)
  : result (list (string * cell)) :=
  if (i <? nrows df)%nat
  then Ok (map (fun c => (fst c, nth i (snd c) CNone)) df)
  else Err IndexError.

Definition add_column (cols : list string) (c : string) : list string :=
  if existsb (String.eqb c) cols then cols else cols ++ [c].

(** [pd.DataFrame(records)] on a list of dicts: the columns are the keys
    in order of first appearance, a key that a record lacks is NaN. *)
Definition DataFrame_of_records (records : list (list (string * cell)))
  : DataFrame :=
  let cols := fold_left (fun cols r => fold_left add_column (map fst r) cols)
                        records [] in
  map (fun c => (c, map (od_get_default String.eqb c (CFloat NaN)) records)) cols.

(** [series.fillna('')] on one cell *)
Definition fillna_empty (c : cell) : cell :=
  match c with
  | CFloat NaN | CNone => CStr ""
  | _ => c
  end.

(** What [tokenize] needs of a document: [text.lower()] exists on a [str]
    only. *)
Definition as_str (c : cell) : result string :=
  match c with
  | CStr s => Ok s
  | _ => Err AttributeError
  end.

(** ** SearchEngine *)

Record SearchEngine : Type := mkEngine {
  se_df : DataFrame;
  se_index : InvertedIndex;
  se_ranker : BM25Ranker
}.

(** [SearchEngine.__init__]; [reset_index(drop=True)] renumbers the row
    labels, which this positional model does not have. *)
Definition SearchEngine_init (df : DataFrame) (text_col : string)
  : result SearchEngine :=
  col <- df_getitem df text_col ;;
  let texts := map fillna_empty col in
  docs <- map_result as_str texts ;;
  ix <- build InvertedIndex_init docs ;;
  Ok {| se_df := df; se_index := ix; se_ranker := BM25Ranker_init ix |}.

(** The body of the loop of [search] over the hits. *)
Definition result_row (df : DataFrame) (hit : nat * R)
  : result (list (string * cell)) :=
  row <- iloc_to_dict df (fst hit) ;;
  Ok (od_set String.eqb "score" (CFloat (Fin (snd hit))) row).

(** [SearchEngine.search] *)
Definition search (self : SearchEngine) (query : string) (top_k : Z)
  : result DataFrame :=
  hits <- score (se_ranker self) query top_k ;;
  results <- map_result (result_row (se_df self)) hits ;;
  let res_df := DataFrame_of_records results in
  if negb (df_empty res_df) && od_mem String.eqb "score" res_df then
    col <- df_getitem res_df "score" ;;
    scores <- map_result as_float col ;;
    let max_score := series_max scores in
    let pct := map (fun x => CFloat (xmul (xdiv x max_score) (Fin 100))) scores in
    Ok (od_set String.eqb "pct_relevance" pct res_df)
  else Ok res_df.

(** ** FeedScraper *)

(** What the scraper does with the world is taken as given: the text of
    the feeds file, and in [Section Feeds] the fetching and parsing of a
    feed and the queries on the parsed document.  What it prints is
    returned with its result, one string per [print]. *)

(** [c.isspace()] for an ASCII character *)
Definition is_space (c : ascii) : bool := in_range 9 13 c || in_range 28 32 c.

(** [s.lstrip()] on the characters of [s] *)
Fixpoint lstrip (l : list ascii) : list ascii :=
  match l with
  | [] => []
  | c :: l' => if is_space c then lstrip l' else l
  end.

(** [s.rstrip()] on the characters of [s] *)
Definition rstrip (l : list ascii) : list ascii := rev (lstrip (rev l)).

(** [s.strip()] *)
Definition strip (s : string) : string :=
  string_of_list_ascii (rstrip (lstrip (list_ascii_of_string s))).

(** The unfinished last line of a file, if any. *)
Definition last_line (run : list ascii) : list string :=
  match run with
  | [] => []
  | _ => [string_of_list_ascii (rev run)]
  end.

(** Iterating over a text file: its lines, each with its newline; [run]
    is the line read so far, most recent character first. *)
Fixpoint file_lines (run : list ascii) (text : string) : list string :=
  match text with
  | EmptyString => last_line run
  | String c text' =>
      if Ascii.eqb c "010" then
        string_of_list_ascii (rev (c :: run)) :: file_lines [] text'
      else file_lines (c :: run) text'
  end.

(** [FeedScraper._load_urls], from the text of the file *)
Definition _load_urls (text : string) : list string :=
  map strip (filter (fun u => negb (String.eqb (strip u) "")) (file_lines [] text)).

Record FeedScraper : Type := mkScraper {
  feeds_file : string;
  urls : list string
}.

(** [FeedScraper.__init__]; [text] is the text of the file [file]. *)
Definition FeedScraper_init (file text : string) : FeedScraper :=
  {| feeds_file := file; urls := _load_urls text |}.

(** The row that the scraper makes of one item. *)
Definition feed_row (url ch_title ch_desc it_title it_desc : string)
  : list (string * cell) :=
  [("Feed URL", CStr url);
   ("Channel Title", CStr ch_title);
   ("Channel Description", CStr ch_desc);
   ("Item Title", CStr it_title);
   ("Item Description", CStr it_desc)].

Section Feeds.
(** A tag of a parsed feed, or the parsed feed itself. *)
Variable Tag : Type.
(** [requests.get], [raise_for_status] and the parser, as one step: the
    text of the exception, or the parsed feed. *)
Variable fetch : string -> string + Tag.
(** [tag.find(name)], which [tag.name] abbreviates *)
Variable find : Tag -> string -> option Tag.
(** [tag.find_all(name)] *)
Variable find_all : Tag -> string -> list Tag.
(** [tag.get_text(strip=True)] *)
Variable get_text : Tag -> string.

(** [t.get_text(strip=True) if t else ''] *)
Definition text_or_empty (t : option Tag) : string :=
  match t with
  | Some x => get_text x
  | None => ""
  end.

(** [a or b] on the results of [find] *)
Definition or_else (a b0 : option Tag) : option Tag :=
  match a with
  | Some x => Some x
  | None => b0
  end.

(** The body of the loop of [_fetch_items] over the entries. *)
Definition entry_row (url ch_title ch_desc : string) (e : Tag)
  : list (string * cell) :=
  let it_title := text_or_empty (find e "title") in
  let desc_tag :=
    or_else (find e "description")
      (or_else (find e "summary")
         (or_else (find e "content:encoded") (find e "content"))) in
  let it_desc := text_or_empty desc_tag in
  feed_row url ch_title ch_desc it_title it_desc.

(** The channel of a parsed feed: its title, its description and its
    entries, for RSS (a [channel] tag) and for Atom. *)
Definition channel_of (soup : Tag) : string * string * list Tag :=
  match find soup "channel" with
  | Some channel =>
      (text_or_empty (find channel "title"),
       text_or_empty (find channel "description"),
       find_all channel "item")
  | None =>
      (text_or_empty (find soup "title"), "", find_all soup "entry")
  end.

(** [FeedScraper._fetch_items]: what it prints and the rows. *)
Definition _fetch_items (url : string)
  : list string * list (list (string * cell)) :=
  match fetch url with
  | inl e => (["Failed to fetch " ++ url ++ ": " ++ e]%string, [])
  | inr soup =>
      let '(ch_title, ch_desc, entries) := channel_of soup in
      let rows := map (entry_row url ch_title ch_desc) entries in
      ([], match rows with
           | [] => [feed_row url ch_title ch_desc "" ""]
           | _ => rows
           end)
  end.

(** The body of the loop of [scrape_all]. *)
Definition scrape_step (st : list string * list (list (string * cell)))
    (u : string) : list string * list (list (string * cell)) :=
  let fetched := _fetch_items u in
  (fst st ++ ("Fetching feed: " ++ u)%string :: fst fetched,
   snd st ++ snd fetched).

(** [FeedScraper.scrape_all]: what it prints and the frame. *)
Definition scrape_all (self : FeedScraper) : list string * DataFrame :=
  let st := fold_left scrape_step (urls self) ([], []) in
  (fst st, DataFrame_of_records (snd st)).
End Feeds.

(** ** The HTTP application ([main.py]) *)

(** The three globals of the module, once [startup_event] has bound
    them; the handlers run after that, so their tests [... is None] are
    false and are left out. *)
Record App : Type := mkApp {
  app_scraper : FeedScraper;
  app_engine : SearchEngine;
  app_feed_df : DataFrame
}.

(** [df.to_dict(orient="records")]: one dict per row. *)
Definition to_dict_records (df : DataFrame) : list (list (string * cell)) :=
  map (fun i => map (fun c => (fst c, nth i (snd c) CNone)) df)
      (seq 0 (nrows df)).

(** [get_feeds] *)
Definition get_feeds (app : App) : list (list (string * cell)) :=
  to_dict_records (app_feed_df app).

(** The handler [search] of the route [/search]. *)
Definition search_route (app : App) (query : string) (top_k : Z)
  : result (list (list (string * cell))) :=
  results_df <- search (app_engine app) query top_k ;;
  Ok (to_dict_records results_df).

Section Application.
Variable Tag : Type.
Variable fetch : string -> string + Tag.
Variable find : Tag -> string -> option Tag.
Variable find_all : Tag -> string -> list Tag.
Variable get_text : Tag -> string.
(** The text of the file [feeds.txt] *)
Variable feeds_txt : string.

(** [startup_event]: what is printed, and the globals unless the
    construction of the engine raises. *)
Definition startup_event : list string * result App :=
  let scraper := FeedScraper_init "feeds.txt" feeds_txt in
  let scraped := scrape_all Tag fetch find find_all get_text scraper in
  (fst scraped,
   engine <- SearchEngine_init (snd scraped) "Item Description" ;;
   Ok {| app_scraper := scraper; app_engine := engine;
         app_feed_df := snd scraped |}).

(** [reload_feeds]: what is printed, the globals afterwards, and the
    response [{"status": ..., "count": ...}] or the exception.  The
    globals are assigned one by one: when the construction of the engine
    raises, [scraper] and [feed_df] are already the new ones. *)
Definition reload_feeds (app : App)
  : list string * App * result (string * nat) :=
  let scraper := FeedScraper_init "feeds.txt" feeds_txt in
  let scraped := scrape_all Tag fetch find find_all get_text scraper in
  let app1 := {| app_scraper := scraper; app_engine := app_engine app;
                 app_feed_df := snd scraped |} in
  match SearchEngine_init (snd scraped) "Item Description" with
  | Ok engine =>
      (fst scraped,
       {| app_scraper := scraper; app_engine := engine;
          app_feed_df := snd scraped |},
       Ok ("reloaded", nrows (snd scraped)))
  | Err e => (fst scraped, app1, Err e)
  end.
End Application.

(** ** The command line ([main_cli.py]) *)

(** The parsed arguments: [--feeds], [--query] (absent: [None]) and
    [--top_k]. *)
Record Args : Type := mkArgs {
  arg_feeds : option string;
  arg_query : option string;
  arg_top_k : Z
}.

(** What [print] is given: a string, or a frame. *)
Inductive printed : Type :=
| PLine (s : string)
| PFrame (df : DataFrame).

(** The truth value of an optional string argument: false for [None] and
    for the empty string. *)
Definition given (o : option string) : option string :=
  match o with
  | Some s => if String.eqb s "" then None else Some s
  | None => None
  end.

Section CommandLine.
Variable Tag : Type.
Variable fetch : string -> string + Tag.
Variable find : Tag -> string -> option Tag.
Variable find_all : Tag -> string -> list Tag.
Variable get_text : Tag -> string.
(** The text of a file, by its name *)
Variable read_file : string -> string.

(** [main]: what is printed, and the exception if one ends the program. *)
Definition main (args : Args) : list printed * result unit :=
  match given (arg_feeds args) with
  | None => ([PLine "Provide --feeds to build documents."], Ok tt)
  | Some file =>
      let scraper := FeedScraper_init file (read_file file) in
      let scraped := scrape_all Tag fetch find find_all get_text scraper in
      let out := map PLine (fst scraped) in
      match given (arg_query args) with
      | Some query =>
          match SearchEngine_init (snd scraped) "Item Description" with
          | Ok engine =>
              match search engine query (arg_top_k args) with
              | Ok res => (out ++ [PFrame res], Ok tt)
              | Err e => (out, Err e)
              end
          | Err e => (out, Err e)
          end
      | None => (out ++ [PFrame (snd scraped)], Ok tt)
      end
  end.
End CommandLine.

(** * Definitions for the statements *)

(** ** The index in terms of the texts *)

(** The number of occurrences of [t] among the tokens. *)
Definition occurrences (t : string) (toks : list string) : nat :=
  count_occ string_dec toks t.

(** The step of [Counter] on one token. *)
Definition count_step (c : list (string * nat)) (t : string) : list (string * nat) :=
  od_set String.eqb t (od_get_default String.eqb t 0%nat c + 1)%nat c.

(** What document [i] with text [text] contributes to the postings of [t]. *)
Definition doc_posting (t : string) (it : nat * string) : list (nat * nat) :=
  let n := occurrences t (tokenize (snd it)) in
  if (n =? 0)%nat then [] else [(fst it, n)].

(** The postings of [t] over a collection: the documents that contain
    [t], by ascending id, each with its number of occurrences. *)
Definition postings_of (t : string) (docs : list string) : list (nat * nat) :=
  flat_map (doc_posting t) (enumerate docs).

(** The recorded length of each document. *)
Definition lengths_of (docs : list string) : list (nat * nat) :=
  map (fun it => (fst it, length (tokenize (snd it)))) (enumerate docs).

(** All keys of the dict are document ids below [s]. *)
Definition keys_below {V : Type} (s : nat) (d : list (nat * V)) : Prop :=
  forall k, In k (map fst d) -> (k < s)%nat.

(** No term of the index has an empty postings dict. *)
Definition no_empty_postings (ix : list (string * list (nat * nat))) : Prop :=
  Forall (fun kv => snd kv <> []) ix.

(** The mean of the recorded lengths, as [build] computes it. *)
Definition mean_length (docs : list string) : R :=
  match docs with
  | [] => 0%R
  | _ => (INR (py_sum (map snd (lengths_of docs))) / INR (length docs))%R
  end.

(** The arithmetic mean of a list of lengths, 0 for the empty list. *)
Definition arithmetic_mean (l : list nat) : R :=
  match l with
  | [] => 0%R
  | _ => (INR (list_sum l) / INR (length l))%R
  end.

(** [d in self.index[t]], for a term of the index. *)
Definition posted (ix : InvertedIndex) (t : string) (d : nat) : bool :=
  match od_get String.eqb t (index ix) with
  | Some p => od_mem Nat.eqb d p
  | None => false
  end.

Local Open Scope R_scope.

(** ** BM25 in terms of the texts *)

(** The smoothed inverse document frequency of the specification. *)
Definition idf_formula (n df : nat) : R :=
  ln ((INR n - INR df + 0.5) / (INR df + 0.5) + 1).

(** The number of documents whose tokens contain [t]. *)
Definition doc_frequency (t : string) (docs : list string) : nat :=
  length (filter (fun text => negb (occurrences t (tokenize text) =? 0)%nat) docs).

(** The contribution of one posting, as the specification writes it. *)
Definition bm25_term (idf_t : R) (f dl : nat) (avg k1 b : R) : R :=
  idf_t * (INR f * (k1 + 1)) / (INR f + k1 * (1 - b + b * INR dl / avg)).

(** The documented domain of the ranker's parameters. *)
Definition params_ok (k1 b : R) : Prop := 0 < k1 /\ 0 <= b <= 1.

(** Postings as [build] leaves them: one entry per document, a positive
    count, and a recorded length for the document. *)
Definition postings_ok (ix : InvertedIndex) (p : list (nat * nat)) : Prop :=
  NoDup (map fst p) /\
  forall d f, In (d, f) p ->
    (1 <= f)%nat /\ exists dl, od_get Nat.eqb d (doc_lens ix) = Some dl.

(** What the loops of [score] need of an index; [build] provides it. *)
Definition index_ok (ix : InvertedIndex) : Prop :=
  forall t,
    postings_ok ix (index_get t (index ix)) /\
    (length (index_get t (index ix)) <= N ix)%nat /\
    (index_get t (index ix) <> [] -> 0 < avg_dl ix).

(** The contribution of term [t] to the score of document [d], from the
    statistics the index holds. *)
Definition contribution (self : BM25Ranker) (t : string) (d : nat) : R :=
  let p := index_get t (index (idx self)) in
  bm25_term (idf_formula (N (idx self)) (length p))
    (od_get_default Nat.eqb d 0%nat p)
    (od_get_default Nat.eqb d 0%nat (doc_lens (idx self)))
    (avg_dl (idx self)) (k1 self) (b self).

(** The terms among [ts] whose postings contain [d]. *)
Definition hitting (self : BM25Ranker) (d : nat) (ts : list string) : list string :=
  filter (fun t => od_mem Nat.eqb d (index_get t (index (idx self)))) ts.

(** A running score after the contributions [cs]: the entry exists once
    something was added to it, and starts from 0. *)
Definition acc_value (init : option R) (cs : list R) : option R :=
  match cs with
  | [] => init
  | _ => Some (fold_left Rplus cs (match init with Some x => x | None => 0 end))
  end.

(** ** Rankings *)

(** [x] may stand in front of [y] in a ranking by descending score. *)
Definition score_ge (x y : nat * R) : Prop := snd y <= snd x.

(** The items of score [s]. *)
Definition has_score (s : R) (x : nat * R) : bool :=
  if Req_dec_T (snd x) s then true else false.

(** ** The score of a document, from the texts *)

(** The distinct terms of a query, in order of first occurrence: the keys
    of the counter that [score] iterates over. *)
Definition query_terms (query : string) : list string :=
  map fst (Counter (tokenize query)).

(** The text of document [d]; no text, so no token, beyond the collection. *)
Definition doc_text (docs : list string) (d : nat) : string := nth d docs "".

(** The mean number of tokens of the documents. *)
Definition mean_tokens (docs : list string) : R :=
  arithmetic_mean (map (fun text => length (tokenize text)) docs).

(** The BM25 weight of term [t] in document [d], written from the texts
    alone, as the specification gives it. *)
Definition bm25_weight (docs : list string) (k1 b : R) (t : string) (d : nat) : R :=
  bm25_term (idf_formula (length docs) (doc_frequency t docs))
            (occurrences t (tokenize (doc_text docs d)))
            (length (tokenize (doc_text docs d)))
            (mean_tokens docs) k1 b.

(** The terms among [ts] that occur in document [d]. *)
Definition terms_in_doc (docs : list string) (d : nat) (ts : list string)
  : list string :=
  filter (fun t => negb (occurrences t (tokenize (doc_text docs d)) =? 0)%nat) ts.

(** The sum of a list of floats, added from the left starting at [0.0]. *)
Definition Rsum (l : list R) : R := fold_left Rplus l 0.

(** The score the specification gives document [d] for a query: absent
    when no query term occurs in it, else the sum of the weights. *)
Definition bm25_score (docs : list string) (k1 b : R) (query : string) (d : nat)
  : option R :=
  match terms_in_doc docs d (query_terms query) with
  | [] => None
  | ts => Some (Rsum (map (fun t => bm25_weight docs k1 b t d) ts))
  end.

(** ** Frames and results *)

(** A frame's columns all have the length of the frame. *)
Definition df_wf (df : DataFrame) : bool :=
  forallb (fun c => (length (snd c) =? nrows df)%nat) df.

(** The record that [search] makes of one hit. *)
Definition row_of (df : DataFrame) (hit : nat * R) : list (string * cell) :=
  od_set String.eqb "score" (CFloat (Fin (snd hit)))
         (map (fun c => (fst c, nth (fst hit) (snd c) CNone)) df).

(** The score of the first hit. *)
Definition top_score (hits : list (nat * R)) : R :=
  match hits with
  | [] => 0
  | h :: _ => snd h
  end.

(** The frame [search] returns for hits that are rows of the engine's
    frame, with positive scores, by descending score. *)
Definition search_frame (df : DataFrame) (hits : list (nat * R)) : DataFrame :=
  match hits with
  | [] => []
  | _ =>
      od_set String.eqb "pct_relevance"
        (map (fun h => CFloat (Fin (snd h / top_score hits * 100))) hits)
        (DataFrame_of_records (map (row_of df) hits))
  end.

(** A cell of the text column that construction can index: a string, or a
    missing value. *)
Definition is_text (c : cell) : bool :=
  match fillna_empty c with
  | CStr _ => true
  | _ => false
  end.

(** The text indexed for such a cell: the empty string when missing. *)
Definition text_of (c : cell) : string :=
  match fillna_empty c with
  | CStr s => s
  | _ => ""
  end.

(** The frame has the text column, and its cells are texts. *)
Definition has_text_column (df : DataFrame) (text_col : string) : bool :=
  match od_get String.eqb text_col df with
  | Some col => forallb is_text col
  | None => false
  end.

(** The cells of a column; none when the frame lacks it. *)
Definition column (df : DataFrame) (c : string) : list cell :=
  od_get_default String.eqb c [] df.

(** The weight [score] gives a posting, starting from an absent entry. *)
Definition posting_score (self : BM25Ranker) (idf_t : R) (p : nat * nat) : nat * R :=
  (fst p,
   0 + bm25_term idf_t (snd p)
         (od_get_default Nat.eqb (fst p) 0%nat (doc_lens (idx self)))
         (avg_dl (idx self)) (k1 self) (b self)).

(** [L'] is [L] with the item of document [i] rescored from [s] to [s']
    and standing where it stood or further to the front. *)
Definition moved_up (i : nat) (s s' : R) (L L' : list (nat * R)) : Prop :=
  exists A B C, L = A ++ B ++ (i, s) :: C /\ L' = A ++ (i, s') :: B ++ C.

(** A frame of three feed items, one of them without a description. *)
Definition sample_frame : DataFrame :=
  [("Item Title", [CStr "Cats"; CStr "Dogs"; CStr "Pets"]);
   ("Item Description",
    [CStr "the cat sat"; CFloat NaN; CStr "cat and dog played"])].

(** The three documents of the specification's scenario. *)
Definition scenario_docs : list string :=
  ["the cat sat"; "the dog ran"; "cat and dog played"].

(** ** Tokens *)

(** A character of a token: a lower-case letter, a digit or an underscore. *)
Definition is_token_char (c : ascii) : bool :=
  in_range 97 122 c || in_range 48 57 c || (nat_of_ascii c =? 95)%nat.

(** A token: a non-empty string of token characters. *)
Definition valid_token (s : string) : bool :=
  negb (String.eqb s "") && forallb is_token_char (list_ascii_of_string s).

(** The tokens written one after the other, a space after each. *)
Fixpoint spaced (toks : list string) : string :=
  match toks with
  | [] => ""
  | t :: toks' => (t ++ String " " (spaced toks'))%string
  end.

(** The list without its repetitions: each element where it first occurs. *)
Fixpoint dedup (l : list string) : list string :=
  match l with
  | [] => []
  | x :: l' => x :: filter (fun y => negb (String.eqb x y)) (dedup l')
  end.

(** Document [d] has a token of the query. *)
Definition matches (docs : list string) (query : string) (d : nat) : bool :=
  existsb (fun t => negb (occurrences t (tokenize (doc_text docs d)) =? 0)%nat)
          (tokenize query).

(** The documents that have a token of the query, by ascending id. *)
Definition matching (docs : list string) (query : string) : list nat :=
  filter (matches docs query) (seq 0 (length docs)).

(** [x] ranks strictly before [y]: a greater score, or the same score and
    a smaller document id. *)
Definition ranks_before (x y : nat * R) : Prop :=
  snd y < snd x \/ (snd y = snd x /\ (fst x < fst y)%nat).

(** ** Feeds *)

(** The list does not begin with a white-space character. *)
Definition starts_clean (l : list ascii) : Prop :=
  match l with
  | [] => True
  | c :: _ => is_space c = false
  end.

(** The columns of a scraped row. *)
Definition feed_columns : list string :=
  ["Feed URL"; "Channel Title"; "Channel Description"; "Item Title";
   "Item Description"].

(** The text of a file with the given lines, a newline after each. *)
Fixpoint unlines (lines : list string) : string :=
  match lines with
  | [] => ""
  | l :: lines' => (l ++ String "010" (unlines lines'))%string
  end.

(** A URL as [_load_urls] returns them: not empty, no white space at
    either end, no newline. *)
Definition clean_url (u : string) : Prop :=
  u <> "" /\ strip u = u /\ ~ In "010"%char (list_ascii_of_string u).

(** A row as the scraper makes them: the five columns, all strings. *)
Definition is_feed_row (r : list (string * cell)) : Prop :=
  exists url ch_title ch_desc it_title it_desc,
    r = feed_row url ch_title ch_desc it_title it_desc.

(** The frame of a non-empty list of scraped rows. *)
Definition feed_frame (rows : list (list (string * cell))) : DataFrame :=
  map (fun c => (c, map (od_get_default String.eqb c (CFloat NaN)) rows))
      feed_columns.

Section FeedsDefs.
Variable Tag : Type.
Variable fetch : string -> string + Tag.
Variable find : Tag -> string -> option Tag.
Variable find_all : Tag -> string -> list Tag.
Variable get_text : Tag -> string.

(** What [scrape_all] prints for one URL. *)
Definition feed_log (u : string) : list string :=
  ("Fetching feed: " ++ u)%string ::
  match fetch u with
  | inl e => ["Failed to fetch " ++ u ++ ": " ++ e]%string
  | inr _ => []
  end.

(** The rows of one URL. *)
Definition feed_rows (u : string) : list (list (string * cell)) :=
  snd (_fetch_items Tag fetch find find_all get_text u).

(** The URLs that could be fetched. *)
Definition fetched (us : list string) : list string :=
  filter (fun u => match fetch u with inl _ => false | inr _ => true end) us.
End FeedsDefs.

(** A feed without channel and without entries, for every URL. *)
Definition empty_feed (url : string) : string + unit := inr tt.

Local Close Scope R_scope.

(** * Properties *)

(** ** The error monad *)

Lemma bind_Ok_inv {A B : Type} (m : result A) (k : A -> result B) (y : B) :
  bind m k = Ok y -> exists x, m = Ok x /\ k x = Ok y.
Proof.
  destruct m as [x|e]; simpl; intros H.
  - exists x. split; [reflexivity | exact H].
  - discriminate H.
Qed.

Lemma bind_Ok {A B : Type} (a : A) (k : A -> result B) : bind (Ok a) k = k a.
Proof. reflexivity. Qed.

Lemma for_each_app {A S : Type} (body : S -> A -> result S) (l1 l2 : list A) (s : S) :
  for_each body (l1 ++ l2) s = (s' <- for_each body l1 s ;; for_each body l2 s').
Proof.
  revert s. induction l1 as [|x l1 IH]; intros s; simpl.
  - reflexivity.
  - destruct (body s x) as [s1|e]; simpl; [apply IH | reflexivity].
Qed.

(** ** Ordered dictionaries *)

Section OrderedDictFacts.
Context {K V : Type}.
Variable eqb : K -> K -> bool.
Hypothesis eqb_eq : forall x y, eqb x y = true <-> x = y.

Lemma eqb_refl' (x : K) : eqb x x = true.
Proof. apply eqb_eq. reflexivity. Qed.

Lemma eqb_neq' (x y : K) : x <> y -> eqb x y = false.
Proof.
  intros Hne. destruct (eqb x y) eqn:E; [|reflexivity].
  apply eqb_eq in E. contradiction.
Qed.

Lemma od_get_set_same (k : K) (v : V) (d : list (K * V)) :
  od_get eqb k (od_set eqb k v d) = Some v.
Proof.
  induction d as [|[k' v'] d IH]; simpl.
  - rewrite eqb_refl'. reflexivity.
  - destruct (eqb k k') eqn:E; simpl; rewrite E; [reflexivity | exact IH].
Qed.

Lemma od_get_set_other (k k' : K) (v : V) (d : list (K * V)) :
  k <> k' -> od_get eqb k (od_set eqb k' v d) = od_get eqb k d.
Proof.
  intros Hne. induction d as [|[k2 v2] d IH]; simpl.
  - rewrite (eqb_neq' _ _ Hne). reflexivity.
  - destruct (eqb k' k2) eqn:E; simpl.
    + apply eqb_eq in E. subst k2. rewrite (eqb_neq' _ _ Hne). reflexivity.
    + rewrite IH. reflexivity.
Qed.

Lemma od_get_None_notin (k : K) (d : list (K * V)) :
  od_get eqb k d = None <-> ~ In k (map fst d).
Proof.
  induction d as [|[k' v'] d IH]; simpl.
  - split; [intros _ [] | reflexivity].
  - destruct (eqb k k') eqn:E.
    + apply eqb_eq in E. subst k'. split; [discriminate | intros H; exfalso; auto].
    + rewrite IH. split.
      * intros H [H1|H1]; [subst k'; rewrite eqb_refl' in E; discriminate | auto].
      * intros H H1. apply H. right. exact H1.
Qed.

Lemma od_get_Some_in (k : K) (v : V) (d : list (K * V)) :
  od_get eqb k d = Some v -> In (k, v) d.
Proof.
  induction d as [|[k' v'] d IH]; simpl; [discriminate|].
  destruct (eqb k k') eqn:E.
  - apply eqb_eq in E. subst k'. intros H. injection H as ->. left. reflexivity.
  - intros H. right. apply IH. exact H.
Qed.

Lemma od_get_in_nodup (k : K) (v : V) (d : list (K * V)) :
  NoDup (map fst d) -> In (k, v) d -> od_get eqb k d = Some v.
Proof.
  induction d as [|[k' v'] d IH]; simpl; intros Hnd Hin; [contradiction|].
  inversion Hnd as [|? ? Hnotin Hnd']; subst.
  destruct Hin as [Heq|Hin].
  - injection Heq as -> ->. rewrite eqb_refl'. reflexivity.
  - destruct (eqb k k') eqn:E.
    + apply eqb_eq in E. subst k'. exfalso. apply Hnotin.
      apply (in_map fst) in Hin. exact Hin.
    + apply IH; assumption.
Qed.

(** Setting a key the dict does not have appends it. *)
Lemma od_set_fresh (k : K) (v : V) (d : list (K * V)) :
  ~ In k (map fst d) -> od_set eqb k v d = d ++ [(k, v)].
Proof.
  induction d as [|[k' v'] d IH]; simpl; intros Hnotin; [reflexivity|].
  destruct (eqb k k') eqn:E.
  - apply eqb_eq in E. subst k'. exfalso. apply Hnotin. left. reflexivity.
  - rewrite IH; [reflexivity|]. intros H. apply Hnotin. right. exact H.
Qed.

(** Setting a key the dict has leaves the keys as they are. *)
Lemma od_set_keys_present (k : K) (v : V) (d : list (K * V)) :
  In k (map fst d) -> map fst (od_set eqb k v d) = map fst d.
Proof.
  induction d as [|[k' v'] d IH]; simpl; intros Hin; [contradiction|].
  destruct (eqb k k') eqn:E; simpl.
  - reflexivity.
  - f_equal. apply IH. destruct Hin as [H|H]; [|exact H].
    subst k'. rewrite eqb_refl' in E. discriminate.
Qed.

Lemma od_set_keys (k : K) (v : V) (d : list (K * V)) :
  map fst (od_set eqb k v d) =
  if od_mem eqb k d then map fst d else map fst d ++ [k].
Proof.
  unfold od_mem. destruct (od_get eqb k d) as [v0|] eqn:E.
  - apply od_set_keys_present. apply od_get_Some_in in E.
    apply (in_map fst) in E. exact E.
  - apply od_get_None_notin in E. rewrite od_set_fresh by exact E.
    rewrite map_app. reflexivity.
Qed.

Lemma od_set_nodup (k : K) (v : V) (d : list (K * V)) :
  NoDup (map fst d) -> NoDup (map fst (od_set eqb k v d)).
Proof.
  intros Hnd. rewrite od_set_keys. unfold od_mem.
  destruct (od_get eqb k d) eqn:E; [exact Hnd|].
  apply od_get_None_notin in E.
  apply NoDup_app; [exact Hnd | repeat constructor; intros [] |].
  intros x Hx [Hx'|[]]. subst x. contradiction.
Qed.
End OrderedDictFacts.

(** ** Counter *)

Lemma count_step_get (c : list (string * nat)) (a t : string) :
  od_get String.eqb t (count_step c a) =
  if string_dec a t then Some (od_get_default String.eqb t 0%nat c + 1)%nat
  else od_get String.eqb t c.
Proof.
  unfold count_step. destruct (string_dec a t) as [->|Hne].
  - apply (od_get_set_same _ String.eqb_eq).
  - apply (od_get_set_other _ String.eqb_eq). congruence.
Qed.

Lemma Counter_fold_get (toks : list string) (c : list (string * nat)) (t : string) :
  od_get String.eqb t (fold_left count_step toks c) =
  if (occurrences t toks =? 0)%nat then od_get String.eqb t c
  else Some (od_get_default String.eqb t 0%nat c + occurrences t toks)%nat.
Proof.
  unfold occurrences. revert c. induction toks as [|a toks IH]; intros c; simpl.
  - reflexivity.
  - rewrite IH. unfold od_get_default. rewrite count_step_get.
    destruct (string_dec a t) as [->|Hne].
    + destruct (count_occ string_dec toks t) as [|n]; simpl.
      * reflexivity.
      * unfold od_get_default. f_equal. lia.
    + reflexivity.
Qed.

Lemma Counter_get (toks : list string) (t : string) :
  od_get String.eqb t (Counter toks) =
  if (occurrences t toks =? 0)%nat then None else Some (occurrences t toks).
Proof.
  unfold Counter. change (fun c t0 => od_set String.eqb t0
    (od_get_default String.eqb t0 0%nat c + 1)%nat c) with count_step.
  rewrite Counter_fold_get. reflexivity.
Qed.

Lemma Counter_nodup (toks : list string) : NoDup (map fst (Counter toks)).
Proof.
  unfold Counter.
  assert (H0 : NoDup (map fst (@nil (string * nat)))) by constructor.
  revert H0. generalize (@nil (string * nat)).
  induction toks as [|a toks IH]; intros c Hc; simpl.
  - exact Hc.
  - apply IH. apply (od_set_nodup _ String.eqb_eq). exact Hc.
Qed.

(** The keys of the counter are the tokens. *)
Lemma Counter_keys (toks : list string) (t : string) :
  In t (map fst (Counter toks)) <-> In t toks.
Proof.
  destruct (od_get String.eqb t (Counter toks)) as [n|] eqn:E.
  - pose proof (od_get_Some_in _ String.eqb_eq _ _ _ E) as Hin.
    apply (in_map fst) in Hin. simpl in Hin.
    rewrite Counter_get in E.
    destruct (occurrences t toks =? 0)%nat eqn:E0; [discriminate|].
    apply Nat.eqb_neq in E0. unfold occurrences in E0.
    split; intros _; [|exact Hin].
    apply (count_occ_In string_dec). lia.
  - pose proof (proj1 (od_get_None_notin _ String.eqb_eq _ _) E) as Hnotin.
    rewrite Counter_get in E.
    destruct (occurrences t toks =? 0)%nat eqn:E0; [|discriminate].
    apply Nat.eqb_eq in E0. unfold occurrences in E0.
    split; intros H; [contradiction|].
    apply (count_occ_In string_dec) in H. lia.
Qed.

(** ** The index after [build] *)

Lemma index_set_get (a t : string) (i c : nat) ix :
  index_get t (index_set a i c ix) =
  if string_dec a t then od_set Nat.eqb i c (index_get t ix) else index_get t ix.
Proof.
  unfold index_set, index_get at 1, od_get_default.
  destruct (string_dec a t) as [->|Hne].
  - rewrite (od_get_set_same _ String.eqb_eq). reflexivity.
  - rewrite (od_get_set_other _ String.eqb_eq) by congruence. reflexivity.
Qed.

Lemma index_set_all_get (t : string) (i : nat) (freqs : list (string * nat)) ix :
  NoDup (map fst freqs) ->
  index_get t (fold_left (fun ix tc => index_set (fst tc) i (snd tc) ix) freqs ix) =
  match od_get String.eqb t freqs with
  | Some c => od_set Nat.eqb i c (index_get t ix)
  | None => index_get t ix
  end.
Proof.
  revert ix. induction freqs as [|[a c] freqs IH]; intros ix Hnd; simpl.
  - reflexivity.
  - inversion Hnd as [|? ? Hnotin Hnd']; subst.
    rewrite IH by exact Hnd'. rewrite index_set_get.
    destruct (string_dec a t) as [->|Hne].
    + rewrite String.eqb_refl.
      apply (od_get_None_notin _ String.eqb_eq) in Hnotin. rewrite Hnotin.
      reflexivity.
    + destruct (String.eqb t a) eqn:E; [|reflexivity].
      apply String.eqb_eq in E. congruence.
Qed.

Lemma build_doc_get (t : string) (self : InvertedIndex) (it : nat * string) :
  index_get t (index (build_doc self it)) =
  let n := occurrences t (tokenize (snd it)) in
  if (n =? 0)%nat then index_get t (index self)
  else od_set Nat.eqb (fst it) n (index_get t (index self)).
Proof.
  destruct it as [i text]. unfold build_doc. simpl.
  rewrite index_set_all_get by apply Counter_nodup.
  rewrite Counter_get.
  destruct (occurrences t (tokenize text) =? 0)%nat; reflexivity.
Qed.

Lemma build_doc_N (self : InvertedIndex) (it : nat * string) :
  N (build_doc self it) = N self.
Proof. destruct it. reflexivity. Qed.

Lemma build_doc_lens (self : InvertedIndex) (it : nat * string) :
  doc_lens (build_doc self it) =
  od_set Nat.eqb (fst it) (length (tokenize (snd it))) (doc_lens self).
Proof. destruct it. reflexivity. Qed.

Lemma od_set_above {V : Type} (s : nat) (v : V) (d : list (nat * V)) :
  keys_below s d -> od_set Nat.eqb s v d = d ++ [(s, v)].
Proof.
  intros Hb. apply (od_set_fresh _ Nat.eqb_eq).
  intros Hin. apply Hb in Hin. lia.
Qed.

Lemma keys_below_snoc {V : Type} (s : nat) (v : V) (d : list (nat * V)) :
  keys_below s d -> keys_below (S s) (d ++ [(s, v)]).
Proof.
  intros Hb k Hin. rewrite map_app in Hin. apply in_app_or in Hin.
  destruct Hin as [Hin|[<-|[]]]; [apply Hb in Hin|]; simpl; lia.
Qed.

Lemma keys_below_S {V : Type} (s : nat) (d : list (nat * V)) :
  keys_below s d -> keys_below (S s) d.
Proof. intros Hb k Hin. apply Hb in Hin. lia. Qed.

Lemma build_loop_N (l : list (nat * string)) (st : InvertedIndex) :
  N (fold_left build_doc l st) = N st.
Proof.
  revert st. induction l as [|it l IH]; intros st; simpl; [reflexivity|].
  rewrite IH. apply build_doc_N.
Qed.

Lemma build_loop_get (t : string) (l : list string) (s : nat) (st : InvertedIndex) :
  keys_below s (index_get t (index st)) ->
  index_get t (index (fold_left build_doc (combine (seq s (length l)) l) st)) =
  index_get t (index st) ++ flat_map (doc_posting t) (combine (seq s (length l)) l).
Proof.
  revert s st. induction l as [|x l IH]; intros s st Hb;
    cbn [fold_left combine seq length flat_map].
  - rewrite app_nil_r. reflexivity.
  - pose proof (build_doc_get t st (s, x)) as Hd. cbn [fst snd] in Hd. cbv zeta in Hd.
    unfold doc_posting at 1. cbn [fst snd]. cbv zeta.
    destruct (occurrences t (tokenize x) =? 0)%nat.
    + rewrite IH; rewrite Hd; [reflexivity | apply keys_below_S; exact Hb].
    + rewrite (od_set_above _ _ _ Hb) in Hd.
      rewrite IH; rewrite Hd; [|apply keys_below_snoc; exact Hb].
      rewrite <- app_assoc. reflexivity.
Qed.

Lemma build_loop_lens (l : list string) (s : nat) (st : InvertedIndex) :
  keys_below s (doc_lens st) ->
  doc_lens (fold_left build_doc (combine (seq s (length l)) l) st) =
  doc_lens st ++
  map (fun it => (fst it, length (tokenize (snd it)))) (combine (seq s (length l)) l).
Proof.
  revert s st. induction l as [|x l IH]; intros s st Hb;
    cbn [fold_left combine seq length map].
  - rewrite app_nil_r. reflexivity.
  - pose proof (build_doc_lens st (s, x)) as Hd. cbn [fst snd] in Hd.
    rewrite (od_set_above _ _ _ Hb) in Hd.
    rewrite IH; rewrite Hd; [|apply keys_below_snoc; exact Hb].
    rewrite <- app_assoc. reflexivity.
Qed.

Lemma od_set_values {K V : Type} (eqb : K -> K -> bool) (Q : V -> Prop)
    (k : K) (v : V) (d : list (K * V)) :
  Forall (fun kv => Q (snd kv)) d -> Q v ->
  Forall (fun kv => Q (snd kv)) (od_set eqb k v d).
Proof.
  intros Hd Hv. induction d as [|[k' v'] d IH]; simpl.
  - constructor; [exact Hv | constructor].
  - inversion Hd as [|? ? Hh Ht]; subst.
    destruct (eqb k k'); constructor; auto.
Qed.

Lemma od_set_not_nil {K V : Type} (eqb : K -> K -> bool) (k : K) (v : V) d :
  od_set eqb k v d <> [].
Proof. destruct d as [|[k' v'] d]; simpl; [|destruct (eqb k k')]; discriminate. Qed.

Lemma build_doc_no_empty (st : InvertedIndex) (it : nat * string) :
  no_empty_postings (index st) -> no_empty_postings (index (build_doc st it)).
Proof.
  destruct it as [i text]. unfold build_doc. simpl.
  generalize (Counter (tokenize text)) (index st).
  induction l as [|[a c] freqs IH]; intros ix Hix; simpl; [exact Hix|].
  apply IH. unfold index_set.
  apply (od_set_values String.eqb (fun v => v <> [])); [exact Hix|].
  apply od_set_not_nil.
Qed.

Lemma build_loop_no_empty (l : list (nat * string)) (st : InvertedIndex) :
  no_empty_postings (index st) ->
  no_empty_postings (index (fold_left build_doc l st)).
Proof.
  revert st. induction l as [|it l IH]; intros st Hst; simpl; [exact Hst|].
  apply IH. apply build_doc_no_empty. exact Hst.
Qed.

(** [build] on a fresh instance returns, and this is the index it returns. *)
Lemma build_index_eq (docs : list string) :
  exists ix,
    build_index docs = Ok ix /\
    N ix = length docs /\
    doc_lens ix = lengths_of docs /\
    avg_dl ix = mean_length docs /\
    (forall t, index_get t (index ix) = postings_of t docs) /\
    no_empty_postings (index ix).
Proof.
  unfold build_index, build. simpl.
  set (st0 := {| index := []; doc_lens := []; N := length docs; avg_dl := 0%R |}).
  assert (Hlens : doc_lens (fold_left build_doc (enumerate docs) st0) = lengths_of docs).
  { unfold enumerate. rewrite build_loop_lens; [reflexivity|]. intros k []. }
  assert (HN : N (fold_left build_doc (enumerate docs) st0) = length docs).
  { rewrite build_loop_N. reflexivity. }
  assert (Hget : forall t, index_get t (index (fold_left build_doc (enumerate docs) st0))
                           = postings_of t docs).
  { intros t. unfold enumerate. rewrite build_loop_get; [reflexivity|]. intros k []. }
  assert (Hne : no_empty_postings (index (fold_left build_doc (enumerate docs) st0))).
  { apply build_loop_no_empty. constructor. }
  rewrite HN, Hlens.
  destruct docs as [|d docs].
  - simpl. eexists. split; [reflexivity|]. simpl. repeat split; auto.
  - change (length (d :: docs) =? 0)%nat with false. cbv iota.
    unfold truediv. destruct (Req_dec_T (INR (length (d :: docs))) 0) as [E|E].
    + exfalso. revert E. apply not_0_INR. simpl. discriminate.
    + simpl bind. eexists. split; [reflexivity|]. simpl. repeat split; auto.
Qed.

(** ** Enumerations and postings *)

Lemma enumerate_snd {A : Type} (l : list A) (s : nat) :
  map snd (combine (seq s (length l)) l) = l.
Proof.
  revert s. induction l as [|x l IH]; intros s; simpl; [reflexivity|].
  rewrite IH. reflexivity.
Qed.

Lemma enumerate_fst {A : Type} (l : list A) (s : nat) :
  map fst (combine (seq s (length l)) l) = seq s (length l).
Proof.
  revert s. induction l as [|x l IH]; intros s; simpl; [reflexivity|].
  rewrite IH. reflexivity.
Qed.

Lemma enumerate_in {A : Type} (l : list A) (s i : nat) (x : A) :
  In (i, x) (combine (seq s (length l)) l) <->
  (s <= i)%nat /\ nth_error l (i - s) = Some x.
Proof.
  revert s. induction l as [|y l IH]; intros s; simpl.
  - split; [intros [] | intros [_ H]]. destruct (i - s)%nat; discriminate.
  - rewrite IH. split.
    + intros [H|[Hle H]].
      * injection H as -> ->. rewrite Nat.sub_diag. split; [lia | reflexivity].
      * split; [lia|]. replace (i - s)%nat with (S (i - S s)) by lia. exact H.
    + intros [Hle H]. destruct (i - s)%nat as [|m] eqn:E.
      * left. injection H as ->. f_equal. lia.
      * right. split; [lia|]. replace (i - S s)%nat with m by lia. exact H.
Qed.

Lemma in_enumerate {A : Type} (l : list A) (i : nat) (x : A) :
  In (i, x) (enumerate l) <-> nth_error l i = Some x.
Proof.
  unfold enumerate. rewrite enumerate_in. rewrite Nat.sub_0_r.
  split; [intros [_ H]; exact H | intros H; split; [lia | exact H]].
Qed.

Lemma doc_posting_cases (t : string) (i : nat) (text : string) :
  doc_posting t (i, text) = [] \/ exists n, doc_posting t (i, text) = [(i, n)].
Proof.
  unfold doc_posting. simpl.
  destruct (occurrences t (tokenize text) =? 0)%nat; [left | right; eexists];
    reflexivity.
Qed.

Lemma postings_from_keys (t : string) (l : list string) (s : nat) :
  let p := flat_map (doc_posting t) (combine (seq s (length l)) l) in
  NoDup (map fst p) /\ (forall k, In k (map fst p) -> (s <= k)%nat) /\
  (length p <= length l)%nat.
Proof.
  revert s. induction l as [|x l IH]; intros s; cbn [length seq combine flat_map].
  - simpl. repeat split; [constructor | intros k [] | lia].
  - destruct (IH (S s)) as (Hnd & Hge & Hlen).
    destruct (doc_posting_cases t s x) as [-> | [n ->]]; simpl.
    + repeat split; [exact Hnd | | lia]. intros k Hk. apply Hge in Hk. lia.
    + repeat split; [| | lia].
      * constructor; [|exact Hnd]. intros Hin. apply Hge in Hin. lia.
      * intros k [<-|Hk]; [lia|]. apply Hge in Hk. lia.
Qed.

Lemma postings_of_nodup (t : string) (docs : list string) :
  NoDup (map fst (postings_of t docs)).
Proof. apply (postings_from_keys t docs 0). Qed.

Lemma postings_of_length (t : string) (docs : list string) :
  (length (postings_of t docs) <= length docs)%nat.
Proof. apply (postings_from_keys t docs 0). Qed.

(** A posting is a document that contains the term, with the number of
    occurrences. *)
Lemma in_postings_of (t : string) (docs : list string) (d f : nat) :
  In (d, f) (postings_of t docs) <->
  exists text, nth_error docs d = Some text /\
               f = occurrences t (tokenize text) /\ (1 <= f)%nat.
Proof.
  unfold postings_of. rewrite in_flat_map. split.
  - intros [[i text] [Hin Hp]]. apply in_enumerate in Hin.
    unfold doc_posting in Hp. simpl in Hp.
    destruct (occurrences t (tokenize text) =? 0)%nat eqn:E; [contradiction|].
    destruct Hp as [Hp|[]]. injection Hp as -> <-.
    apply Nat.eqb_neq in E. exists text. repeat split; [exact Hin | lia].
  - intros (text & Hnth & -> & Hf). exists (d, text).
    split; [apply in_enumerate; exact Hnth|].
    unfold doc_posting. simpl.
    destruct (occurrences t (tokenize text) =? 0)%nat eqn:E.
    + apply Nat.eqb_eq in E. lia.
    + left. reflexivity.
Qed.

Lemma get_postings_of (t : string) (docs : list string) (d f : nat) :
  od_get Nat.eqb d (postings_of t docs) = Some f <-> In (d, f) (postings_of t docs).
Proof.
  split.
  - apply (od_get_Some_in _ Nat.eqb_eq).
  - apply (od_get_in_nodup _ Nat.eqb_eq). apply postings_of_nodup.
Qed.

Lemma get_lengths_of (docs : list string) (d : nat) (text : string) :
  nth_error docs d = Some text ->
  od_get Nat.eqb d (lengths_of docs) = Some (length (tokenize text)).
Proof.
  intros Hnth. apply (od_get_in_nodup _ Nat.eqb_eq).
  - unfold lengths_of. rewrite map_map. simpl.
    change (fun x : nat * string => fst x) with (@fst nat string).
    unfold enumerate. rewrite enumerate_fst. apply seq_NoDup.
  - unfold lengths_of. apply in_map_iff. exists (d, text).
    split; [reflexivity | apply in_enumerate; exact Hnth].
Qed.

(** ** Claims about [InvertedIndex.build] *)

Lemma py_sum_from (l : list nat) (a : nat) :
  fold_left Nat.add l a = (a + list_sum l)%nat.
Proof.
  revert a. induction l as [|x l IH]; intros a; simpl; [lia|].
  rewrite IH. lia.
Qed.

Lemma py_sum_list_sum (l : list nat) : py_sum l = list_sum l.
Proof. unfold py_sum. rewrite py_sum_from. reflexivity. Qed.

Lemma lengths_of_values (docs : list string) :
  map snd (lengths_of docs) = map (fun text => length (tokenize text)) docs.
Proof.
  unfold lengths_of, enumerate. rewrite map_map. simpl.
  rewrite <- (map_map snd (fun text => length (tokenize text))).
  rewrite enumerate_snd. reflexivity.
Qed.

Lemma mean_length_eq (docs : list string) :
  mean_length docs = arithmetic_mean (map snd (lengths_of docs)).
Proof.
  rewrite lengths_of_values. unfold mean_length. destruct docs as [|d docs].
  - reflexivity.
  - rewrite lengths_of_values, py_sum_list_sum. unfold arithmetic_mean.
    rewrite length_map. reflexivity.
Qed.

(** C8: on every list of texts, the empty one included, [build] returns
    (no division error); [N] is the number of documents, the recorded
    lengths are the token counts of the documents in order, and [avg_dl]
    is their arithmetic mean, which is 0 when there is no document. *)
Theorem C8_build_doc_count_and_mean (docs : list string) :
  exists ix,
    build_index docs = Ok ix /\
    N ix = length docs /\
    map snd (doc_lens ix) = map (fun text => length (tokenize text)) docs /\
    avg_dl ix = arithmetic_mean (map snd (doc_lens ix)) /\
    (N ix = 0%nat -> avg_dl ix = 0%R).
Proof.
  destruct (build_index_eq docs) as (ix & Hb & HN & Hl & Ha & _).
  exists ix. rewrite Hl, Ha, HN. repeat split.
  - exact Hb.
  - apply lengths_of_values.
  - apply mean_length_eq.
  - intros H0. destruct docs; [reflexivity | discriminate].
Qed.

Lemma posted_index_get (ix : InvertedIndex) (t : string) (d : nat) :
  posted ix t d = od_mem Nat.eqb d (index_get t (index ix)).
Proof.
  unfold posted, index_get, od_get_default.
  destruct (od_get String.eqb t (index ix)); reflexivity.
Qed.

Lemma od_mem_true {V : Type} (d : nat) (p : list (nat * V)) :
  od_mem Nat.eqb d p = true <-> exists f, od_get Nat.eqb d p = Some f.
Proof.
  unfold od_mem. destruct (od_get Nat.eqb d p) as [f|].
  - split; [intros _; exists f; reflexivity | reflexivity].
  - split; [discriminate | intros [f H]; discriminate].
Qed.

(** C4: in the index built from [docs], document [d] is under term [t]
    exactly when [d] is a document whose tokens contain [t], and the count
    stored there is the number of occurrences; so every term of the index
    has between 1 and [N] documents. *)
Theorem C4_postings_iff_term_occurs (docs : list string) :
  exists ix,
    build_index docs = Ok ix /\
    (forall t d,
        posted ix t d = true <->
        exists text, nth_error docs d = Some text /\ In t (tokenize text)) /\
    (forall t d f,
        od_get Nat.eqb d (index_get t (index ix)) = Some f ->
        exists text, nth_error docs d = Some text /\
                     f = occurrences t (tokenize text)) /\
    (forall t p,
        od_get String.eqb t (index ix) = Some p ->
        (1 <= length p <= N ix)%nat).
Proof.
  destruct (build_index_eq docs) as (ix & Hb & HN & _ & _ & Hget & Hne).
  exists ix. split; [exact Hb|]. split; [|split].
  - intros t d. rewrite posted_index_get, Hget, od_mem_true. split.
    + intros [f Hf]. apply get_postings_of, in_postings_of in Hf.
      destruct Hf as (text & Hnth & -> & Hpos). exists text.
      split; [exact Hnth|]. apply (count_occ_In string_dec). exact Hpos.
    + intros (text & Hnth & Hin). exists (occurrences t (tokenize text)).
      apply get_postings_of, in_postings_of. exists text.
      repeat split; [exact Hnth|]. apply (count_occ_In string_dec) in Hin.
      exact Hin.
  - intros t d f Hf. rewrite Hget in Hf.
    apply get_postings_of, in_postings_of in Hf.
    destruct Hf as (text & Hnth & Hf & _). exists text. split; assumption.
  - intros t p Hp. pose proof (Hget t) as Ht.
    unfold index_get, od_get_default in Ht. rewrite Hp in Ht. subst p.
    rewrite HN. split; [|apply postings_of_length].
    apply (od_get_Some_in _ String.eqb_eq) in Hp.
    unfold no_empty_postings in Hne. rewrite Forall_forall in Hne.
    apply Hne in Hp. simpl in Hp.
    destruct (postings_of t docs); [contradiction | simpl; lia].
Qed.

(** ** Claims about [BM25Ranker.idf] *)

Local Open Scope R_scope.

Lemma truediv_Ok (x y : R) : y <> 0 -> truediv x y = Ok (x / y).
Proof.
  intros Hy. unfold truediv. destruct (Req_dec_T y 0); [contradiction | reflexivity].
Qed.

Lemma math_log_Ok (x : R) : 0 < x -> math_log x = Ok (ln x).
Proof.
  intros Hx. unfold math_log. destruct (Rlt_dec 0 x); [reflexivity | contradiction].
Qed.

Lemma idf_ratio_pos (n df : nat) :
  (df <= n)%nat -> 0 < (INR n - INR df + 0.5) / (INR df + 0.5).
Proof.
  intros Hle. apply le_INR in Hle. pose proof (pos_INR df).
  apply Rdiv_lt_0_compat; lra.
Qed.

Lemma idf_formula_pos (n df : nat) : (df <= n)%nat -> 0 < idf_formula n df.
Proof.
  intros Hle. pose proof (idf_ratio_pos n df Hle) as Hq.
  unfold idf_formula. rewrite <- ln_1. apply ln_increasing; lra.
Qed.

Lemma idf_Ok (self : BM25Ranker) (t : string) :
  (length (index_get t (index (idx self))) <= N (idx self))%nat ->
  idf self t =
  Ok (idf_formula (N (idx self)) (length (index_get t (index (idx self))))).
Proof.
  intros Hle. pose proof (idf_ratio_pos _ _ Hle) as Hq.
  unfold idf. cbv zeta. rewrite truediv_Ok.
  - simpl bind. rewrite math_log_Ok by lra. reflexivity.
  - pose proof (pos_INR (length (index_get t (index (idx self))))). lra.
Qed.

Lemma postings_length_from (t : string) (l : list string) (s : nat) :
  length (flat_map (doc_posting t) (combine (seq s (length l)) l)) =
  doc_frequency t l.
Proof.
  unfold doc_frequency. revert s.
  induction l as [|x l IH]; intros s; cbn [length seq combine flat_map filter].
  - reflexivity.
  - rewrite length_app, IH. unfold doc_posting. cbn [fst snd]. cbv zeta.
    destruct (occurrences t (tokenize x) =? 0)%nat; reflexivity.
Qed.

Lemma postings_of_frequency (t : string) (docs : list string) :
  length (postings_of t docs) = doc_frequency t docs.
Proof. apply postings_length_from. Qed.

(** C5: on a built index, for any term, in the index or not, and any
    ranker parameters, [idf] returns the real number
    [ln ((N - df + 0.5) / (df + 0.5) + 1)], with [df] the number of
    documents that contain the term (0 for a term not in the index) and
    [N] the number of documents; the value is non-negative (positive, in
    fact), as is the formula for every [df <= n]. *)
Theorem C5_idf_formula_nonneg :
  (forall (docs : list string) (k1 b : R) (t : string),
      exists ix,
        build_index docs = Ok ix /\
        N ix = length docs /\
        (doc_frequency t docs <= length docs)%nat /\
        (od_get String.eqb t (index ix) = None -> doc_frequency t docs = 0%nat) /\
        idf {| idx := ix; k1 := k1; b := b |} t =
          Ok (idf_formula (length docs) (doc_frequency t docs)) /\
        0 <= idf_formula (length docs) (doc_frequency t docs)) /\
  (forall n df : nat, (df <= n)%nat -> 0 <= idf_formula n df).
Proof.
  split.
  - intros docs k1 b t.
    destruct (build_index_eq docs) as (ix & Hb & HN & _ & _ & Hget & _).
    pose proof (postings_of_length t docs) as Hlen.
    rewrite postings_of_frequency in Hlen.
    exists ix. repeat split; try assumption.
    + intros Hnone. rewrite <- postings_of_frequency, <- Hget.
      unfold index_get, od_get_default. rewrite Hnone. reflexivity.
    + rewrite idf_Ok; simpl idx; rewrite Hget, HN, postings_of_frequency;
        [reflexivity | exact Hlen].
    + apply Rlt_le, idf_formula_pos. exact Hlen.
  - intros n df Hle. apply Rlt_le, idf_formula_pos. exact Hle.
Qed.

(** ** The scoring loops *)

Lemma bm25_denom_pos (f dl : nat) (avg k1 b : R) :
  (1 <= f)%nat -> params_ok k1 b -> 0 < avg ->
  0 < INR f + k1 * (1 - b + b * INR dl / avg).
Proof.
  intros Hf [Hk [Hb0 Hb1]] Havg.
  apply le_INR in Hf. simpl in Hf. pose proof (pos_INR dl) as Hdl.
  assert (0 <= b * INR dl / avg).
  { apply Rmult_le_pos; [apply Rmult_le_pos; assumption|].
    apply Rlt_le, Rinv_0_lt_compat. exact Havg. }
  assert (0 <= k1 * (1 - b + b * INR dl / avg)).
  { apply Rmult_le_pos; lra. }
  lra.
Qed.

Lemma score_posting_Ok (self : BM25Ranker) (idf_t : R) (scores : list (nat * R))
    (d f dl : nat) :
  params_ok (k1 self) (b self) -> 0 < avg_dl (idx self) -> (1 <= f)%nat ->
  od_get Nat.eqb d (doc_lens (idx self)) = Some dl ->
  score_posting self idf_t scores (d, f) =
  Ok (od_set Nat.eqb d
        (od_get_default Nat.eqb d 0 scores
         + bm25_term idf_t f dl (avg_dl (idx self)) (k1 self) (b self)) scores).
Proof.
  intros Hp Havg Hf Hdl. unfold score_posting, doc_len. rewrite Hdl. simpl bind.
  rewrite truediv_Ok by lra. simpl bind.
  rewrite truediv_Ok; [reflexivity|].
  pose proof (bm25_denom_pos f dl _ _ _ Hf Hp Havg). unfold Rdiv in *. lra.
Qed.

Lemma score_postings_Ok (self : BM25Ranker) (idf_t : R) (p : list (nat * nat)) :
  params_ok (k1 self) (b self) -> 0 < avg_dl (idx self) ->
  postings_ok (idx self) p ->
  forall scores, NoDup (map fst scores) ->
  exists scores',
    for_each (score_posting self idf_t) p scores = Ok scores' /\
    NoDup (map fst scores') /\
    forall d,
      od_get Nat.eqb d scores' =
      match od_get Nat.eqb d p with
      | Some f =>
          Some (od_get_default Nat.eqb d 0 scores
                + bm25_term idf_t f (od_get_default Nat.eqb d 0%nat (doc_lens (idx self)))
                    (avg_dl (idx self)) (k1 self) (b self))
      | None => od_get Nat.eqb d scores
      end.
Proof.
  intros Hp Havg. induction p as [|[d0 f0] p IH]; intros [Hnd Hok] scores Hs.
  - exists scores. simpl. auto.
  - inversion Hnd as [|? ? Hnotin Hnd']; subst.
    destruct (Hok d0 f0 (or_introl eq_refl)) as [Hf0 [dl Hdl]].
    cbn [for_each]. rewrite (score_posting_Ok _ _ _ _ _ dl) by assumption.
    simpl bind.
    set (s1 := od_set Nat.eqb d0 _ scores).
    destruct (IH (conj Hnd' (fun d f H => Hok d f (or_intror H))) s1)
      as (scores' & Hrun & Hnd1 & Hget).
    { apply (od_set_nodup _ Nat.eqb_eq). exact Hs. }
    exists scores'. split; [exact Hrun|]. split; [exact Hnd1|].
    intros d. rewrite Hget. cbn [od_get]. unfold od_get_default, s1.
    destruct (Nat.eqb d d0) eqn:E.
    + apply Nat.eqb_eq in E. subst d0.
      apply (od_get_None_notin _ Nat.eqb_eq) in Hnotin. rewrite Hnotin.
      rewrite (od_get_set_same _ Nat.eqb_eq). rewrite Hdl. reflexivity.
    + apply Nat.eqb_neq in E.
      rewrite (od_get_set_other _ Nat.eqb_eq) by exact E. reflexivity.
Qed.

Lemma score_term_Ok (self : BM25Ranker) (t : string) (scores : list (nat * R)) :
  index_ok (idx self) -> params_ok (k1 self) (b self) ->
  NoDup (map fst scores) ->
  exists scores',
    score_term self scores t = Ok scores' /\
    NoDup (map fst scores') /\
    forall d,
      od_get Nat.eqb d scores' =
      if od_mem Nat.eqb d (index_get t (index (idx self)))
      then Some (od_get_default Nat.eqb d 0 scores + contribution self t d)
      else od_get Nat.eqb d scores.
Proof.
  intros Hix Hp Hs. destruct (Hix t) as (Hpost & Hlen & Havg).
  unfold score_term. cbv zeta.
  remember (index_get t (index (idx self))) as p eqn:E in |- *.
  destruct p as [|p0 p'].
  - exists scores. split; [reflexivity|]. split; [exact Hs|]. intros d. reflexivity.
  - cbv beta iota. rewrite E. rewrite idf_Ok by exact Hlen. simpl bind.
    destruct (score_postings_Ok self
                (idf_formula (N (idx self)) (length (index_get t (index (idx self)))))
                (index_get t (index (idx self))) Hp) with (scores := scores)
      as (scores' & Hrun & Hnd & Hget); try assumption.
    { apply Havg. rewrite <- E. discriminate. }
    exists scores'.
    split; [exact Hrun|]. split; [exact Hnd|].
    intros d. rewrite Hget. unfold contribution, od_mem, od_get_default.
    destruct (od_get Nat.eqb d (index_get t (index (idx self)))); reflexivity.
Qed.

Lemma score_terms_Ok (self : BM25Ranker) (ts : list string) :
  index_ok (idx self) -> params_ok (k1 self) (b self) ->
  forall scores, NoDup (map fst scores) ->
  exists acc,
    for_each (score_term self) ts scores = Ok acc /\
    NoDup (map fst acc) /\
    forall d,
      od_get Nat.eqb d acc =
      acc_value (od_get Nat.eqb d scores)
                (map (fun t => contribution self t d) (hitting self d ts)).
Proof.
  intros Hix Hp. induction ts as [|t ts IH]; intros scores Hs.
  - exists scores. simpl. auto.
  - destruct (score_term_Ok self t scores Hix Hp Hs) as (s1 & Hrun1 & Hnd1 & Hget1).
    destruct (IH s1 Hnd1) as (acc & Hrun & Hnd & Hget).
    exists acc. cbn [for_each]. rewrite Hrun1. simpl bind.
    split; [exact Hrun|]. split; [exact Hnd|].
    intros d. rewrite Hget, Hget1. unfold hitting. cbn [filter].
    destruct (od_mem Nat.eqb d (index_get t (index (idx self)))).
    + cbn [map]. unfold acc_value at 2. cbn [fold_left].
      fold (hitting self d ts).
      destruct (map (fun t0 => contribution self t0 d) (hitting self d ts));
        simpl; unfold od_get_default;
        destruct (od_get Nat.eqb d scores); reflexivity.
    + reflexivity.
Qed.

(** [accumulate] returns, and each entry of the accumulator is the sum, in
    the order of the query terms, of the contributions of the terms whose
    postings contain the document. *)
Lemma accumulate_Ok (self : BM25Ranker) (query : string) :
  index_ok (idx self) -> params_ok (k1 self) (b self) ->
  exists acc,
    accumulate self query = Ok acc /\
    NoDup (map fst acc) /\
    forall d,
      od_get Nat.eqb d acc =
      acc_value None
        (map (fun t => contribution self t d)
             (hitting self d (map fst (Counter (tokenize query))))).
Proof.
  intros Hix Hp. unfold accumulate. cbv zeta.
  destruct (score_terms_Ok self (map fst (Counter (tokenize query))) Hix Hp [])
    as (acc & Hrun & Hnd & Hget); [constructor|].
  exists acc. auto.
Qed.

(** ** A built index is fit for scoring *)

Lemma list_sum_ge (l : list nat) (x : nat) : In x l -> (x <= list_sum l)%nat.
Proof.
  induction l as [|y l IH]; simpl; intros Hin; [contradiction|].
  destruct Hin as [->|Hin]; [lia|]. apply IH in Hin. lia.
Qed.

Lemma mean_length_pos (docs : list string) (d : nat) (text t : string) :
  nth_error docs d = Some text -> In t (tokenize text) -> 0 < mean_length docs.
Proof.
  intros Hnth Hin. unfold mean_length. destruct docs as [|d0 docs].
  - destruct d; discriminate.
  - apply Rdiv_lt_0_compat.
    + rewrite py_sum_list_sum, lengths_of_values.
      apply Rlt_le_trans with (INR (length (tokenize text))).
      * apply lt_0_INR. destruct (tokenize text); [contradiction | simpl; lia].
      * apply le_INR, list_sum_ge, in_map_iff. exists text.
        split; [reflexivity|]. apply nth_error_In in Hnth. exact Hnth.
    + apply lt_0_INR. simpl. lia.
Qed.

Lemma built_index_ok (docs : list string) (ix : InvertedIndex) :
  build_index docs = Ok ix -> index_ok ix.
Proof.
  intros Hb. destruct (build_index_eq docs) as (ix' & Hb' & HN & Hl & Ha & Hget & _).
  rewrite Hb in Hb'. injection Hb' as <-.
  intros t. rewrite Hget, HN. split; [|split].
  - split; [apply postings_of_nodup|]. intros d f Hin.
    apply in_postings_of in Hin. destruct Hin as (text & Hnth & _ & Hf).
    split; [exact Hf|]. exists (length (tokenize text)). rewrite Hl.
    apply get_lengths_of. exact Hnth.
  - apply postings_of_length.
  - intros Hne. rewrite Ha. destruct (postings_of t docs) as [|[d f] p] eqn:E;
      [contradiction|].
    assert (Hin : In (d, f) (postings_of t docs)) by (rewrite E; left; reflexivity).
    apply in_postings_of in Hin. destruct Hin as (text & Hnth & -> & Hf).
    apply (mean_length_pos docs d text t Hnth).
    apply (count_occ_In string_dec). exact Hf.
Qed.

(** ** The ranking: sorting and truncation *)

Lemma insert_desc_perm (x : nat * R) (l : list (nat * R)) :
  Permutation (insert_desc x l) (x :: l).
Proof.
  induction l as [|y l IH]; simpl.
  - apply Permutation_refl.
  - destruct (Rlt_dec (snd x) (snd y)).
    + apply perm_trans with (y :: x :: l); [apply perm_skip; exact IH | apply perm_swap].
    + apply Permutation_refl.
Qed.

Lemma sorted_desc_perm (l : list (nat * R)) : Permutation (sorted_desc l) l.
Proof.
  induction l as [|x l IH]; simpl.
  - apply perm_nil.
  - apply perm_trans with (x :: sorted_desc l);
      [apply insert_desc_perm | apply perm_skip; exact IH].
Qed.

Lemma insert_desc_sorted (x : nat * R) (l : list (nat * R)) :
  StronglySorted score_ge l -> StronglySorted score_ge (insert_desc x l).
Proof.
  induction l as [|y l IH]; simpl; intros Hs.
  - constructor; constructor.
  - inversion Hs as [|? ? Hs' Hall]; subst.
    destruct (Rlt_dec (snd x) (snd y)) as [Hlt|Hge].
    + constructor; [apply IH; exact Hs'|].
      apply (Permutation_Forall (Permutation_sym (insert_desc_perm x l))).
      constructor; [unfold score_ge; lra | exact Hall].
    + constructor; [exact Hs|].
      constructor; [unfold score_ge; lra|].
      apply Forall_impl with (P := score_ge y); [|exact Hall].
      unfold score_ge. intros z Hz. lra.
Qed.

Lemma sorted_desc_sorted (l : list (nat * R)) :
  StronglySorted score_ge (sorted_desc l).
Proof.
  induction l as [|x l IH]; simpl; [constructor | apply insert_desc_sorted; exact IH].
Qed.

Lemma insert_desc_stable (s : R) (x : nat * R) (l : list (nat * R)) :
  filter (has_score s) (insert_desc x l) = filter (has_score s) (x :: l).
Proof.
  induction l as [|y l IH]; [reflexivity|].
  cbn [insert_desc]. destruct (Rlt_dec (snd x) (snd y)) as [Hlt|Hge]; [|reflexivity].
  cbn [filter] in *. rewrite IH. unfold has_score.
  destruct (Req_dec_T (snd x) s), (Req_dec_T (snd y) s); try reflexivity.
  exfalso. lra.
Qed.

Lemma sorted_desc_stable (s : R) (l : list (nat * R)) :
  filter (has_score s) (sorted_desc l) = filter (has_score s) l.
Proof.
  induction l as [|x l IH]; [reflexivity|].
  cbn [sorted_desc]. rewrite insert_desc_stable. cbn [filter]. rewrite IH.
  reflexivity.
Qed.

Lemma slice_to_nonneg {A : Type} (l : list A) (k : Z) :
  (0 <= k)%Z -> slice_to l k = firstn (Z.to_nat k) l.
Proof.
  intros Hk. unfold slice_to. destruct (k <? 0)%Z eqn:E; [|reflexivity].
  apply Z.ltb_lt in E. lia.
Qed.

Lemma score_eq (self : BM25Ranker) (query : string) (top_k : Z) (acc : list (nat * R)) :
  accumulate self query = Ok acc ->
  score self query top_k = Ok (slice_to (sorted_desc acc) top_k).
Proof. intros H. unfold score. rewrite H. reflexivity. Qed.

(** C7: [score] returns the accumulated pairs ranked and cut: the ranking
    is a permutation of the accumulator, by descending score, in which
    the items of any one score keep the order they have in the
    accumulator (their insertion order); the result is its first [top_k]
    items, so [min top_k (number of scored documents)] of them: none for
    [top_k = 0], all of them, without an error, when [top_k] is larger. *)
Theorem C7_score_ranked_and_truncated
    (docs : list string) (k1 b : R) (query : string) (top_k : Z) :
  params_ok k1 b -> (0 <= top_k)%Z ->
  exists ix acc res ranked,
    build_index docs = Ok ix /\
    accumulate {| idx := ix; k1 := k1; b := b |} query = Ok acc /\
    score {| idx := ix; k1 := k1; b := b |} query top_k = Ok res /\
    Permutation ranked acc /\
    StronglySorted score_ge ranked /\
    (forall s, filter (has_score s) ranked = filter (has_score s) acc) /\
    res = firstn (Z.to_nat top_k) ranked /\
    length res = Nat.min (Z.to_nat top_k) (length acc) /\
    (top_k = 0%Z -> res = []) /\
    ((Z.of_nat (length acc) <= top_k)%Z -> res = ranked).
Proof.
  intros Hp Hk.
  destruct (build_index_eq docs) as (ix & Hb & _).
  pose proof (built_index_ok docs ix Hb) as Hix.
  destruct (accumulate_Ok {| idx := ix; k1 := k1; b := b |} query Hix Hp)
    as (acc & Hacc & _).
  exists ix, acc, (firstn (Z.to_nat top_k) (sorted_desc acc)), (sorted_desc acc).
  split; [exact Hb|]. split; [exact Hacc|].
  split; [rewrite (score_eq _ _ _ _ Hacc), slice_to_nonneg by exact Hk; reflexivity|].
  split; [apply sorted_desc_perm|]. split; [apply sorted_desc_sorted|].
  split; [intros s; apply sorted_desc_stable|]. split; [reflexivity|].
  pose proof (Permutation_length (sorted_desc_perm acc)) as Hlen.
  split; [rewrite length_firstn, Hlen; reflexivity|]. split.
  - intros ->. reflexivity.
  - intros Hge. apply firstn_all2. lia.
Qed.

Lemma C7_score_ranked_and_truncated_witness :
  params_ok 1.5 0.75 /\ (0 <= 1)%Z /\
  exists ix acc res ranked,
    build_index ["the cat sat"; "the dog ran"; "cat and dog played"] = Ok ix /\
    accumulate {| idx := ix; k1 := 1.5; b := 0.75 |} "cat" = Ok acc /\
    score {| idx := ix; k1 := 1.5; b := 0.75 |} "cat" 1 = Ok res /\
    Permutation ranked acc /\
    StronglySorted score_ge ranked /\
    (forall s, filter (has_score s) ranked = filter (has_score s) acc) /\
    res = firstn (Z.to_nat 1) ranked /\
    length res = Nat.min (Z.to_nat 1) (length acc) /\
    (1%Z = 0%Z -> res = []) /\
    ((Z.of_nat (length acc) <= 1)%Z -> res = ranked).
Proof.
  assert (Hp : params_ok 1.5 0.75) by (unfold params_ok; lra).
  assert (Hk : (0 <= 1)%Z) by lia.
  split; [exact Hp|]. split; [exact Hk|].
  exact (C7_score_ranked_and_truncated
           ["the cat sat"; "the dog ran"; "cat and dog played"] 1.5 0.75 "cat" 1 Hp Hk).
Defined.

(** ** Claims about [BM25Ranker.score] *)

Lemma doc_text_nth (docs : list string) (d : nat) (text : string) :
  nth_error docs d = Some text -> doc_text docs d = text.
Proof. intros H. unfold doc_text. apply nth_error_nth. exact H. Qed.

Lemma doc_text_beyond (docs : list string) (d : nat) :
  nth_error docs d = None -> tokenize (doc_text docs d) = [].
Proof.
  intros H. unfold doc_text. apply nth_error_None in H.
  rewrite nth_overflow by exact H. reflexivity.
Qed.

Lemma postings_of_get (t : string) (docs : list string) (d : nat) :
  od_get Nat.eqb d (postings_of t docs) =
  let f := occurrences t (tokenize (doc_text docs d)) in
  if (f =? 0)%nat then None else Some f.
Proof.
  cbv zeta. destruct (od_get Nat.eqb d (postings_of t docs)) as [f|] eqn:E.
  - apply get_postings_of, in_postings_of in E.
    destruct E as (text & Hnth & -> & Hf). rewrite (doc_text_nth _ _ _ Hnth).
    destruct (occurrences t (tokenize text) =? 0)%nat eqn:E0; [|reflexivity].
    apply Nat.eqb_eq in E0. lia.
  - destruct (occurrences t (tokenize (doc_text docs d)) =? 0)%nat eqn:E0;
      [reflexivity|].
    apply Nat.eqb_neq in E0. destruct (nth_error docs d) as [text|] eqn:Hnth.
    + rewrite (doc_text_nth _ _ _ Hnth) in E0.
      assert (Hin : In (d, occurrences t (tokenize text)) (postings_of t docs)).
      { apply in_postings_of. exists text. repeat split; [exact Hnth | lia]. }
      apply get_postings_of in Hin. congruence.
    + rewrite (doc_text_beyond _ _ Hnth) in E0. contradiction.
Qed.

Lemma lengths_of_get (docs : list string) (d : nat) :
  od_get_default Nat.eqb d 0%nat (lengths_of docs) = length (tokenize (doc_text docs d)).
Proof.
  unfold od_get_default.
  destruct (nth_error docs d) as [text|] eqn:Hnth.
  - rewrite (get_lengths_of _ _ _ Hnth), (doc_text_nth _ _ _ Hnth). reflexivity.
  - rewrite (doc_text_beyond _ _ Hnth).
    destruct (od_get Nat.eqb d (lengths_of docs)) as [n|] eqn:E; [|reflexivity].
    apply (od_get_Some_in _ Nat.eqb_eq) in E. unfold lengths_of in E.
    apply in_map_iff in E. destruct E as ([i text] & Heq & Hin).
    simpl in Heq. injection Heq as -> _. apply in_enumerate in Hin. congruence.
Qed.

(** On the index built from [docs], the statistics behind a contribution
    are those of the texts. *)
Lemma built_contribution (docs : list string) (ix : InvertedIndex) (k b0 : R)
    (t : string) (d : nat) :
  build_index docs = Ok ix ->
  od_mem Nat.eqb d (index_get t (index ix)) = true ->
  contribution {| idx := ix; k1 := k; b := b0 |} t d = bm25_weight docs k b0 t d.
Proof.
  intros Hb Hmem.
  destruct (build_index_eq docs) as (ix' & Hb' & HN & Hl & Ha & Hget & _).
  rewrite Hb in Hb'. injection Hb' as <-.
  unfold contribution, bm25_weight. cbn [idx k1 b]. cbv zeta.
  rewrite Hget in *. rewrite HN, Hl, Ha, postings_of_frequency, lengths_of_get.
  rewrite mean_length_eq, lengths_of_values. fold (mean_tokens docs).
  unfold od_mem in Hmem. unfold od_get_default. rewrite postings_of_get in *.
  cbv zeta in *.
  destruct (occurrences t (tokenize (doc_text docs d)) =? 0)%nat;
    [discriminate | reflexivity].
Qed.

Lemma built_hitting (docs : list string) (ix : InvertedIndex) (k1 b : R)
    (d : nat) (ts : list string) :
  build_index docs = Ok ix ->
  hitting {| idx := ix; k1 := k1; b := b |} d ts = terms_in_doc docs d ts.
Proof.
  intros Hb.
  destruct (build_index_eq docs) as (ix' & Hb' & _ & _ & _ & Hget & _).
  rewrite Hb in Hb'. injection Hb' as <-.
  unfold hitting, terms_in_doc. apply filter_ext. intros t. cbn [idx].
  rewrite Hget. unfold od_mem. rewrite postings_of_get. cbv zeta.
  destruct (occurrences t (tokenize (doc_text docs d)) =? 0)%nat; reflexivity.
Qed.

(** The accumulator of [score] on a built index holds the specification's
    score of every document. *)
Lemma built_accumulate (docs : list string) (ix : InvertedIndex) (k1 b : R)
    (query : string) :
  build_index docs = Ok ix -> params_ok k1 b ->
  exists acc,
    accumulate {| idx := ix; k1 := k1; b := b |} query = Ok acc /\
    NoDup (map fst acc) /\
    forall d, od_get Nat.eqb d acc = bm25_score docs k1 b query d.
Proof.
  intros Hb Hp. pose proof (built_index_ok docs ix Hb) as Hix.
  destruct (accumulate_Ok {| idx := ix; k1 := k1; b := b |} query Hix Hp)
    as (acc & Hacc & Hnd & Hget).
  exists acc. split; [exact Hacc|]. split; [exact Hnd|].
  intros d. rewrite Hget. unfold bm25_score. fold (query_terms query).
  rewrite (built_hitting docs ix k1 b d _ Hb).
  assert (Hmap : map (fun t => contribution {| idx := ix; k1 := k1; b := b |} t d)
                     (terms_in_doc docs d (query_terms query)) =
                 map (fun t => bm25_weight docs k1 b t d)
                     (terms_in_doc docs d (query_terms query))).
  { apply map_ext_in. intros t Hin. apply built_contribution; [exact Hb|].
    rewrite <- (built_hitting docs ix k1 b d _ Hb) in Hin.
    unfold hitting in Hin. apply filter_In in Hin. apply Hin. }
  rewrite Hmap.
  destruct (terms_in_doc docs d (query_terms query)); reflexivity.
Qed.

Lemma built_idf (docs : list string) (ix : InvertedIndex) (k b0 : R) (t : string) :
  build_index docs = Ok ix ->
  idf {| idx := ix; k1 := k; b := b0 |} t =
  Ok (idf_formula (length docs) (doc_frequency t docs)).
Proof.
  intros Hb. pose proof (built_index_ok docs ix Hb t) as (_ & Hlen & _).
  destruct (build_index_eq docs) as (ix' & Hb' & HN & _ & _ & Hget & _).
  rewrite Hb in Hb'. injection Hb' as <-.
  rewrite idf_Ok by exact Hlen. cbn [idx].
  rewrite Hget, HN, postings_of_frequency. reflexivity.
Qed.

Lemma built_avg_dl (docs : list string) (ix : InvertedIndex) :
  build_index docs = Ok ix -> avg_dl ix = mean_tokens docs.
Proof.
  intros Hb. destruct (build_index_eq docs) as (ix' & Hb' & _ & _ & Ha & _).
  rewrite Hb in Hb'. injection Hb' as <-.
  rewrite Ha, mean_length_eq, lengths_of_values. reflexivity.
Qed.

Lemma in_firstn {A : Type} (n : nat) (l : list A) (x : A) :
  In x (firstn n l) -> In x l.
Proof.
  intros H. rewrite <- (firstn_skipn n l). apply in_or_app. left. exact H.
Qed.

Lemma in_slice_to {A : Type} (l : list A) (k : Z) (x : A) :
  In x (slice_to l k) -> In x l.
Proof. unfold slice_to. destruct (k <? 0)%Z; apply in_firstn. Qed.

Lemma in_ranked (top_k : Z) (acc : list (nat * R)) (d : nat) (s : R) :
  NoDup (map fst acc) ->
  In (d, s) (slice_to (sorted_desc acc) top_k) ->
  od_get Nat.eqb d acc = Some s.
Proof.
  intros Hnd Hin. apply in_slice_to in Hin.
  apply (Permutation_in _ (sorted_desc_perm acc)) in Hin.
  apply (od_get_in_nodup _ Nat.eqb_eq); assumption.
Qed.

(** C1: on the index built from any collection (so also one of at least
    one document), for parameters in their domain, every posting [(d, f)]
    of a term has [f] the number of occurrences of the term in document
    [d], whose recorded length is its number of tokens, and the loop body
    adds to the running score of [d] exactly
    [idf * (f * (k1 + 1)) / (f + k1 * (1 - b + b * dl / avg_dl))];
    the accumulated score of a document, and so its score in the result,
    is the sum of these over the distinct query terms that occur in it. *)
Theorem C1_score_accumulates_bm25_terms
    (docs : list string) (k b0 : R) (query : string) (top_k : Z) :
  params_ok k b0 ->
  exists ix acc res,
    build_index docs = Ok ix /\
    N ix = length docs /\ avg_dl ix = mean_tokens docs /\
    accumulate {| idx := ix; k1 := k; b := b0 |} query = Ok acc /\
    score {| idx := ix; k1 := k; b := b0 |} query top_k = Ok res /\
    (forall t d f scores,
        od_get Nat.eqb d (index_get t (index ix)) = Some f ->
        let idf_t := idf_formula (N ix) (doc_frequency t docs) in
        let dl := length (tokenize (doc_text docs d)) in
        f = occurrences t (tokenize (doc_text docs d)) /\
        doc_len ix d = Ok dl /\
        idf {| idx := ix; k1 := k; b := b0 |} t = Ok idf_t /\
        score_posting {| idx := ix; k1 := k; b := b0 |} idf_t scores (d, f) =
        Ok (od_set Nat.eqb d
              (od_get_default Nat.eqb d 0 scores
               + idf_t * (INR f * (k + 1))
                 / (INR f + k * (1 - b0 + b0 * INR dl / avg_dl ix)))
              scores)) /\
    (forall d, od_get Nat.eqb d acc = bm25_score docs k b0 query d) /\
    (forall d s, In (d, s) res -> bm25_score docs k b0 query d = Some s).
Proof.
  intros Hp.
  destruct (build_index_eq docs) as (ix & Hb & HN & Hl & _ & Hget & _).
  destruct (built_accumulate docs ix k b0 query Hb Hp) as (acc & Hacc & Hnd & Hsc).
  exists ix, acc, (slice_to (sorted_desc acc) top_k).
  split; [exact Hb|]. split; [exact HN|]. split; [apply built_avg_dl; exact Hb|].
  split; [exact Hacc|]. split; [apply score_eq; exact Hacc|]. split; [|split].
  - intros t d f scores Hf. cbv zeta.
    pose proof (built_index_ok docs ix Hb t) as ((_ & Hok) & _ & Havg).
    pose proof Hf as Hin. apply (od_get_Some_in _ Nat.eqb_eq) in Hin.
    destruct (Hok d f Hin) as [Hf1 [dl Hdl]].
    assert (Hdl' : dl = length (tokenize (doc_text docs d))).
    { rewrite <- lengths_of_get, <- Hl. unfold od_get_default. rewrite Hdl.
      reflexivity. }
    subst dl. split; [|split; [|split]].
    + rewrite Hget, postings_of_get in Hf. cbv zeta in Hf.
      destruct (occurrences t (tokenize (doc_text docs d)) =? 0)%nat;
        [discriminate | congruence].
    + unfold doc_len. rewrite Hdl. reflexivity.
    + rewrite HN. apply built_idf. exact Hb.
    + rewrite (score_posting_Ok _ _ _ _ _ (length (tokenize (doc_text docs d))));
        try assumption; [reflexivity|].
      apply Havg. intros Hnil. rewrite Hnil in Hin. contradiction.
  - exact Hsc.
  - intros d s Hin. rewrite <- Hsc. apply (in_ranked top_k); assumption.
Qed.

Lemma C1_score_accumulates_bm25_terms_witness :
  params_ok 1.5 0.75 /\
  exists ix acc res,
    build_index ["the cat sat"; "the dog ran"; "cat and dog played"] = Ok ix /\
    N ix = 3%nat /\
    avg_dl ix = mean_tokens ["the cat sat"; "the dog ran"; "cat and dog played"] /\
    accumulate {| idx := ix; k1 := 1.5; b := 0.75 |} "cat dog" = Ok acc /\
    score {| idx := ix; k1 := 1.5; b := 0.75 |} "cat dog" 10 = Ok res /\
    (forall d,
        od_get Nat.eqb d acc =
        bm25_score ["the cat sat"; "the dog ran"; "cat and dog played"]
                   1.5 0.75 "cat dog" d) /\
    (forall d s,
        In (d, s) res ->
        bm25_score ["the cat sat"; "the dog ran"; "cat and dog played"]
                   1.5 0.75 "cat dog" d = Some s).
Proof.
  assert (Hp : params_ok 1.5 0.75) by (unfold params_ok; lra).
  split; [exact Hp|].
  destruct (C1_score_accumulates_bm25_terms
              ["the cat sat"; "the dog ran"; "cat and dog played"]
              1.5 0.75 "cat dog" 10 Hp)
    as (ix & acc & res & Hb & HN & Ha & Hacc & Hres & _ & Hsc & Hin).
  exists ix, acc, res. repeat split; assumption.
Defined.

Lemma od_get_all_None {V : Type} (d : list (nat * V)) :
  (forall k, od_get Nat.eqb k d = None) -> d = [].
Proof.
  destruct d as [|[k v] d]; [reflexivity|]. intros H. specialize (H k).
  simpl in H. rewrite Nat.eqb_refl in H. discriminate.
Qed.

Lemma hitting_no_postings (self : BM25Ranker) (d : nat) (ts : list string) :
  (forall t, index_get t (index (idx self)) = []) -> hitting self d ts = [].
Proof.
  intros Hnone. unfold hitting. induction ts as [|t ts IH]; [reflexivity|].
  cbn [filter]. rewrite Hnone. exact IH.
Qed.

(** C2: on a built index, for parameters in their domain, [score]
    returns: no division in it raises.  A term has postings only when
    [avg_dl] is not zero, so the division by [avg_dl] is evaluated with a
    non-zero divisor only; when there is no document, or [avg_dl] is 0, no
    term has a posting, nothing is added to any score and the result is
    empty. *)
Theorem C2_score_never_divides_by_zero
    (docs : list string) (k b0 : R) (query : string) (top_k : Z) :
  params_ok k b0 ->
  exists ix res,
    build_index docs = Ok ix /\
    score {| idx := ix; k1 := k; b := b0 |} query top_k = Ok res /\
    (forall t, index_get t (index ix) <> [] -> N ix <> 0%nat /\ avg_dl ix <> 0) /\
    (forall t d f,
        od_get Nat.eqb d (index_get t (index ix)) = Some f ->
        exists dl, doc_len ix d = Ok dl /\
                   truediv (b0 * INR dl) (avg_dl ix) = Ok (b0 * INR dl / avg_dl ix)) /\
    (N ix = 0%nat \/ avg_dl ix = 0 ->
     (forall t, index_get t (index ix) = []) /\
     accumulate {| idx := ix; k1 := k; b := b0 |} query = Ok [] /\ res = []).
Proof.
  intros Hp.
  destruct (build_index_eq docs) as (ix & Hb & HN & _ & _ & Hget & _).
  pose proof (built_index_ok docs ix Hb) as Hix.
  destruct (accumulate_Ok {| idx := ix; k1 := k; b := b0 |} query Hix Hp)
    as (acc & Hacc & _ & Hsc).
  assert (Hnz : forall t, index_get t (index ix) <> [] ->
                          N ix <> 0%nat /\ avg_dl ix <> 0).
  { intros t Hne. destruct (Hix t) as (_ & Hlen & Havg). split.
    - destruct (index_get t (index ix)); [contradiction | simpl in Hlen; lia].
    - apply Havg in Hne. lra. }
  exists ix, (slice_to (sorted_desc acc) top_k).
  split; [exact Hb|]. split; [apply score_eq; exact Hacc|].
  split; [exact Hnz|]. split.
  - intros t d f Hf. destruct (Hix t) as ((_ & Hok) & _ & _).
    pose proof Hf as Hin. apply (od_get_Some_in _ Nat.eqb_eq) in Hin.
    destruct (Hok d f Hin) as [_ [dl Hdl]]. exists dl.
    split; [unfold doc_len; rewrite Hdl; reflexivity|].
    apply truediv_Ok. apply (Hnz t). intros Hnil. rewrite Hnil in Hin.
    contradiction.
  - intros Hdeg.
    assert (Hnone : forall t, index_get t (index ix) = []).
    { intros t. destruct (index_get t (index ix)) as [|p0 p] eqn:E; [reflexivity|].
      destruct (Hnz t) as [H1 H2]; [rewrite E; discriminate|].
      destruct Hdeg; contradiction. }
    assert (Hnil : acc = []).
    { apply od_get_all_None. intros d. rewrite Hsc.
      rewrite hitting_no_postings by exact Hnone. reflexivity. }
    subst acc. split; [exact Hnone|]. split; [exact Hacc|].
    unfold slice_to. cbn [sorted_desc].
    destruct (top_k <? 0)%Z; apply firstn_nil.
Qed.

Lemma C2_score_never_divides_by_zero_witness :
  params_ok 1.5 0.75 /\
  exists ix res,
    build_index [""; ""] = Ok ix /\
    score {| idx := ix; k1 := 1.5; b := 0.75 |} "cat" 10 = Ok res.
Proof.
  assert (Hp : params_ok 1.5 0.75) by (unfold params_ok; lra).
  split; [exact Hp|].
  destruct (C2_score_never_divides_by_zero [""; ""] 1.5 0.75 "cat" 10 Hp)
    as (ix & res & Hb & Hres & _).
  exists ix, res. split; assumption.
Defined.

(** ** Scores are positive *)

Lemma bm25_term_pos (idf_t : R) (f dl : nat) (avg k b0 : R) :
  0 < idf_t -> (1 <= f)%nat -> params_ok k b0 -> 0 < avg ->
  0 < bm25_term idf_t f dl avg k b0.
Proof.
  intros Hidf Hf Hp Havg. pose proof (bm25_denom_pos f dl avg k b0 Hf Hp Havg) as Hd.
  destruct Hp as [Hk _]. apply le_INR in Hf. simpl in Hf.
  unfold bm25_term. apply Rdiv_lt_0_compat; [|exact Hd].
  apply Rmult_lt_0_compat; [exact Hidf|]. apply Rmult_lt_0_compat; lra.
Qed.

Lemma contribution_pos (self : BM25Ranker) (t : string) (d : nat) :
  index_ok (idx self) -> params_ok (k1 self) (b self) ->
  od_mem Nat.eqb d (index_get t (index (idx self))) = true ->
  0 < contribution self t d.
Proof.
  intros Hix Hp Hmem. destruct (Hix t) as ((_ & Hok) & Hlen & Havg).
  apply od_mem_true in Hmem. destruct Hmem as [f Hf].
  unfold contribution. cbv zeta. unfold od_get_default at 1. rewrite Hf.
  apply (od_get_Some_in _ Nat.eqb_eq) in Hf.
  apply bm25_term_pos; [apply idf_formula_pos; exact Hlen | | exact Hp |].
  - apply (Hok d f Hf).
  - apply Havg. intros Hnil. rewrite Hnil in Hf. contradiction.
Qed.

Lemma fold_Rplus_pos (cs : list R) (init : R) :
  Forall (fun c => 0 < c) cs -> 0 <= init -> cs <> [] ->
  0 < fold_left Rplus cs init.
Proof.
  revert init. induction cs as [|c cs IH]; intros init Hall Hinit Hne;
    [contradiction|].
  inversion Hall as [|? ? Hc Hall']; subst. cbn [fold_left].
  destruct cs as [|c' cs'].
  - simpl. lra.
  - apply IH; [exact Hall' | lra | discriminate].
Qed.

(** Every entry of the accumulator is positive. *)
Lemma accumulate_pos (self : BM25Ranker) (query : string) :
  index_ok (idx self) -> params_ok (k1 self) (b self) ->
  exists acc,
    accumulate self query = Ok acc /\ NoDup (map fst acc) /\
    Forall (fun p => 0 < snd p) acc.
Proof.
  intros Hix Hp.
  destruct (accumulate_Ok self query Hix Hp) as (acc & Hacc & Hnd & Hget).
  exists acc. split; [exact Hacc|]. split; [exact Hnd|].
  apply Forall_forall. intros [d s] Hin.
  apply (od_get_in_nodup _ Nat.eqb_eq _ _ _ Hnd) in Hin.
  rewrite Hget in Hin. cbn [snd].
  set (ts := hitting self d (map fst (Counter (tokenize query)))) in *.
  assert (Hall : Forall (fun c => 0 < c) (map (fun t => contribution self t d) ts)).
  { apply Forall_forall. intros c Hc. apply in_map_iff in Hc.
    destruct Hc as (t & <- & Ht). unfold ts, hitting in Ht.
    apply filter_In in Ht. apply contribution_pos; [exact Hix | exact Hp | apply Ht]. }
  unfold acc_value in Hin.
  destruct (map (fun t => contribution self t d) ts) as [|c cs] eqn:E;
    [discriminate|].
  injection Hin as <-.
  apply (fold_Rplus_pos (c :: cs)); [exact Hall | lra | discriminate].
Qed.

Lemma default_params_ok : params_ok 1.5 0.75.
Proof. unfold params_ok. lra. Qed.

(** ** The hits of a query on a built index *)

Lemma firstn_sorted {A : Type} (R : A -> A -> Prop) (n : nat) (l : list A) :
  StronglySorted R l -> StronglySorted R (firstn n l).
Proof.
  revert n. induction l as [|x l IH]; intros n Hs.
  - rewrite firstn_nil. constructor.
  - destruct n as [|n]; [constructor|]. cbn [firstn].
    inversion Hs as [|? ? Hs' Hall]; subst. constructor; [apply IH; exact Hs'|].
    apply Forall_forall. intros y Hy. apply in_firstn in Hy.
    rewrite Forall_forall in Hall. apply Hall. exact Hy.
Qed.

Lemma slice_to_sorted {A : Type} (R : A -> A -> Prop) (k : Z) (l : list A) :
  StronglySorted R l -> StronglySorted R (slice_to l k).
Proof. unfold slice_to. destruct (k <? 0)%Z; apply firstn_sorted. Qed.

Lemma bm25_score_doc (docs : list string) (k b0 : R) (query : string) (d : nat) (s : R) :
  bm25_score docs k b0 query d = Some s -> (d < length docs)%nat.
Proof.
  unfold bm25_score, terms_in_doc. intros H.
  destruct (nth_error docs d) as [text|] eqn:Hnth.
  - apply nth_error_Some. congruence.
  - rewrite (doc_text_beyond _ _ Hnth) in H. exfalso.
    induction (query_terms query) as [|t ts IH]; simpl in H;
      [discriminate | auto].
Qed.

(** [score] on a built index returns hits that are documents of the
    collection, with positive scores, by descending score. *)
Lemma built_score (docs : list string) (ix : InvertedIndex) (k b0 : R)
    (query : string) (top_k : Z) :
  build_index docs = Ok ix -> params_ok k b0 ->
  exists hits,
    score {| idx := ix; k1 := k; b := b0 |} query top_k = Ok hits /\
    Forall (fun h => (fst h < length docs)%nat /\ 0 < snd h) hits /\
    StronglySorted score_ge hits.
Proof.
  intros Hb Hp. pose proof (built_index_ok docs ix Hb) as Hix.
  destruct (accumulate_pos {| idx := ix; k1 := k; b := b0 |} query Hix Hp)
    as (acc & Hacc & Hnd & Hpos).
  destruct (built_accumulate docs ix k b0 query Hb Hp) as (acc' & Hacc' & _ & Hsc).
  rewrite Hacc in Hacc'. injection Hacc' as <-.
  exists (slice_to (sorted_desc acc) top_k).
  split; [apply score_eq; exact Hacc|]. split.
  - apply Forall_forall. intros [d s] Hin. cbn [fst snd].
    pose proof (in_ranked top_k acc d s Hnd Hin) as Hget.
    split.
    + rewrite Hsc in Hget. apply (bm25_score_doc _ _ _ _ _ _ Hget).
    + apply (od_get_Some_in _ Nat.eqb_eq) in Hget.
      rewrite Forall_forall in Hpos. apply (Hpos (d, s) Hget).
  - apply slice_to_sorted, sorted_desc_sorted.
Qed.

(** ** The pandas model *)

Lemma map_result_Ok {A B : Type} (f : A -> result B) (g : A -> B) (l : list A) :
  (forall x, In x l -> f x = Ok (g x)) -> map_result f l = Ok (map g l).
Proof.
  induction l as [|x l IH]; intros H; [reflexivity|].
  cbn [map_result map]. rewrite (H x (or_introl eq_refl)). simpl bind.
  rewrite IH by (intros y Hy; apply H; right; exact Hy). reflexivity.
Qed.

Lemma add_column_in (cols : list string) (c k : string) :
  In k (add_column cols c) <-> In k cols \/ k = c.
Proof.
  unfold add_column. destruct (existsb (String.eqb c) cols) eqn:E.
  - split; [auto|]. intros [H|H]; [exact H|]. subst k.
    apply existsb_exists in E. destruct E as (x & Hx & Heq).
    apply String.eqb_eq in Heq. subst x. exact Hx.
  - rewrite in_app_iff. simpl. intuition congruence.
Qed.

Lemma add_columns_in (ks cols : list string) (k : string) :
  In k (fold_left add_column ks cols) <-> In k cols \/ In k ks.
Proof.
  revert cols. induction ks as [|c ks IH]; intros cols; cbn [fold_left].
  - simpl. intuition.
  - rewrite IH, add_column_in. simpl. intuition congruence.
Qed.

Lemma record_columns_in (records : list (list (string * cell)))
    (cols : list string) (k : string) :
  In k (fold_left (fun cols r => fold_left add_column (map fst r) cols) records cols)
  <-> In k cols \/ exists r, In r records /\ In k (map fst r).
Proof.
  revert cols. induction records as [|r records IH]; intros cols; cbn [fold_left].
  - simpl. split; [auto | intros [H|(r & [] & _)]; exact H].
  - rewrite IH, add_columns_in. split.
    + intros [[H|H]|(r' & Hr' & Hk)]; [left; exact H | right | right].
      * exists r. split; [left; reflexivity | exact H].
      * exists r'. split; [right; exact Hr' | exact Hk].
    + intros [H|(r' & [Hr'|Hr'] & Hk)];
        [left; left; exact H | subst r'; left; right; exact Hk |].
      right. exists r'. split; assumption.
Qed.

Lemma od_get_tabulate {V : Type} (g : string -> V) (cols : list string) (c : string) :
  od_get String.eqb c (map (fun c => (c, g c)) cols) =
  if existsb (String.eqb c) cols then Some (g c) else None.
Proof.
  induction cols as [|c' cols IH]; [reflexivity|].
  cbn [map od_get existsb]. destruct (String.eqb c c') eqn:E.
  - apply String.eqb_eq in E. subst c'. reflexivity.
  - exact IH.
Qed.

(** A key that some record has is a column of the frame, and its cells
    are the records' values, NaN where a record lacks the key. *)
Lemma DataFrame_of_records_get (records : list (list (string * cell)))
    (r : list (string * cell)) (c : string) :
  In r records -> In c (map fst r) ->
  od_get String.eqb c (DataFrame_of_records records) =
  Some (map (od_get_default String.eqb c (CFloat NaN)) records).
Proof.
  intros Hr Hc. unfold DataFrame_of_records. cbv zeta.
  rewrite (od_get_tabulate
             (fun c => map (od_get_default String.eqb c (CFloat NaN)) records)).
  set (cols := fold_left _ records []).
  assert (Hin : In c cols).
  { apply record_columns_in. right. exists r. split; assumption. }
  destruct (existsb (String.eqb c) cols) eqn:E; [reflexivity|].
  exfalso. apply Bool.not_true_iff_false in E. apply E.
  apply existsb_exists. exists c. split; [exact Hin | apply String.eqb_refl].
Qed.

Lemma DataFrame_of_records_nil : DataFrame_of_records [] = [].
Proof. reflexivity. Qed.

Lemma DataFrame_of_records_empty (records : list (list (string * cell)))
    (r : list (string * cell)) (c : string) :
  In r records -> In c (map fst r) ->
  df_empty (DataFrame_of_records records) = false.
Proof.
  intros Hr Hc. unfold DataFrame_of_records. cbv zeta.
  set (cols := fold_left _ records []).
  assert (Hin : In c cols).
  { apply record_columns_in. right. exists r. split; assumption. }
  destruct cols as [|c0 cols]; [contradiction|].
  cbn [map df_empty nrows]. rewrite length_map.
  destruct records; [contradiction | reflexivity].
Qed.

Lemma map_result_length {A B : Type} (f : A -> result B) (l : list A) (l' : list B) :
  map_result f l = Ok l' -> length l' = length l.
Proof.
  revert l'. induction l as [|x l IH]; intros l' H; cbn [map_result] in H.
  - injection H as <-. reflexivity.
  - apply bind_Ok_inv in H. destruct H as (y & _ & H).
    apply bind_Ok_inv in H. destruct H as (ys & Hys & H).
    injection H as <-. simpl. f_equal. apply IH. exact Hys.
Qed.

Lemma df_wf_getitem (df : DataFrame) (c : string) (col : list cell) :
  df_wf df = true -> df_getitem df c = Ok col -> length col = nrows df.
Proof.
  intros Hwf Hget. unfold df_getitem in Hget.
  destruct (od_get String.eqb c df) as [cells|] eqn:E; [|discriminate].
  injection Hget as <-. apply (od_get_Some_in _ String.eqb_eq) in E.
  unfold df_wf in Hwf. rewrite forallb_forall in Hwf.
  apply Hwf in E. apply Nat.eqb_eq in E. exact E.
Qed.

Lemma SearchEngine_init_inv (df : DataFrame) (text_col : string) (eng : SearchEngine) :
  SearchEngine_init df text_col = Ok eng ->
  exists col docs,
    df_getitem df text_col = Ok col /\
    map_result as_str (map fillna_empty col) = Ok docs /\
    length docs = length col /\
    build_index docs = Ok (se_index eng) /\
    se_df eng = df /\
    se_ranker eng = BM25Ranker_init (se_index eng).
Proof.
  unfold SearchEngine_init. intros H.
  apply bind_Ok_inv in H. destruct H as (col & Hcol & H). cbv zeta in H.
  apply bind_Ok_inv in H. destruct H as (docs & Hdocs & H).
  apply bind_Ok_inv in H. destruct H as (ix & Hix & H).
  injection H as <-. exists col, docs. cbn [se_index se_df se_ranker].
  repeat split; try assumption.
  rewrite (map_result_length _ _ _ Hdocs). apply length_map.
Qed.

Lemma row_of_score (df : DataFrame) (hit : nat * R) :
  od_get_default String.eqb "score" (CFloat NaN) (row_of df hit)
  = CFloat (Fin (snd hit)).
Proof.
  unfold row_of, od_get_default. rewrite (od_get_set_same _ String.eqb_eq).
  reflexivity.
Qed.

Lemma row_of_has_score (df : DataFrame) (hit : nat * R) :
  In "score" (map fst (row_of df hit)).
Proof.
  change "score" with (fst ("score", CFloat (Fin (snd hit)))).
  apply in_map. apply (od_get_Some_in _ String.eqb_eq).
  unfold row_of. apply (od_get_set_same _ String.eqb_eq).
Qed.

Lemma result_rows_Ok (df : DataFrame) (n : nat) (hits : list (nat * R)) :
  Forall (fun h => (fst h < n)%nat) hits -> (n <= nrows df)%nat ->
  map_result (result_row df) hits = Ok (map (row_of df) hits).
Proof.
  intros Hall Hn. apply map_result_Ok. intros h Hin.
  rewrite Forall_forall in Hall. apply Hall in Hin.
  unfold result_row, iloc_to_dict.
  destruct (fst h <? nrows df)%nat eqn:E; [reflexivity|].
  apply Nat.ltb_ge in E. lia.
Qed.

Lemma series_max_top (m : R) (l : list R) :
  Forall (fun s => s <= m) l -> fold_left xmax (map Fin l) (Fin m) = Fin m.
Proof.
  induction l as [|s l IH]; intros Hall; [reflexivity|].
  inversion Hall as [|? ? Hs Hall']; subst. cbn [map fold_left xmax].
  rewrite Rmax_left by exact Hs. apply IH. exact Hall'.
Qed.

Lemma series_max_sorted (hits : list (nat * R)) :
  StronglySorted score_ge hits -> hits <> [] ->
  series_max (map (fun h => Fin (snd h)) hits) = Fin (top_score hits).
Proof.
  intros Hs Hne. destruct hits as [|h hits]; [contradiction|].
  inversion Hs as [|? ? _ Hall]; subst.
  unfold series_max. cbn [map fold_left xmax top_score].
  rewrite <- (map_map snd Fin). apply series_max_top.
  apply Forall_forall. intros s Hin. apply in_map_iff in Hin.
  destruct Hin as (h' & <- & Hh'). rewrite Forall_forall in Hall.
  apply (Hall h' Hh').
Qed.

Lemma pct_Fin (s m : R) :
  m <> 0 -> xmul (xdiv (Fin s) (Fin m)) (Fin 100) = Fin (s / m * 100).
Proof.
  intros Hm. cbn [xdiv]. destruct (Req_dec_T m 0); [contradiction | reflexivity].
Qed.

Lemma score_column (df : DataFrame) (hits : list (nat * R)) :
  map (od_get_default String.eqb "score" (CFloat NaN)) (map (row_of df) hits)
  = map (fun h => CFloat (Fin (snd h))) hits.
Proof. rewrite map_map. apply map_ext. intros h. apply row_of_score. Qed.

Lemma score_column_floats (hits : list (nat * R)) :
  map_result as_float (map (fun h => CFloat (Fin (snd h))) hits)
  = Ok (map (fun h => Fin (snd h)) hits).
Proof.
  induction hits as [|h hits IH]; [reflexivity|].
  cbn [map map_result as_float]. simpl bind. rewrite IH. reflexivity.
Qed.

Lemma search_frame_eq (df : DataFrame) (hits : list (nat * R)) :
  hits <> [] ->
  search_frame df hits =
  od_set String.eqb "pct_relevance"
    (map (fun h => CFloat (Fin (snd h / top_score hits * 100))) hits)
    (DataFrame_of_records (map (row_of df) hits)).
Proof. intros Hne. destruct hits; [contradiction | reflexivity]. Qed.

Lemma search_eq (eng : SearchEngine) (n : nat) (hits : list (nat * R))
    (query : string) (top_k : Z) :
  score (se_ranker eng) query top_k = Ok hits ->
  Forall (fun h => (fst h < n)%nat /\ 0 < snd h) hits ->
  (n <= nrows (se_df eng))%nat ->
  StronglySorted score_ge hits ->
  search eng query top_k = Ok (search_frame (se_df eng) hits).
Proof.
  intros Hscore Hall Hn Hs. unfold search. rewrite Hscore, bind_Ok.
  rewrite (result_rows_Ok _ n) by
    (try exact Hn; apply Forall_impl with (2 := Hall); intros h Hh; apply Hh).
  rewrite bind_Ok. cbv zeta.
  destruct hits as [|h hits']; [reflexivity|].
  remember (h :: hits') as hits eqn:E.
  assert (Hr : In (row_of (se_df eng) h) (map (row_of (se_df eng)) hits)).
  { rewrite E. left. reflexivity. }
  pose proof (row_of_has_score (se_df eng) h) as Hc.
  rewrite (DataFrame_of_records_empty _ _ _ Hr Hc).
  unfold od_mem, df_getitem.
  rewrite (DataFrame_of_records_get _ _ _ Hr Hc).
  cbn [negb andb]. rewrite bind_Ok.
  rewrite score_column, score_column_floats, bind_Ok.
  rewrite series_max_sorted by (try exact Hs; rewrite E; discriminate).
  rewrite search_frame_eq by (rewrite E; discriminate).
  rewrite map_map.
  rewrite (map_ext
             (fun x => CFloat (xmul (xdiv (Fin (snd x)) (Fin (top_score hits))) (Fin 100)))
             (fun x => CFloat (Fin (snd x / top_score hits * 100)))); [reflexivity|].
  intros h'. rewrite pct_Fin; [reflexivity|].
  rewrite E in Hall. inversion Hall as [|? ? [_ Hpos] _]; subst.
  unfold top_score. lra.
Qed.

Lemma search_frame_score (df : DataFrame) (hits : list (nat * R)) :
  hits <> [] ->
  df_getitem (search_frame df hits) "score"
  = Ok (map (fun h => CFloat (Fin (snd h))) hits).
Proof.
  intros Hne. rewrite search_frame_eq by exact Hne. unfold df_getitem.
  rewrite (od_get_set_other _ String.eqb_eq) by discriminate.
  destruct hits as [|h hits']; [contradiction|].
  rewrite (DataFrame_of_records_get _ (row_of df h) "score");
    [| left; reflexivity | apply row_of_has_score].
  rewrite score_column. reflexivity.
Qed.

Lemma search_frame_pct (df : DataFrame) (hits : list (nat * R)) :
  hits <> [] ->
  df_getitem (search_frame df hits) "pct_relevance"
  = Ok (map (fun h => CFloat (Fin (snd h / top_score hits * 100))) hits).
Proof.
  intros Hne. rewrite search_frame_eq by exact Hne. unfold df_getitem.
  rewrite (od_get_set_same _ String.eqb_eq). reflexivity.
Qed.

(** The hits of a search on an engine made from a well-formed frame. *)
Lemma engine_hits (df : DataFrame) (text_col : string) (eng : SearchEngine)
    (query : string) (top_k : Z) :
  df_wf df = true -> SearchEngine_init df text_col = Ok eng ->
  exists hits,
    score (se_ranker eng) query top_k = Ok hits /\
    Forall (fun h => 0 < snd h) hits /\
    StronglySorted score_ge hits /\
    search eng query top_k = Ok (search_frame df hits).
Proof.
  intros Hwf Hinit.
  destruct (SearchEngine_init_inv df text_col eng Hinit)
    as (col & docs & Hcol & _ & Hlen & Hb & Hdf & Hrk).
  destruct (built_score docs (se_index eng) 1.5 0.75 query top_k Hb default_params_ok)
    as (hits & Hscore & Hall & Hs).
  fold (BM25Ranker_init (se_index eng)) in Hscore. rewrite <- Hrk in Hscore.
  exists hits. split; [exact Hscore|]. split; [|split; [exact Hs|]].
  - apply Forall_impl with (2 := Hall). intros h Hh. apply Hh.
  - rewrite <- Hdf. apply (search_eq eng (length docs)); try assumption.
    rewrite Hdf, Hlen, (df_wf_getitem df text_col col Hwf Hcol). lia.
Qed.

(** ** Claims about [SearchEngine] *)

Lemma texts_Ok (col : list cell) :
  forallb is_text col = true ->
  map_result as_str (map fillna_empty col) = Ok (map text_of col).
Proof.
  induction col as [|c col IH]; intros H; [reflexivity|].
  cbn [forallb] in H. apply andb_true_iff in H. destruct H as [Hc Hcol].
  cbn [map map_result]. rewrite (IH Hcol). unfold is_text in Hc. unfold text_of.
  destruct (fillna_empty c); try discriminate. reflexivity.
Qed.

(** Construction returns on a frame that has the text column. *)
Lemma SearchEngine_init_Ok (df : DataFrame) (text_col : string) :
  has_text_column df text_col = true ->
  exists eng,
    SearchEngine_init df text_col = Ok eng /\
    se_df eng = df /\
    build_index (map text_of (column df text_col)) = Ok (se_index eng) /\
    se_ranker eng = BM25Ranker_init (se_index eng).
Proof.
  unfold has_text_column, column, od_get_default. intros H.
  destruct (od_get String.eqb text_col df) as [col|] eqn:E; [|discriminate].
  destruct (build_index_eq (map text_of col)) as (ix & Hb & _).
  exists {| se_df := df; se_index := ix; se_ranker := BM25Ranker_init ix |}.
  unfold SearchEngine_init, df_getitem. rewrite E, bind_Ok. cbv zeta.
  rewrite (texts_Ok col H), bind_Ok. unfold build_index in Hb. rewrite Hb.
  repeat split; exact Hb.
Qed.

Lemma top_score_max (hits : list (nat * R)) :
  StronglySorted score_ge hits -> Forall (fun h => snd h <= top_score hits) hits.
Proof.
  intros Hs. destruct hits as [|h hits]; [constructor|].
  inversion Hs as [|? ? _ Hall]; subst. cbn [top_score].
  constructor; [lra | exact Hall].
Qed.

Lemma top_score_pos (hits : list (nat * R)) :
  Forall (fun h => 0 < snd h) hits -> hits <> [] -> 0 < top_score hits.
Proof.
  intros Hall Hne. destruct hits as [|h hits]; [contradiction|].
  inversion Hall; subst. assumption.
Qed.

Lemma pct_range (s m : R) : 0 < s -> s <= m -> 0 < s / m * 100 <= 100.
Proof.
  intros Hs Hm. assert (Hm0 : 0 < m) by lra.
  assert (H1 : 0 < s / m) by (apply Rdiv_lt_0_compat; assumption).
  assert (H2 : s / m <= 1).
  { apply Rmult_le_reg_r with m; [exact Hm0|]. unfold Rdiv.
    rewrite Rmult_assoc, Rinv_l by lra. lra. }
  lra.
Qed.

(** C10: for parameters in their domain, every pair [score] returns on a
    built index has a positive score.  So on an engine made from a
    well-formed frame with the text column (the ranker has the default
    parameters), a non-empty result has a positive maximum score, the
    division by it is a division by a non-zero number, and every
    [pct_relevance] is a number in (0, 100]. *)
Theorem C10_scores_and_pct_positive
    (docs : list string) (k b0 : R) (query : string) (top_k : Z)
    (df : DataFrame) (text_col : string) :
  params_ok k b0 -> df_wf df = true -> has_text_column df text_col = true ->
  (exists ix hits,
      build_index docs = Ok ix /\
      score {| idx := ix; k1 := k; b := b0 |} query top_k = Ok hits /\
      Forall (fun h => 0 < snd h) hits) /\
  (exists eng hits res,
      SearchEngine_init df text_col = Ok eng /\
      score (se_ranker eng) query top_k = Ok hits /\
      search eng query top_k = Ok res /\
      Forall (fun h => 0 < snd h) hits /\
      (hits <> [] ->
       0 < top_score hits /\
       In (top_score hits) (map snd hits) /\
       Forall (fun h => snd h <= top_score hits) hits /\
       df_getitem res "score" = Ok (map (fun h => CFloat (Fin (snd h))) hits) /\
       exists pcts,
         df_getitem res "pct_relevance" = Ok (map (fun p => CFloat (Fin p)) pcts) /\
         length pcts = length hits /\
         Forall (fun p => 0 < p <= 100) pcts)).
Proof.
  intros Hp Hwf Htext. split.
  - destruct (build_index_eq docs) as (ix & Hb & _).
    destruct (built_score docs ix k b0 query top_k Hb Hp) as (hits & Hs & Hall & _).
    exists ix, hits. split; [exact Hb|]. split; [exact Hs|].
    apply Forall_impl with (2 := Hall). intros h Hh. apply Hh.
  - destruct (SearchEngine_init_Ok df text_col Htext) as (eng & Hinit & _).
    destruct (engine_hits df text_col eng query top_k Hwf Hinit)
      as (hits & Hscore & Hpos & Hs & Hsearch).
    exists eng, hits, (search_frame df hits).
    split; [exact Hinit|]. split; [exact Hscore|]. split; [exact Hsearch|].
    split; [exact Hpos|]. intros Hne.
    pose proof (top_score_max hits Hs) as Hmax.
    split; [apply top_score_pos; assumption|]. split; [|split; [exact Hmax|split]].
    + destruct hits as [|h hits']; [contradiction | left; reflexivity].
    + apply search_frame_score. exact Hne.
    + exists (map (fun h => snd h / top_score hits * 100) hits).
      split; [rewrite map_map; apply search_frame_pct; exact Hne|].
      split; [apply length_map|].
      apply Forall_forall. intros p Hin. apply in_map_iff in Hin.
      destruct Hin as (h & <- & Hh). rewrite Forall_forall in Hpos, Hmax.
      apply pct_range; [apply (Hpos h Hh) | apply (Hmax h Hh)].
Qed.

Lemma C10_scores_and_pct_positive_witness :
  params_ok 1.5 0.75 /\ df_wf sample_frame = true /\
  has_text_column sample_frame "Item Description" = true /\
  (exists ix hits,
      build_index ["the cat sat"; "the dog ran"; "cat and dog played"] = Ok ix /\
      score {| idx := ix; k1 := 1.5; b := 0.75 |} "cat" 10 = Ok hits /\
      Forall (fun h => 0 < snd h) hits) /\
  (exists eng hits res,
      SearchEngine_init sample_frame "Item Description" = Ok eng /\
      score (se_ranker eng) "cat" 10 = Ok hits /\
      search eng "cat" 10 = Ok res /\
      Forall (fun h => 0 < snd h) hits).
Proof.
  assert (Hp : params_ok 1.5 0.75) by (unfold params_ok; lra).
  assert (Hwf : df_wf sample_frame = true) by reflexivity.
  assert (Ht : has_text_column sample_frame "Item Description" = true) by reflexivity.
  split; [exact Hp|]. split; [exact Hwf|]. split; [exact Ht|].
  destruct (C10_scores_and_pct_positive
              ["the cat sat"; "the dog ran"; "cat and dog played"]
              1.5 0.75 "cat" 10 sample_frame "Item Description" Hp Hwf Ht)
    as [HA (eng & hits & res & Hinit & Hscore & Hsearch & Hpos & _)].
  split; [exact HA|]. exists eng, hits, res. repeat split; assumption.
Defined.

(** C3: on an engine made from a well-formed frame with the text column,
    [search] returns.  For a non-empty result, the [pct_relevance] of each
    row is the number [score / max_score * 100], [max_score] being the
    largest score of the result; it is never 0, so the quotient is always
    a number, and the first row, which has the largest score, gets 100.
    An empty result is a frame without columns, so without a
    [pct_relevance] column. *)
Theorem C3_pct_relevance_of_results
    (df : DataFrame) (text_col query : string) (top_k : Z) :
  df_wf df = true -> has_text_column df text_col = true ->
  exists eng hits res,
    SearchEngine_init df text_col = Ok eng /\
    score (se_ranker eng) query top_k = Ok hits /\
    search eng query top_k = Ok res /\
    (hits = [] ->
     res = [] /\ od_mem String.eqb "pct_relevance" res = false) /\
    (hits <> [] ->
     let max_score := top_score hits in
     In max_score (map snd hits) /\
     Forall (fun h => snd h <= max_score) hits /\
     max_score <> 0 /\
     df_getitem res "score" = Ok (map (fun h => CFloat (Fin (snd h))) hits) /\
     df_getitem res "pct_relevance"
       = Ok (map (fun h => CFloat (Fin (snd h / max_score * 100))) hits) /\
     (forall h, hd_error hits = Some h -> snd h / max_score * 100 = 100)).
Proof.
  intros Hwf Htext.
  destruct (SearchEngine_init_Ok df text_col Htext) as (eng & Hinit & _).
  destruct (engine_hits df text_col eng query top_k Hwf Hinit)
    as (hits & Hscore & Hpos & Hs & Hsearch).
  exists eng, hits, (search_frame df hits).
  split; [exact Hinit|]. split; [exact Hscore|]. split; [exact Hsearch|]. split.
  - intros ->. split; reflexivity.
  - intros Hne. cbv zeta.
    pose proof (top_score_pos hits Hpos Hne) as Htop.
    split; [destruct hits as [|h hits']; [contradiction | left; reflexivity]|].
    split; [apply top_score_max; exact Hs|]. split; [lra|].
    split; [apply search_frame_score; exact Hne|].
    split; [apply search_frame_pct; exact Hne|].
    intros h Hh. destruct hits as [|h0 hits']; [discriminate|].
    injection Hh as ->. cbn [top_score] in *. field. lra.
Qed.

Lemma C3_pct_relevance_of_results_witness :
  df_wf sample_frame = true /\
  has_text_column sample_frame "Item Description" = true /\
  exists eng hits res,
    SearchEngine_init sample_frame "Item Description" = Ok eng /\
    score (se_ranker eng) "cat" 10 = Ok hits /\
    search eng "cat" 10 = Ok res /\
    (hits = [] -> res = [] /\ od_mem String.eqb "pct_relevance" res = false) /\
    (hits <> [] ->
     df_getitem res "pct_relevance"
     = Ok (map (fun h => CFloat (Fin (snd h / top_score hits * 100))) hits)).
Proof.
  assert (Hwf : df_wf sample_frame = true) by reflexivity.
  assert (Ht : has_text_column sample_frame "Item Description" = true) by reflexivity.
  split; [exact Hwf|]. split; [exact Ht|].
  destruct (C3_pct_relevance_of_results sample_frame "Item Description" "cat" 10 Hwf Ht)
    as (eng & hits & res & Hinit & Hscore & Hsearch & Hnil & Hcons).
  exists eng, hits, res. repeat split; try assumption; try (apply Hnil; assumption).
  intros Hne. apply (Hcons Hne).
Defined.

(** C9, at the frame that [pd.DataFrame([])] is, the one [scrape_all]
    returns when there is no feed: construction raises [KeyError]. *)
Theorem C9_init_raises_on_frame_without_columns :
  SearchEngine_init (DataFrame_of_records []) "Item Description" = Err KeyError.
Proof. reflexivity. Qed.

(** ** Monotonicity in the number of occurrences *)

(** The BM25 term grows with the number of occurrences, the rest fixed. *)
Lemma bm25_term_monotone (idf_t : R) (f f' dl : nat) (avg k b0 : R) :
  0 <= idf_t -> params_ok k b0 -> 0 < avg -> (1 <= f <= f')%nat ->
  bm25_term idf_t f dl avg k b0 <= bm25_term idf_t f' dl avg k b0.
Proof.
  intros Hidf Hp Havg [Hf Hff].
  assert (Hf' : (1 <= f')%nat) by lia.
  pose proof (bm25_denom_pos f dl avg k b0 Hf Hp Havg) as Hd.
  pose proof (bm25_denom_pos f' dl avg k b0 Hf' Hp Havg) as Hd'.
  unfold bm25_term.
  assert (Hc : 0 <= k * (1 - b0 + b0 * INR dl / avg)).
  { destruct Hp as [Hk [Hb0 Hb1]]. pose proof (pos_INR dl).
    apply Rmult_le_pos; [lra|].
    assert (0 <= b0 * INR dl / avg); [|lra].
    apply Rmult_le_pos; [apply Rmult_le_pos; assumption|].
    apply Rlt_le, Rinv_0_lt_compat. exact Havg. }
  set (c := k * (1 - b0 + b0 * INR dl / avg)) in *.
  apply le_INR in Hf, Hff. simpl in Hf. destruct Hp as [Hk _].
  apply Rmult_le_reg_r with ((INR f + c) * (INR f' + c));
    [apply Rmult_lt_0_compat; assumption|].
  replace (idf_t * (INR f * (k + 1)) / (INR f + c) * ((INR f + c) * (INR f' + c)))
    with (idf_t * (INR f * (k + 1)) * (INR f' + c)) by (field; lra).
  replace (idf_t * (INR f' * (k + 1)) / (INR f' + c) * ((INR f + c) * (INR f' + c)))
    with (idf_t * (INR f' * (k + 1)) * (INR f + c)) by (field; lra).
  assert (H : idf_t * (INR f' * (k + 1)) * (INR f + c)
              - idf_t * (INR f * (k + 1)) * (INR f' + c)
              = idf_t * (k + 1) * (c * (INR f' - INR f))) by ring.
  assert (0 <= idf_t * (k + 1) * (c * (INR f' - INR f))).
  { apply Rmult_le_pos; [apply Rmult_le_pos; lra|].
    apply Rmult_le_pos; lra. }
  lra.
Qed.

(** The inner loop over postings of fresh documents appends their
    weights, in order. *)
Lemma score_postings_fresh (self : BM25Ranker) (idf_t : R) (p : list (nat * nat)) :
  params_ok (k1 self) (b self) -> 0 < avg_dl (idx self) ->
  postings_ok (idx self) p ->
  forall scores,
    (forall d, In d (map fst p) -> ~ In d (map fst scores)) ->
    for_each (score_posting self idf_t) p scores
    = Ok (scores ++ map (posting_score self idf_t) p).
Proof.
  intros Hp Havg. induction p as [|[d0 f0] p IH]; intros [Hnd Hok] scores Hfresh.
  - simpl. rewrite app_nil_r. reflexivity.
  - inversion Hnd as [|? ? Hnotin Hnd']; subst.
    destruct (Hok d0 f0 (or_introl eq_refl)) as [Hf0 [dl Hdl]].
    cbn [for_each]. rewrite (score_posting_Ok _ _ _ _ _ dl) by assumption.
    rewrite bind_Ok.
    assert (Hd0 : ~ In d0 (map fst scores)) by (apply Hfresh; left; reflexivity).
    rewrite (od_set_fresh _ Nat.eqb_eq) by exact Hd0.
    unfold od_get_default at 1.
    rewrite (proj2 (od_get_None_notin _ Nat.eqb_eq d0 scores) Hd0).
    rewrite IH.
    + rewrite <- app_assoc. cbn [map app]. unfold posting_score at 2.
      cbn [fst snd]. unfold od_get_default. rewrite Hdl. reflexivity.
    + split; [exact Hnd' | intros d f H; apply Hok; right; exact H].
    + intros d Hd. rewrite map_app, in_app_iff. cbn [map fst In].
      intros [H|[H|[]]].
      * revert H. apply Hfresh. right. exact Hd.
      * subst d0. contradiction.
Qed.

Lemma moved_up_cons (i : nat) (s s' : R) (y : nat * R) (L L' : list (nat * R)) :
  moved_up i s s' L L' -> moved_up i s s' (y :: L) (y :: L').
Proof.
  intros (A & B & C & -> & ->). exists (y :: A), B, C. split; reflexivity.
Qed.

Lemma moved_up_length (i : nat) (s s' : R) (L L' : list (nat * R)) :
  moved_up i s s' L L' -> length L = length L'.
Proof.
  intros (A & B & C & -> & ->).
  repeat (rewrite ?length_app; cbn [length]). lia.
Qed.

Lemma insert_desc_front (a : nat * R) (L : list (nat * R)) :
  Forall (fun y => snd y <= snd a) L -> insert_desc a L = a :: L.
Proof.
  destruct L as [|y L]; [reflexivity|]. intros H. inversion H; subst.
  cbn [insert_desc]. destruct (Rlt_dec (snd a) (snd y)); [lra | reflexivity].
Qed.

Lemma insert_desc_split (a : nat * R) (S : list (nat * R)) :
  exists A C, S = A ++ C /\ insert_desc a S = A ++ a :: C.
Proof.
  induction S as [|y S IH].
  - exists [], []. split; reflexivity.
  - cbn [insert_desc]. destruct (Rlt_dec (snd a) (snd y)).
    + destruct IH as (A & C & HS & E). exists (y :: A), C.
      rewrite E, HS at 1. split; reflexivity.
    + exists [], (y :: S). split; reflexivity.
Qed.

Lemma moved_up_insert_base (i : nat) (s s' : R) (S : list (nat * R)) :
  s <= s' -> moved_up i s s' (insert_desc (i, s) S) (insert_desc (i, s') S).
Proof.
  intros Hss. induction S as [|y S IH]; cbn [insert_desc snd].
  - exists [], [], []. split; reflexivity.
  - destruct (Rlt_dec s' (snd y)) as [H'|H'].
    + destruct (Rlt_dec s (snd y)) as [H|H]; [|lra].
      apply moved_up_cons. exact IH.
    + destruct (Rlt_dec s (snd y)) as [H|H].
      * destruct (insert_desc_split (i, s) S) as (A1 & C1 & HS & E).
        rewrite E, HS. exists [], (y :: A1), C1. split; reflexivity.
      * exists [], [], (y :: S). split; reflexivity.
Qed.

Lemma insert_desc_through (a : nat * R) (i : nat) (s : R) (B C : list (nat * R)) :
  StronglySorted score_ge (B ++ (i, s) :: C) ->
  exists B1 C1,
    insert_desc a (B ++ (i, s) :: C) = B1 ++ (i, s) :: C1 /\
    insert_desc a (B ++ C) = B1 ++ C1.
Proof.
  induction B as [|y B IH]; intros Hs; cbn [app insert_desc snd].
  - destruct (Rlt_dec (snd a) s) as [H|H].
    + exists [], (insert_desc a C). split; reflexivity.
    + exists [a], C. split; [reflexivity|]. apply insert_desc_front.
      apply StronglySorted_inv in Hs. destruct Hs as [_ Hall].
      apply Forall_impl with (2 := Hall). unfold score_ge. cbn [snd].
      intros z Hz. lra.
  - cbn [app] in Hs. apply StronglySorted_inv in Hs. destruct Hs as [Hs _].
    destruct (Rlt_dec (snd a) (snd y)) as [H|H].
    + destruct (IH Hs) as (B1 & C1 & E1 & E2). exists (y :: B1), C1.
      rewrite E1, E2. split; reflexivity.
    + exists (a :: y :: B), C. split; reflexivity.
Qed.

Lemma moved_up_insert (a : nat * R) (i : nat) (s s' : R) (L L' : list (nat * R)) :
  s <= s' -> StronglySorted score_ge L -> StronglySorted score_ge L' ->
  moved_up i s s' L L' ->
  moved_up i s s' (insert_desc a L) (insert_desc a L').
Proof.
  intros Hss HL HL' (A & B & C & -> & ->).
  induction A as [|y A IH]; cbn [app] in *.
  - cbn [insert_desc snd]. destruct (Rlt_dec (snd a) s') as [H|H].
    + destruct (insert_desc_through a i s B C HL) as (B1 & C1 & E1 & E2).
      rewrite E1, E2. exists [], B1, C1. split; reflexivity.
    + rewrite insert_desc_front.
      * exists [a], B, C. split; reflexivity.
      * apply StronglySorted_inv in HL'. destruct HL' as [_ Hall].
        unfold score_ge in Hall. cbn [snd] in Hall.
        apply Forall_app in Hall. destruct Hall as [HB HC].
        apply Forall_app. split; [|constructor; [cbn [snd]; lra|]].
        -- apply Forall_impl with (2 := HB). intros z Hz. lra.
        -- apply Forall_impl with (2 := HC). intros z Hz. lra.
  - apply StronglySorted_inv in HL, HL'.
    destruct HL as [HL _], HL' as [HL' _].
    cbn [insert_desc]. destruct (Rlt_dec (snd a) (snd y)) as [H|H].
    + apply moved_up_cons. apply IH; assumption.
    + exists (a :: y :: A), B, C. split; reflexivity.
Qed.

(** Raising the score of one item of the accumulator can only move it up
    in the ranking. *)
Lemma moved_up_sorted (i : nat) (s s' : R) (l1 l2 : list (nat * R)) :
  s <= s' ->
  moved_up i s s' (sorted_desc (l1 ++ (i, s) :: l2))
                  (sorted_desc (l1 ++ (i, s') :: l2)).
Proof.
  intros Hss. induction l1 as [|a l1 IH]; cbn [app sorted_desc].
  - apply moved_up_insert_base. exact Hss.
  - apply moved_up_insert; [exact Hss | apply sorted_desc_sorted .. | exact IH].
Qed.

Lemma moved_up_firstn (i : nat) (s s' : R) (L L' : list (nat * R)) (n : nat) :
  moved_up i s s' L L' -> NoDup (map fst L) ->
  In (i, s) (firstn n L) -> In (i, s') (firstn n L').
Proof.
  intros (A & B & C & -> & ->) Hnd Hin.
  assert (Hn : (length A + length B < n)%nat).
  { destruct (Nat.lt_ge_cases (length A + length B) n) as [H|H]; [exact H|].
    exfalso. rewrite app_assoc in Hin, Hnd.
    rewrite firstn_app, length_app in Hin.
    replace (n - (length A + length B))%nat with 0%nat in Hin by lia.
    cbn [firstn] in Hin. rewrite app_nil_r in Hin. apply in_firstn in Hin.
    rewrite map_app in Hnd. cbn [map fst] in Hnd.
    apply NoDup_remove_2 in Hnd. apply Hnd. apply in_or_app. left.
    apply (in_map fst) in Hin. exact Hin. }
  rewrite firstn_app. apply in_or_app. right.
  destruct (n - length A)%nat as [|m] eqn:E; [lia|]. left. reflexivity.
Qed.

Lemma moved_up_slice (i : nat) (s s' : R) (L L' : list (nat * R)) (k : Z) :
  moved_up i s s' L L' -> NoDup (map fst L) ->
  In (i, s) (slice_to L k) -> In (i, s') (slice_to L' k).
Proof.
  intros Hm Hnd. unfold slice_to. rewrite (moved_up_length _ _ _ _ _ Hm).
  destruct (k <? 0)%Z; apply moved_up_firstn; assumption.
Qed.

Lemma combine_seq_app {A : Type} (l1 l2 : list A) (s : nat) :
  combine (seq s (length (l1 ++ l2))) (l1 ++ l2) =
  combine (seq s (length l1)) l1 ++ combine (seq (s + length l1) (length l2)) l2.
Proof.
  revert s. induction l1 as [|x l1 IH]; intros s; cbn [app length seq combine].
  - rewrite Nat.add_0_r. reflexivity.
  - rewrite IH. rewrite <- Nat.add_succ_comm. reflexivity.
Qed.

(** The postings and the lengths of a collection, around one document. *)
Lemma postings_of_around (t : string) (pre post : list string) (x : string) :
  postings_of t (pre ++ x :: post) =
  postings_of t pre ++ doc_posting t (length pre, x)
  ++ flat_map (doc_posting t) (combine (seq (S (length pre)) (length post)) post).
Proof.
  unfold postings_of, enumerate. rewrite combine_seq_app, flat_map_app.
  cbn [length seq combine flat_map Nat.add]. reflexivity.
Qed.

Lemma lengths_of_around (pre post : list string) (x x' : string) :
  length (tokenize x) = length (tokenize x') ->
  lengths_of (pre ++ x :: post) = lengths_of (pre ++ x' :: post).
Proof.
  intros Hlen. unfold lengths_of, enumerate.
  rewrite !combine_seq_app, !map_app. cbn [length seq combine map fst snd Nat.add].
  rewrite Hlen. reflexivity.
Qed.

Lemma mean_length_around (pre post : list string) (x x' : string) :
  length (tokenize x) = length (tokenize x') ->
  mean_length (pre ++ x :: post) = mean_length (pre ++ x' :: post).
Proof.
  intros Hlen. unfold mean_length.
  rewrite (lengths_of_around pre post x x' Hlen).
  rewrite !length_app. cbn [length].
  destruct pre; reflexivity.
Qed.

(** For a query of one term, the accumulator is the postings of the term
    with their weights, in the order of the postings. *)
Lemma accumulate_single (self : BM25Ranker) (query t : string) :
  index_ok (idx self) -> params_ok (k1 self) (b self) ->
  query_terms query = [t] ->
  accumulate self query =
  Ok (map (posting_score self
             (idf_formula (N (idx self)) (length (index_get t (index (idx self))))))
          (index_get t (index (idx self)))).
Proof.
  intros Hix Hp Hq. unfold accumulate. cbv zeta.
  unfold query_terms in Hq. rewrite Hq. cbn [for_each].
  destruct (Hix t) as (Hpost & Hlen & Havg).
  unfold score_term. cbv zeta.
  remember (index_get t (index (idx self))) as p eqn:E in |- *.
  destruct p as [|p0 p'].
  - reflexivity.
  - cbv beta iota. rewrite E, idf_Ok by exact Hlen. rewrite !bind_Ok.
    rewrite score_postings_fresh; try assumption.
    + reflexivity.
    + apply Havg. rewrite <- E. discriminate.
    + intros d _ [].
Qed.

Lemma doc_text_middle (pre post : list string) (x : string) :
  doc_text (pre ++ x :: post) (length pre) = x.
Proof. unfold doc_text. apply nth_middle. Qed.

Lemma doc_posting_pos (t : string) (i : nat) (x : string) :
  (1 <= occurrences t (tokenize x))%nat ->
  doc_posting t (i, x) = [(i, occurrences t (tokenize x))].
Proof.
  intros H. unfold doc_posting. cbn [fst snd]. cbv zeta.
  destruct (occurrences t (tokenize x) =? 0)%nat eqn:E; [|reflexivity].
  apply Nat.eqb_eq in E. lia.
Qed.

(** C6: take a collection and replace one document by a text with as
    many tokens and at least as many occurrences of [t]; nothing else
    changes.  For a query whose only term is [t] and parameters in their
    domain, [score] returns on both collections, and if the document is in
    the result before the change, with score [s], it is in the result
    after it, with a score [s' >= s]. *)
Theorem C6_score_monotone_in_occurrences
    (pre post : list string) (x x' t query : string) (k b0 : R) (top_k : Z) :
  params_ok k b0 ->
  query_terms query = [t] ->
  length (tokenize x) = length (tokenize x') ->
  (occurrences t (tokenize x) <= occurrences t (tokenize x'))%nat ->
  exists ix ix' hits hits',
    build_index (pre ++ x :: post) = Ok ix /\
    build_index (pre ++ x' :: post) = Ok ix' /\
    score {| idx := ix; k1 := k; b := b0 |} query top_k = Ok hits /\
    score {| idx := ix'; k1 := k; b := b0 |} query top_k = Ok hits' /\
    forall s, In (length pre, s) hits ->
              exists s', In (length pre, s') hits' /\ s <= s'.
Proof.
  intros Hp Hq Hlen Hocc.
  set (docs := pre ++ x :: post). set (docs' := pre ++ x' :: post).
  destruct (build_index_eq docs) as (ix & Hb & HN & Hl & Ha & Hget & _).
  destruct (build_index_eq docs') as (ix' & Hb' & HN' & Hl' & Ha' & Hget' & _).
  pose proof (built_index_ok docs ix Hb) as Hix.
  pose proof (built_index_ok docs' ix' Hb') as Hix'.
  pose proof (accumulate_single {| idx := ix; k1 := k; b := b0 |} query t Hix Hp Hq)
    as Hacc.
  pose proof (accumulate_single {| idx := ix'; k1 := k; b := b0 |} query t Hix' Hp Hq)
    as Hacc'.
  cbn [idx] in Hacc, Hacc'.
  exists ix, ix'. eexists. eexists.
  split; [exact Hb|]. split; [exact Hb'|].
  split; [apply score_eq; exact Hacc|]. split; [apply score_eq; exact Hacc'|].
  intros s Hin.
  (* the document has the term before the change *)
  assert (Hf : (1 <= occurrences t (tokenize x))%nat).
  { destruct (built_accumulate docs ix k b0 query Hb Hp) as (acc & Hacc2 & Hnd & Hsc).
    assert (Heq : acc = map (posting_score {| idx := ix; k1 := k; b := b0 |}
                    (idf_formula (N ix) (length (index_get t (index ix)))))
                    (index_get t (index ix))) by congruence.
    rewrite <- Heq in Hin. apply (in_ranked top_k acc _ _ Hnd) in Hin.
    rewrite Hsc in Hin. unfold bm25_score, terms_in_doc in Hin.
    rewrite Hq in Hin. cbn [filter] in Hin. unfold docs in Hin.
    rewrite doc_text_middle in Hin.
    destruct (occurrences t (tokenize x)) as [|n]; [discriminate | lia]. }
  assert (Hf' : (1 <= occurrences t (tokenize x'))%nat) by lia.
  (* the two indexes have the same statistics *)
  assert (Hlens : doc_lens ix' = doc_lens ix).
  { rewrite Hl, Hl'. symmetry. apply lengths_of_around. exact Hlen. }
  assert (Havg : avg_dl ix' = avg_dl ix).
  { rewrite Ha, Ha'. symmetry. apply mean_length_around. exact Hlen. }
  assert (HNN : N ix' = N ix).
  { rewrite HN, HN'. unfold docs, docs'. rewrite !length_app. reflexivity. }
  pose proof (postings_of_nodup t docs) as Hnd.
  destruct (Hix t) as (_ & Hle & Hpos).
  rewrite Hget in Hin, Hle, Hpos. rewrite Hget'.
  unfold docs in Hin, Hle, Hpos, Hnd. unfold docs'.
  rewrite postings_of_around in Hin, Hle, Hpos, Hnd. rewrite postings_of_around.
  rewrite (doc_posting_pos t _ x Hf) in Hin, Hle, Hpos, Hnd.
  rewrite (doc_posting_pos t _ x' Hf').
  set (P1 := postings_of t pre) in *.
  set (P2 := flat_map (doc_posting t)
               (combine (seq (S (length pre)) (length post)) post)) in *.
  assert (Hdf : length (P1 ++ [(length pre, occurrences t (tokenize x'))] ++ P2)
                = length (P1 ++ [(length pre, occurrences t (tokenize x))] ++ P2)).
  { rewrite !length_app. reflexivity. }
  rewrite Hdf, HNN.
  set (idf_t := idf_formula (N ix)
                  (length (P1 ++ [(length pre, occurrences t (tokenize x))] ++ P2)))
    in *.
  assert (Hps : forall p, posting_score {| idx := ix'; k1 := k; b := b0 |} idf_t p
                          = posting_score {| idx := ix; k1 := k; b := b0 |} idf_t p).
  { intros p. unfold posting_score. cbn [idx k1 b].
    rewrite Hlens, Havg. reflexivity. }
  rewrite (map_ext _ _ Hps).
  set (ps := posting_score {| idx := ix; k1 := k; b := b0 |} idf_t) in *.
  rewrite !map_app in Hin |- *. cbn [map app] in Hin |- *.
  set (dl := od_get_default Nat.eqb (length pre) 0%nat (doc_lens ix)).
  set (w := fun f => 0 + bm25_term idf_t f dl (avg_dl ix) k b0).
  change (ps (length pre, occurrences t (tokenize x)))
    with (length pre, w (occurrences t (tokenize x))) in Hin.
  change (ps (length pre, occurrences t (tokenize x')))
    with (length pre, w (occurrences t (tokenize x'))).
  assert (Hw : w (occurrences t (tokenize x)) <= w (occurrences t (tokenize x'))).
  { unfold w. apply Rplus_le_compat_l. apply bm25_term_monotone.
    - apply Rlt_le. unfold idf_t. apply idf_formula_pos. exact Hle.
    - exact Hp.
    - apply Hpos. intros Hnil. apply (f_equal (@length _)) in Hnil.
      rewrite !length_app in Hnil. cbn [length] in Hnil. lia.
    - lia. }
  assert (Hkeys : NoDup (map fst (map ps P1 ++
                     (length pre, w (occurrences t (tokenize x))) :: map ps P2))).
  { rewrite !map_app in Hnd. cbn [map app fst] in Hnd.
    rewrite map_app. cbn [map fst]. rewrite !map_map.
    unfold ps, posting_score. cbn [fst]. exact Hnd. }
  (* the ranking: the item can only move up *)
  assert (Hs : s = w (occurrences t (tokenize x))).
  { apply in_slice_to in Hin.
    apply (Permutation_in _ (sorted_desc_perm _)) in Hin.
    pose proof (od_get_in_nodup _ Nat.eqb_eq _ _ _ Hkeys Hin) as H1.
    assert (H2 : In (length pre, w (occurrences t (tokenize x)))
                    (map ps P1 ++
                     (length pre, w (occurrences t (tokenize x))) :: map ps P2)).
    { apply in_or_app. right. left. reflexivity. }
    apply (od_get_in_nodup _ Nat.eqb_eq _ _ _ Hkeys) in H2. congruence. }
  subst s. exists (w (occurrences t (tokenize x'))). split; [|exact Hw].
  apply (moved_up_slice _ _ _ _ _ _ (moved_up_sorted _ _ _ _ _ Hw)); [|exact Hin].
  apply (Permutation_NoDup
           (Permutation_map fst (Permutation_sym (sorted_desc_perm _)))).
  exact Hkeys.
Qed.

Lemma C6_score_monotone_in_occurrences_witness :
  params_ok 1.5 0.75 /\
  query_terms "cat" = ["cat"] /\
  length (tokenize "the cat sat") = length (tokenize "cat cat sat") /\
  (occurrences "cat" (tokenize "the cat sat")
   <= occurrences "cat" (tokenize "cat cat sat"))%nat /\
  exists ix ix' hits hits',
    build_index (["the dog ran"] ++ "the cat sat" :: ["cat and dog played"]) = Ok ix /\
    build_index (["the dog ran"] ++ "cat cat sat" :: ["cat and dog played"]) = Ok ix' /\
    score {| idx := ix; k1 := 1.5; b := 0.75 |} "cat" 10 = Ok hits /\
    score {| idx := ix'; k1 := 1.5; b := 0.75 |} "cat" 10 = Ok hits' /\
    forall s, In (1%nat, s) hits -> exists s', In (1%nat, s') hits' /\ s <= s'.
Proof.
  assert (Hp : params_ok 1.5 0.75) by (unfold params_ok; lra).
  assert (Hq : query_terms "cat" = ["cat"]) by reflexivity.
  assert (Hl : length (tokenize "the cat sat") = length (tokenize "cat cat sat"))
    by reflexivity.
  assert (Ho : (occurrences "cat" (tokenize "the cat sat")
                <= occurrences "cat" (tokenize "cat cat sat"))%nat)
    by (vm_compute; lia).
  split; [exact Hp|]. split; [exact Hq|]. split; [exact Hl|]. split; [exact Ho|].
  exact (C6_score_monotone_in_occurrences
           ["the dog ran"] ["cat and dog played"] "the cat sat" "cat cat sat"
           "cat" "cat" 1.5 0.75 10 Hp Hq Hl Ho).
Defined.


(** ** A scenario of the specification *)

(** Query "cat" on the scenario: the hits are documents 0 and 2, with
    positive scores; document 1 is not among them. *)
Example scenario_cat :
  exists ix hits,
    build_index scenario_docs = Ok ix /\
    score (BM25Ranker_init ix) "cat" 10 = Ok hits /\
    Permutation (map fst hits) [0%nat; 2%nat] /\
    Forall (fun h => 0 < snd h) hits.
Proof.
  destruct (build_index_eq scenario_docs) as (ix & Hb & HN & Hl & Ha & Hget & _).
  pose proof (built_index_ok _ _ Hb) as Hix.
  pose proof (accumulate_single (BM25Ranker_init ix) "cat" "cat" Hix
                default_params_ok eq_refl) as Hacc.
  cbn [idx BM25Ranker_init] in Hacc. rewrite Hget in Hacc.
  destruct (built_score scenario_docs ix 1.5 0.75 "cat" 10 Hb default_params_ok)
    as (hits & Hscore & Hall & _).
  exists ix, hits. split; [exact Hb|]. split; [exact Hscore|].
  split; [|apply Forall_impl with (2 := Hall); intros h Hh; apply Hh].
  unfold BM25Ranker_init in Hacc.
  remember (map (posting_score {| idx := ix; k1 := 1.5; b := 0.75 |}
                   (idf_formula (N ix) (length (postings_of "cat" scenario_docs))))
                (postings_of "cat" scenario_docs)) as acc eqn:Eacc.
  assert (Hkeys : map fst acc = [0%nat; 2%nat]).
  { rewrite Eacc, map_map. reflexivity. }
  rewrite (score_eq _ _ _ _ Hacc) in Hscore. injection Hscore as <-.
  rewrite slice_to_nonneg by lia.
  rewrite firstn_all2.
  - rewrite <- Hkeys. apply (Permutation_map fst (sorted_desc_perm acc)).
  - rewrite (Permutation_length (sorted_desc_perm acc)).
    rewrite <- (length_map fst), Hkeys. simpl. lia.
Qed.

(** * Further properties of the code *)

(** ** The tokenizer *)

Lemma lower_char_token (c : ascii) :
  is_word (lower_char c) = true -> is_token_char (lower_char c) = true.
Proof.
  destruct c as [[] [] [] [] [] [] [] []]; vm_compute; intros H;
    first [reflexivity | discriminate H].
Qed.

Lemma token_char_word (c : ascii) : is_token_char c = true -> is_word c = true.
Proof.
  destruct c as [[] [] [] [] [] [] [] []]; vm_compute; intros H;
    first [reflexivity | discriminate H].
Qed.

Lemma token_char_lower (c : ascii) : is_token_char c = true -> lower_char c = c.
Proof.
  destruct c as [[] [] [] [] [] [] [] []]; vm_compute; intros H;
    first [reflexivity | discriminate H].
Qed.

Lemma valid_token_of_run (run : list ascii) :
  run <> [] -> Forall (fun c => is_token_char c = true) run ->
  valid_token (string_of_list_ascii (rev run)) = true.
Proof.
  intros Hne Hall. unfold valid_token. apply andb_true_iff. split.
  - apply negb_true_iff. apply String.eqb_neq. intros H.
    apply (f_equal list_ascii_of_string) in H.
    rewrite list_ascii_of_string_of_list_ascii in H. simpl in H.
    apply (f_equal (@rev ascii)) in H. rewrite rev_involutive in H. simpl in H.
    contradiction.
  - rewrite list_ascii_of_string_of_list_ascii. apply forallb_forall.
    intros c Hc. apply in_rev in Hc. rewrite Forall_forall in Hall. auto.
Qed.

Lemma findall_word_tokens (s : string) (run : list ascii) :
  Forall (fun c => is_token_char c = true) run ->
  Forall (fun tok => valid_token tok = true) (findall_word run (lower s)).
Proof.
  revert run. induction s as [|c s IH]; intros run Hrun; cbn [lower findall_word].
  - unfold flush. destruct run as [|c0 run']; [constructor|].
    constructor; [|constructor]. apply valid_token_of_run; [discriminate | exact Hrun].
  - destruct (is_word (lower_char c)) eqn:E.
    + apply IH. constructor; [apply lower_char_token; exact E | exact Hrun].
    + apply Forall_app. split; [|apply IH; constructor].
      unfold flush. destruct run as [|c0 run']; [constructor|].
      constructor; [|constructor].
      apply valid_token_of_run; [discriminate | exact Hrun].
Qed.

(** X1: every token that [tokenize] returns is non-empty and made of
    lower-case letters, digits and underscores only. *)
Theorem X1_tokens_are_lowercase_words (text : string) :
  Forall (fun tok => valid_token tok = true) (tokenize text).
Proof. unfold tokenize. apply findall_word_tokens. constructor. Qed.

Lemma lower_app (a b0 : string) : lower (a ++ b0) = (lower a ++ lower b0)%string.
Proof.
  induction a as [|c a IH]; [reflexivity|]. cbn [append lower]. rewrite IH.
  reflexivity.
Qed.

Lemma lower_token (w : string) :
  forallb is_token_char (list_ascii_of_string w) = true -> lower w = w.
Proof.
  induction w as [|c w IH]; [reflexivity|]. cbn [list_ascii_of_string forallb lower].
  intros H. apply andb_true_iff in H. destruct H as [Hc Hw].
  rewrite (token_char_lower c Hc), (IH Hw). reflexivity.
Qed.

Lemma findall_word_run (w rest : string) (run : list ascii) :
  forallb is_token_char (list_ascii_of_string w) = true ->
  findall_word run (w ++ rest) = findall_word (rev (list_ascii_of_string w) ++ run) rest.
Proof.
  revert run. induction w as [|c w IH]; intros run H; [reflexivity|].
  cbn [list_ascii_of_string forallb] in H. apply andb_true_iff in H.
  destruct H as [Hc Hw]. cbn [append findall_word list_ascii_of_string rev].
  rewrite (token_char_word c Hc), (IH _ Hw), <- app_assoc. reflexivity.
Qed.

(** X2: tokenizing tokens written with a space after each gives the
    tokens back. *)
Theorem X2_tokenize_spaced_tokens (toks : list string) :
  Forall (fun tok => valid_token tok = true) toks ->
  tokenize (spaced toks) = toks.
Proof.
  unfold tokenize. induction toks as [|t toks IH]; intros Hall; [reflexivity|].
  inversion Hall as [|? ? Ht Hall']; subst. unfold valid_token in Ht.
  apply andb_true_iff in Ht. destruct Ht as [Hne Hchars].
  apply negb_true_iff, String.eqb_neq in Hne.
  cbn [spaced]. rewrite lower_app, (lower_token t Hchars). cbn [lower].
  rewrite (findall_word_run _ _ _ Hchars), app_nil_r.
  change (lower_char " ") with " "%char. cbn [findall_word].
  change (is_word " ") with false. cbv iota.
  rewrite (IH Hall'). unfold flush.
  destruct (rev (list_ascii_of_string t)) as [|c run] eqn:E.
  - exfalso. apply Hne. apply (f_equal (@rev ascii)) in E.
    rewrite rev_involutive in E. simpl in E.
    apply (f_equal string_of_list_ascii) in E.
    rewrite string_of_list_ascii_of_string in E. exact E.
  - rewrite <- E, rev_involutive, string_of_list_ascii_of_string. reflexivity.
Qed.

Lemma X2_tokenize_spaced_tokens_witness :
  Forall (fun tok => valid_token tok = true) ["the"; "cat_2"; "sat"] /\
  tokenize (spaced ["the"; "cat_2"; "sat"]) = ["the"; "cat_2"; "sat"].
Proof.
  assert (H : Forall (fun tok => valid_token tok = true) ["the"; "cat_2"; "sat"]).
  { repeat constructor. }
  split; [exact H|]. exact (X2_tokenize_spaced_tokens ["the"; "cat_2"; "sat"] H).
Defined.

(** ** More about [InvertedIndex.build] *)

Lemma build_doc_keys (st : InvertedIndex) (it : nat * string) :
  NoDup (map fst (index st)) -> NoDup (map fst (index (build_doc st it))).
Proof.
  destruct it as [i text]. unfold build_doc. cbn [index].
  generalize (Counter (tokenize text)) (index st).
  induction l as [|[a c] freqs IH]; intros ix Hix; cbn [fold_left]; [exact Hix|].
  apply IH. unfold index_set. apply (od_set_nodup _ String.eqb_eq). exact Hix.
Qed.

Lemma build_loop_keys (l : list (nat * string)) (st : InvertedIndex) :
  NoDup (map fst (index st)) -> NoDup (map fst (index (fold_left build_doc l st))).
Proof.
  revert st. induction l as [|it l IH]; intros st Hst; cbn [fold_left]; [exact Hst|].
  apply IH, build_doc_keys, Hst.
Qed.

Lemma built_index_keys (docs : list string) (ix : InvertedIndex) :
  build_index docs = Ok ix -> NoDup (map fst (index ix)).
Proof.
  unfold build_index, build. cbv zeta. intros H.
  apply bind_Ok_inv in H. destruct H as (avg & _ & H). injection H as <-.
  cbn [index]. apply build_loop_keys. constructor.
Qed.

Lemma list_sum_cons (x : nat) (l : list nat) :
  list_sum (x :: l) = (x + list_sum l)%nat.
Proof. reflexivity. Qed.

Lemma indicator_sum (a : string) (ks : list string) :
  NoDup ks -> In a ks ->
  list_sum (map (fun t => if string_dec a t then 1%nat else 0%nat) ks) = 1%nat.
Proof.
  induction ks as [|k ks IH]; intros Hnd Hin; [contradiction|].
  inversion Hnd as [|? ? Hnotin Hnd']; subst. cbn [map]. rewrite list_sum_cons.
  destruct (string_dec a k) as [->|Hne].
  - f_equal. clear IH Hin Hnd. induction ks as [|k' ks IH]; [reflexivity|].
    cbn [map]. rewrite list_sum_cons. destruct (string_dec k k') as [->|_].
    + exfalso. apply Hnotin. left. reflexivity.
    + apply IH; [intros H; apply Hnotin; right; exact H|].
      inversion Hnd'; assumption.
  - destruct Hin as [->|Hin]; [contradiction|]. apply IH; assumption.
Qed.

Lemma list_sum_map_add {A : Type} (f g : A -> nat) (l : list A) :
  list_sum (map (fun x => f x + g x)%nat l)
  = (list_sum (map f l) + list_sum (map g l))%nat.
Proof.
  unfold list_sum. induction l as [|x l IH]; [reflexivity|].
  cbn [map fold_right]. rewrite IH. lia.
Qed.


(** The counts of the tokens of a text over a duplicate-free list of terms
    that has all its tokens add up to its length. *)
Lemma occurrences_sum (toks ks : list string) :
  NoDup ks -> incl toks ks ->
  list_sum (map (fun t => occurrences t toks) ks) = length toks.
Proof.
  intros Hnd. induction toks as [|a toks IH]; intros Hincl.
  - unfold occurrences. cbn [count_occ length].
    clear Hincl Hnd. induction ks as [|k ks IHk]; [reflexivity|]. cbn [map].
    rewrite list_sum_cons. exact IHk.
  - assert (Heq : map (fun t => occurrences t (a :: toks)) ks
                  = map (fun t => (if string_dec a t then 1 else 0)
                                  + occurrences t toks)%nat ks).
    { apply map_ext. intros t. unfold occurrences. cbn [count_occ].
      destruct (string_dec a t); reflexivity. }
    rewrite Heq.
    rewrite (list_sum_map_add (fun t => if string_dec a t then 1%nat else 0%nat)
                              (fun t => occurrences t toks)).
    rewrite indicator_sum, IH.
    + reflexivity.
    + intros t Ht. apply Hincl. right. exact Ht.
    + exact Hnd.
    + apply Hincl. left. reflexivity.
Qed.

(** X3: in a built index no term is listed twice, and for every document
    the counts stored for it under the terms of the index add up to its
    recorded length, the number of its tokens. *)
Theorem X3_counts_add_up_to_length (docs : list string) :
  exists ix,
    build_index docs = Ok ix /\
    NoDup (map fst (index ix)) /\
    forall d text,
      nth_error docs d = Some text ->
      od_get Nat.eqb d (doc_lens ix) = Some (length (tokenize text)) /\
      list_sum (map (fun kv => od_get_default Nat.eqb d 0%nat (snd kv)) (index ix))
      = length (tokenize text).
Proof.
  destruct (build_index_eq docs) as (ix & Hb & HN & Hl & _ & Hget & _).
  pose proof (built_index_keys docs ix Hb) as Hnd.
  exists ix. split; [exact Hb|]. split; [exact Hnd|].
  intros d text Hnth. split; [rewrite Hl; apply get_lengths_of; exact Hnth|].
  assert (Heq : map (fun kv => od_get_default Nat.eqb d 0%nat (snd kv)) (index ix)
                = map (fun t => occurrences t (tokenize text)) (map fst (index ix))).
  { rewrite map_map. apply map_ext_in. intros [t p] Hin. cbn [fst snd].
    pose proof (od_get_in_nodup _ String.eqb_eq _ _ _ Hnd Hin) as Hp.
    pose proof (Hget t) as Ht. unfold index_get, od_get_default in Ht.
    rewrite Hp in Ht. subst p. unfold od_get_default.
    rewrite postings_of_get, (doc_text_nth _ _ _ Hnth). cbv zeta.
    destruct (occurrences t (tokenize text) =? 0)%nat eqn:E; [|reflexivity].
    apply Nat.eqb_eq in E. congruence. }
  rewrite Heq. apply occurrences_sum; [exact Hnd|].
  intros t Ht.
  destruct (od_get String.eqb t (index ix)) as [p|] eqn:E.
  - apply (od_get_Some_in _ String.eqb_eq) in E.
    apply (in_map fst) in E. exact E.
  - exfalso. pose proof (Hget t) as Hp. unfold index_get, od_get_default in Hp.
    rewrite E in Hp.
    assert (Hin : In (d, occurrences t (tokenize text)) (postings_of t docs)).
    { apply in_postings_of. exists text. split; [exact Hnth|]. split; [reflexivity|].
      apply (count_occ_In string_dec). exact Ht. }
    rewrite <- Hp in Hin. contradiction.
Qed.

Lemma postings_from_sorted (t : string) (l : list string) (s : nat) :
  let p := flat_map (doc_posting t) (combine (seq s (length l)) l) in
  StronglySorted lt (map fst p) /\
  Forall (fun k => (s <= k < s + length l)%nat) (map fst p).
Proof.
  revert s. induction l as [|x l IH]; intros s; cbn [length seq combine flat_map].
  - simpl. split; constructor.
  - destruct (IH (S s)) as (Hs & Hb).
    assert (Hb' : Forall (fun k => (s < k < s + S (length l))%nat)
                    (map fst (flat_map (doc_posting t)
                                (combine (seq (S s) (length l)) l)))).
    { apply Forall_impl with (2 := Hb). intros k Hk. lia. }
    destruct (doc_posting_cases t s x) as [-> | [n ->]]; cbn [app map fst].
    + split; [exact Hs|]. apply Forall_impl with (2 := Hb'). intros k Hk. lia.
    + split.
      * constructor; [exact Hs|]. apply Forall_impl with (2 := Hb').
        intros k Hk. lia.
      * constructor; [lia|]. apply Forall_impl with (2 := Hb'). intros k Hk. lia.
Qed.

(** X4: in a built index the recorded lengths are those of the documents
    [0 .. N-1], in this order, and the postings of every term list
    documents of the collection by strictly ascending id; so [score]
    visits the documents of a term in the order of the collection. *)
Theorem X4_postings_by_ascending_id (docs : list string) :
  exists ix,
    build_index docs = Ok ix /\
    map fst (doc_lens ix) = seq 0 (N ix) /\
    forall t,
      StronglySorted lt (map fst (index_get t (index ix))) /\
      Forall (fun d => (d < N ix)%nat) (map fst (index_get t (index ix))).
Proof.
  destruct (build_index_eq docs) as (ix & Hb & HN & Hl & _ & Hget & _).
  exists ix. split; [exact Hb|]. split.
  - rewrite Hl, HN. unfold lengths_of, enumerate. rewrite map_map. cbn [fst].
    apply enumerate_fst.
  - intros t. rewrite Hget, HN.
    destruct (postings_from_sorted t docs 0) as (Hs & Hb').
    split; [exact Hs|]. apply Forall_impl with (2 := Hb'). intros k Hk. lia.
Qed.

Lemma enumerate_snoc {A : Type} (l : list A) (x : A) :
  enumerate (l ++ [x]) = enumerate l ++ [(length l, x)].
Proof. unfold enumerate. rewrite combine_seq_app. reflexivity. Qed.

Lemma doc_text_snoc (l : list string) (x : string) (d : nat) :
  tokenize (doc_text (l ++ [x]) d) =
  if (d =? length l)%nat then tokenize x else tokenize (doc_text l d).
Proof.
  unfold doc_text. destruct (d =? length l)%nat eqn:E.
  - apply Nat.eqb_eq in E. subst d. rewrite nth_middle. reflexivity.
  - apply Nat.eqb_neq in E. destruct (Nat.lt_ge_cases d (length l)) as [H|H].
    + rewrite app_nth1 by exact H. reflexivity.
    + rewrite !nth_overflow; [reflexivity | lia |].
      rewrite length_app. simpl. lia.
Qed.

Lemma build_loop_get_any (t : string) (d : nat) (st : InvertedIndex) (l : list string) :
  od_get Nat.eqb d (index_get t (index (fold_left build_doc (enumerate l) st))) =
  let f := occurrences t (tokenize (doc_text l d)) in
  if (f =? 0)%nat then od_get Nat.eqb d (index_get t (index st)) else Some f.
Proof.
  cbv zeta. induction l as [|x l IH] using rev_ind.
  - unfold doc_text. destruct d; reflexivity.
  - rewrite enumerate_snoc, fold_left_app. cbn [fold_left].
    rewrite build_doc_get. cbn [fst snd]. cbv zeta. rewrite doc_text_snoc.
    destruct (d =? length l)%nat eqn:E.
    + apply Nat.eqb_eq in E. subst d.
      destruct (occurrences t (tokenize x) =? 0)%nat eqn:E0.
      * rewrite IH. unfold doc_text. rewrite nth_overflow by lia. reflexivity.
      * apply (od_get_set_same _ Nat.eqb_eq).
    + apply Nat.eqb_neq in E.
      destruct (occurrences t (tokenize x) =? 0)%nat; [exact IH|].
      rewrite (od_get_set_other _ Nat.eqb_eq) by exact E. exact IH.
Qed.

Lemma build_loop_lens_any (d : nat) (st : InvertedIndex) (l : list string) :
  od_get Nat.eqb d (doc_lens (fold_left build_doc (enumerate l) st)) =
  if (d <? length l)%nat then Some (length (tokenize (doc_text l d)))
  else od_get Nat.eqb d (doc_lens st).
Proof.
  induction l as [|x l IH] using rev_ind.
  - reflexivity.
  - rewrite enumerate_snoc, fold_left_app. cbn [fold_left].
    rewrite build_doc_lens. cbn [fst snd]. rewrite doc_text_snoc, length_app.
    cbn [length]. destruct (d =? length l)%nat eqn:E.
    + apply Nat.eqb_eq in E. subst d.
      rewrite (od_get_set_same _ Nat.eqb_eq).
      destruct (length l <? length l + 1)%nat eqn:E1; [reflexivity|].
      apply Nat.ltb_ge in E1. lia.
    + apply Nat.eqb_neq in E.
      rewrite (od_get_set_other _ Nat.eqb_eq) by exact E. rewrite IH.
      destruct (d <? length l)%nat eqn:E1, (d <? length l + 1)%nat eqn:E2;
        try reflexivity.
      * apply Nat.ltb_lt in E1. apply Nat.ltb_ge in E2. lia.
      * apply Nat.ltb_ge in E1. apply Nat.ltb_lt in E2. lia.
Qed.

(** X5: [build] on any instance, fresh or used, returns (the mean is
    guarded), sets [N] to the number of documents, and only writes: the
    count of document [d] under term [t] becomes the number of occurrences
    when [t] occurs in the new document [d] and is left as it was
    otherwise; a recorded length is replaced for the ids of the new
    collection and kept for all others.  Entries of an earlier build are
    never removed. *)
Theorem X5_build_only_writes (self : InvertedIndex) (docs : list string) :
  exists ix,
    build self docs = Ok ix /\
    N ix = length docs /\
    (forall t d,
        od_get Nat.eqb d (index_get t (index ix)) =
        let f := occurrences t (tokenize (doc_text docs d)) in
        if (f =? 0)%nat then od_get Nat.eqb d (index_get t (index self))
        else Some f) /\
    (forall d,
        od_get Nat.eqb d (doc_lens ix) =
        if (d <? length docs)%nat then Some (length (tokenize (doc_text docs d)))
        else od_get Nat.eqb d (doc_lens self)).
Proof.
  unfold build. cbv zeta.
  set (st1 := {| index := index self; doc_lens := doc_lens self;
                 N := length docs; avg_dl := avg_dl self |}).
  set (st2 := fold_left build_doc (enumerate docs) st1).
  assert (HN : N st2 = length docs) by (unfold st2; rewrite build_loop_N; reflexivity).
  assert (Havg : exists avg,
             (if (N st2 =? 0)%nat then Ok 0
              else truediv (INR (py_sum (map snd (doc_lens st2)))) (INR (N st2)))
             = Ok avg).
  { destruct (N st2 =? 0)%nat eqn:E; [eexists; reflexivity|].
    apply Nat.eqb_neq in E. eexists. apply truediv_Ok. apply not_0_INR. exact E. }
  destruct Havg as [avg Havg]. rewrite Havg, bind_Ok.
  eexists. split; [reflexivity|]. cbn [N index doc_lens].
  split; [exact HN|]. split.
  - intros t d. unfold st2. rewrite build_loop_get_any. reflexivity.
  - intros d. unfold st2. rewrite build_loop_lens_any. reflexivity.
Qed.

(** ** More about [BM25Ranker.score] *)

Lemma slice_to_nil {A : Type} (k : Z) : slice_to (@nil A) k = [].
Proof. unfold slice_to. destruct (k <? 0)%Z; apply firstn_nil. Qed.

Lemma score_terms_skip (self : BM25Ranker) (ts : list string) (scores : list (nat * R)) :
  (forall t, In t ts -> index_get t (index (idx self)) = []) ->
  for_each (score_term self) ts scores = Ok scores.
Proof.
  induction ts as [|t ts IH]; intros H; [reflexivity|]. cbn [for_each].
  unfold score_term at 1. cbv zeta. rewrite (H t (or_introl eq_refl)).
  rewrite bind_Ok. apply IH. intros t' Ht'. apply H. right. exact Ht'.
Qed.

(** X6: for any ranker, whatever its parameters and its index, a query
    none of whose terms has postings (for one, the empty query) makes
    [score] return the empty list: a term absent from the index adds
    nothing and raises nothing. *)
Theorem X6_score_without_match_is_empty
    (self : BM25Ranker) (query : string) (top_k : Z) :
  (forall t, In t (tokenize query) -> index_get t (index (idx self)) = []) ->
  score self query top_k = Ok [].
Proof.
  intros H. unfold score, accumulate. cbv zeta. rewrite score_terms_skip.
  - rewrite bind_Ok. cbn [sorted_desc]. rewrite slice_to_nil. reflexivity.
  - intros t Ht. apply H. apply Counter_keys. exact Ht.
Qed.

Lemma X6_score_without_match_is_empty_witness :
  (forall t, In t (tokenize "bird") ->
             index_get t [("cat", [(0%nat, 1%nat)])] = []) /\
  score {| idx := {| index := [("cat", [(0%nat, 1%nat)])];
                     doc_lens := [(0%nat, 1%nat)]; N := 1; avg_dl := 0 |};
           k1 := 0; b := 2 |} "bird" 3 = Ok [].
Proof.
  assert (H : forall t, In t (tokenize "bird") ->
                        index_get t [("cat", [(0%nat, 1%nat)])] = []).
  { intros t [<-|[]]. reflexivity. }
  split; [exact H|].
  exact (X6_score_without_match_is_empty
           {| idx := {| index := [("cat", [(0%nat, 1%nat)])];
                        doc_lens := [(0%nat, 1%nat)]; N := 1; avg_dl := 0 |};
              k1 := 0; b := 2 |} "bird" 3 H).
Defined.

Lemma filter_filter {A : Type} (f g : A -> bool) (l : list A) :
  filter f (filter g l) = filter (fun x => g x && f x) l.
Proof.
  induction l as [|x l IH]; [reflexivity|]. cbn [filter].
  destruct (g x); cbn [filter andb]; rewrite IH; reflexivity.
Qed.

Lemma od_mem_set (c : list (string * nat)) (a t : string) (v : nat) :
  od_mem String.eqb t (od_set String.eqb a v c)
  = String.eqb a t || od_mem String.eqb t c.
Proof.
  unfold od_mem. destruct (String.eqb a t) eqn:E.
  - apply String.eqb_eq in E. subst t.
    rewrite (od_get_set_same _ String.eqb_eq). reflexivity.
  - apply String.eqb_neq in E.
    rewrite (od_get_set_other _ String.eqb_eq) by congruence. reflexivity.
Qed.

Lemma Counter_fold_keys (l : list string) (c : list (string * nat)) :
  map fst (fold_left count_step l c) =
  map fst c ++ filter (fun t => negb (od_mem String.eqb t c)) (dedup l).
Proof.
  revert c. induction l as [|a l IH]; intros c; cbn [fold_left dedup filter].
  - rewrite app_nil_r. reflexivity.
  - rewrite IH. unfold count_step at 1 2.
    rewrite (od_set_keys _ String.eqb_eq), filter_filter.
    assert (Hext : forall v,
               filter (fun t => negb (od_mem String.eqb t (od_set String.eqb a v c)))
                      (dedup l)
               = filter (fun x => negb (String.eqb a x)
                                  && negb (od_mem String.eqb x c)) (dedup l)).
    { intros v. apply filter_ext. intros t. rewrite od_mem_set.
      apply negb_orb. }
    rewrite Hext. destruct (od_mem String.eqb a c) eqn:E; cbn [negb].
    + reflexivity.
    + rewrite <- app_assoc. reflexivity.
Qed.

(** The terms [score] iterates over are the tokens of the query without
    repetitions, each where it first occurs. *)
Lemma query_terms_dedup (query : string) :
  query_terms query = dedup (tokenize query).
Proof.
  unfold query_terms, Counter.
  change (fun c t => od_set String.eqb t
            (od_get_default String.eqb t 0%nat c + 1)%nat c) with count_step.
  rewrite Counter_fold_keys. cbn [map app].
  induction (dedup (tokenize query)) as [|t l IH]; [reflexivity|].
  cbn [filter]. unfold od_mem at 1. cbn [od_get negb]. rewrite IH. reflexivity.
Qed.

(** X7: for any ranker, [score] depends on the query only through its
    distinct tokens in order of first occurrence: how often a term is
    repeated in the query changes nothing. *)
Theorem X7_score_ignores_repeated_terms
    (self : BM25Ranker) (q1 q2 : string) (top_k : Z) :
  dedup (tokenize q1) = dedup (tokenize q2) ->
  score self q1 top_k = score self q2 top_k.
Proof.
  intros H. unfold score, accumulate. cbv zeta.
  fold (query_terms q1). fold (query_terms q2).
  rewrite !query_terms_dedup, H. reflexivity.
Qed.

Lemma X7_score_ignores_repeated_terms_witness :
  dedup (tokenize "cat dog") = dedup (tokenize "Cat dog, CAT cat dog") /\
  score (BM25Ranker_init InvertedIndex_init) "cat dog" 5
  = score (BM25Ranker_init InvertedIndex_init) "Cat dog, CAT cat dog" 5.
Proof.
  assert (H : dedup (tokenize "cat dog") = dedup (tokenize "Cat dog, CAT cat dog"))
    by reflexivity.
  split; [exact H|].
  exact (X7_score_ignores_repeated_terms
           (BM25Ranker_init InvertedIndex_init) "cat dog" "Cat dog, CAT cat dog" 5 H).
Defined.

Lemma bm25_score_matches (docs : list string) (k b0 : R) (query : string) (d : nat) :
  (exists s, bm25_score docs k b0 query d = Some s) <-> matches docs query d = true.
Proof.
  unfold bm25_score, matches, terms_in_doc. rewrite existsb_exists. split.
  - intros [s Hs].
    destruct (filter _ (query_terms query)) as [|t ts] eqn:E; [discriminate|].
    assert (Hin : In t (filter
                    (fun t => negb (occurrences t (tokenize (doc_text docs d)) =? 0)%nat)
                    (query_terms query))) by (rewrite E; left; reflexivity).
    apply filter_In in Hin. destruct Hin as [Hq Ht]. exists t.
    split; [|exact Ht]. apply Counter_keys. exact Hq.
  - intros (t & Hq & Ht).
    assert (Hin : In t (filter
                    (fun t => negb (occurrences t (tokenize (doc_text docs d)) =? 0)%nat)
                    (query_terms query))).
    { apply filter_In. split; [|exact Ht]. apply Counter_keys. exact Hq. }
    destruct (filter _ (query_terms query)) as [|t' ts]; [contradiction|].
    eexists. reflexivity.
Qed.

Lemma firstn_nodup {A : Type} (n : nat) (l : list A) : NoDup l -> NoDup (firstn n l).
Proof.
  intros H. rewrite <- (firstn_skipn n l) in H. apply NoDup_app_remove_r in H.
  exact H.
Qed.

Lemma od_keys_get {V : Type} (d : nat) (l : list (nat * V)) :
  In d (map fst l) <-> exists v, od_get Nat.eqb d l = Some v.
Proof.
  split.
  - intros Hin. destruct (od_get Nat.eqb d l) as [v|] eqn:E; [exists v; reflexivity|].
    apply (od_get_None_notin _ Nat.eqb_eq) in E. contradiction.
  - intros [v Hv]. apply (od_get_Some_in _ Nat.eqb_eq) in Hv.
    apply (in_map fst) in Hv. exact Hv.
Qed.

(** The documents of the accumulator are those that have a token of the
    query. *)
Lemma built_accumulate_matching (docs : list string) (ix : InvertedIndex)
    (k b0 : R) (query : string) (acc : list (nat * R)) :
  build_index docs = Ok ix -> params_ok k b0 ->
  accumulate {| idx := ix; k1 := k; b := b0 |} query = Ok acc ->
  NoDup (map fst acc) /\ Permutation (map fst acc) (matching docs query).
Proof.
  intros Hb Hp Hacc0.
  destruct (built_accumulate docs ix k b0 query Hb Hp) as (acc' & Hacc & Hnd & Hsc).
  rewrite Hacc0 in Hacc. injection Hacc as <-. split; [exact Hnd|].
  apply NoDup_Permutation; [exact Hnd | unfold matching; apply NoDup_filter, seq_NoDup |].
  intros d. rewrite od_keys_get. unfold matching. rewrite filter_In, in_seq.
  split.
  - intros [s Hs]. rewrite Hsc in Hs. split.
    + pose proof (bm25_score_doc _ _ _ _ _ _ Hs). lia.
    + apply (bm25_score_matches docs k b0). exists s. exact Hs.
  - intros [_ Hm]. apply (bm25_score_matches docs k b0) in Hm.
    destruct Hm as [s Hs]. exists s. rewrite Hsc. exact Hs.
Qed.

Lemma matching_length (docs : list string) (query : string) :
  (length (matching docs query) <= length docs)%nat.
Proof.
  unfold matching.
  pose proof (filter_length_le (matches docs query) (seq 0 (length docs))) as Hle.
  rewrite length_seq in Hle. exact Hle.
Qed.

(** X8: on a built index, for parameters in their domain and
    [top_k >= 0], the hits of [score] are distinct documents, each one a
    document of the collection that has a token of the query (so never a
    document without text); there are [min top_k m] of them, [m] being the
    number of documents that have a token of the query, and all [m] are
    returned when [top_k] is at least the size of the collection. *)
Theorem X8_hits_are_the_matching_documents
    (docs : list string) (k b0 : R) (query : string) (top_k : Z) :
  params_ok k b0 -> (0 <= top_k)%Z ->
  exists ix hits,
    build_index docs = Ok ix /\
    score {| idx := ix; k1 := k; b := b0 |} query top_k = Ok hits /\
    NoDup (map fst hits) /\
    (forall d, In d (map fst hits) ->
               (d < length docs)%nat /\ matches docs query d = true) /\
    length hits = Nat.min (Z.to_nat top_k) (length (matching docs query)) /\
    ((Z.of_nat (length docs) <= top_k)%Z ->
     Permutation (map fst hits) (matching docs query)).
Proof.
  intros Hp Hk.
  destruct (build_index_eq docs) as (ix & Hb & _).
  destruct (built_accumulate docs ix k b0 query Hb Hp) as (acc & Hacc & Hnd & Hsc).
  destruct (built_accumulate_matching docs ix k b0 query acc Hb Hp Hacc)
    as [_ Hperm].
  pose proof (Permutation_map fst (sorted_desc_perm acc)) as Hranked.
  exists ix, (firstn (Z.to_nat top_k) (sorted_desc acc)).
  split; [exact Hb|].
  split; [rewrite (score_eq _ _ _ _ Hacc), slice_to_nonneg by exact Hk; reflexivity|].
  split; [|split; [|split]].
  - rewrite <- firstn_map. apply firstn_nodup.
    apply (Permutation_NoDup (Permutation_sym Hranked)). exact Hnd.
  - intros d Hd. rewrite <- firstn_map in Hd. apply in_firstn in Hd.
    apply (Permutation_in _ Hranked) in Hd. apply (Permutation_in _ Hperm) in Hd.
    unfold matching in Hd. apply filter_In in Hd. destruct Hd as [Hd Hm].
    apply in_seq in Hd. split; [lia | exact Hm].
  - rewrite length_firstn, (Permutation_length (sorted_desc_perm acc)).
    rewrite <- (length_map fst acc), (Permutation_length Hperm). reflexivity.
  - intros Hall. rewrite firstn_all2.
    + apply (perm_trans Hranked Hperm).
    + rewrite (Permutation_length (sorted_desc_perm acc)).
      rewrite <- (length_map fst acc), (Permutation_length Hperm).
      pose proof (matching_length docs query). lia.
Qed.

Lemma X8_hits_are_the_matching_documents_witness :
  params_ok 1.5 0.75 /\ (0 <= 2)%Z /\
  exists ix hits,
    build_index ["the cat sat"; ""; "cat and dog played"] = Ok ix /\
    score {| idx := ix; k1 := 1.5; b := 0.75 |} "a cat" 2 = Ok hits /\
    NoDup (map fst hits) /\
    length hits
    = Nat.min (Z.to_nat 2)
              (length (matching ["the cat sat"; ""; "cat and dog played"] "a cat")).
Proof.
  assert (Hp : params_ok 1.5 0.75) by (unfold params_ok; lra).
  assert (Hk : (0 <= 2)%Z) by lia.
  split; [exact Hp|]. split; [exact Hk|].
  destruct (X8_hits_are_the_matching_documents
              ["the cat sat"; ""; "cat and dog played"] 1.5 0.75 "a cat" 2 Hp Hk)
    as (ix & hits & Hb & Hs & Hnd & _ & Hlen & _).
  exists ix, hits. repeat split; assumption.
Defined.

Lemma insert_desc_lex (x : nat * R) (S : list (nat * R)) :
  StronglySorted ranks_before S -> Forall (fun y => (fst x < fst y)%nat) S ->
  StronglySorted ranks_before (insert_desc x S).
Proof.
  induction S as [|y S IH]; intros Hs Hx; cbn [insert_desc].
  - constructor; constructor.
  - apply StronglySorted_inv in Hs. destruct Hs as [Hs Hy].
    inversion Hx as [|? ? Hxy Hx']; subst.
    destruct (Rlt_dec (snd x) (snd y)) as [Hlt|Hge].
    + constructor; [apply IH; assumption|].
      apply (Permutation_Forall (Permutation_sym (insert_desc_perm x S))).
      constructor; [left; exact Hlt | exact Hy].
    + constructor; [constructor; assumption|].
      assert (Hxy' : ranks_before x y).
      { unfold ranks_before. destruct (Req_dec_T (snd y) (snd x)); [right | left].
        - split; assumption.
        - lra. }
      constructor; [exact Hxy'|].
      rewrite Forall_forall in Hy, Hx' |- *. intros z Hz.
      specialize (Hy z Hz). specialize (Hx' z Hz). unfold ranks_before in *.
      destruct Hy as [Hy|[Hy _]]; destruct Hxy' as [H1|[H1 _]];
        first [left; lra | right; split; [lra | exact Hx']].
Qed.

Lemma sorted_desc_lex (l : list (nat * R)) :
  StronglySorted lt (map fst l) -> StronglySorted ranks_before (sorted_desc l).
Proof.
  induction l as [|x l IH]; intros Hs; cbn [sorted_desc]; [constructor|].
  cbn [map] in Hs. apply StronglySorted_inv in Hs. destruct Hs as [Hs Hx].
  apply insert_desc_lex; [apply IH; exact Hs|].
  apply (Permutation_Forall (Permutation_sym (sorted_desc_perm l))).
  rewrite Forall_map in Hx. exact Hx.
Qed.

(** X9: for a query of one term, on a built index and parameters in
    their domain, the hits come by descending score and, among hits of
    the same score, by ascending document id. *)
Theorem X9_single_term_ties_by_document_id
    (docs : list string) (k b0 : R) (query t : string) (top_k : Z) :
  params_ok k b0 -> query_terms query = [t] ->
  exists ix hits,
    build_index docs = Ok ix /\
    score {| idx := ix; k1 := k; b := b0 |} query top_k = Ok hits /\
    StronglySorted ranks_before hits.
Proof.
  intros Hp Hq.
  destruct (build_index_eq docs) as (ix & Hb & _ & _ & _ & Hget & _).
  pose proof (built_index_ok docs ix Hb) as Hix.
  pose proof (accumulate_single {| idx := ix; k1 := k; b := b0 |} query t Hix Hp Hq)
    as Hacc.
  exists ix. eexists. split; [exact Hb|]. split; [apply score_eq; exact Hacc|].
  apply slice_to_sorted, sorted_desc_lex. rewrite map_map. cbn [idx].
  unfold posting_score. cbn [fst]. rewrite Hget.
  apply (postings_from_sorted t docs 0).
Qed.

Lemma X9_single_term_ties_by_document_id_witness :
  params_ok 1.5 0.75 /\ query_terms "cat cat" = ["cat"] /\
  exists ix hits,
    build_index ["cat sat"; "dog ran"; "cat ran"] = Ok ix /\
    score {| idx := ix; k1 := 1.5; b := 0.75 |} "cat cat" 10 = Ok hits /\
    StronglySorted ranks_before hits.
Proof.
  assert (Hp : params_ok 1.5 0.75) by (unfold params_ok; lra).
  assert (Hq : query_terms "cat cat" = ["cat"]) by reflexivity.
  split; [exact Hp|]. split; [exact Hq|].
  exact (X9_single_term_ties_by_document_id
           ["cat sat"; "dog ran"; "cat ran"] 1.5 0.75 "cat cat" "cat" 10 Hp Hq).
Defined.

Lemma bm25_score_bag (docs : list string) (k b0 : R) (query : string) (d1 d2 : nat) :
  Permutation (tokenize (doc_text docs d1)) (tokenize (doc_text docs d2)) ->
  bm25_score docs k b0 query d1 = bm25_score docs k b0 query d2.
Proof.
  intros Hperm.
  assert (Hocc : forall t, occurrences t (tokenize (doc_text docs d1))
                           = occurrences t (tokenize (doc_text docs d2))).
  { intros t. unfold occurrences.
    apply (proj1 (Permutation_count_occ string_dec _ _) Hperm). }
  pose proof (Permutation_length Hperm) as Hlen.
  unfold bm25_score, terms_in_doc.
  rewrite (filter_ext _ (fun t => negb (occurrences t (tokenize (doc_text docs d2)) =? 0)%nat))
    by (intros t; rewrite Hocc; reflexivity).
  assert (Hw : forall ts, map (fun t => bm25_weight docs k b0 t d1) ts
                          = map (fun t => bm25_weight docs k b0 t d2) ts).
  { intros ts. apply map_ext. intros t. unfold bm25_weight.
    rewrite Hocc, Hlen. reflexivity. }
  destruct (filter _ (query_terms query)) as [|t0 ts]; [reflexivity|].
  rewrite Hw. reflexivity.
Qed.

(** X10: the score of a document depends on its text only through its
    tokens as a bag: on a built index, two documents whose token lists
    are permutations of each other (for one, two copies of a text) have
    the same accumulated score for every query, and the same score when
    both are among the hits. *)
Theorem X10_score_of_a_bag_of_words
    (docs : list string) (k b0 : R) (query : string) (top_k : Z) (d1 d2 : nat) :
  params_ok k b0 ->
  Permutation (tokenize (doc_text docs d1)) (tokenize (doc_text docs d2)) ->
  exists ix acc hits,
    build_index docs = Ok ix /\
    accumulate {| idx := ix; k1 := k; b := b0 |} query = Ok acc /\
    score {| idx := ix; k1 := k; b := b0 |} query top_k = Ok hits /\
    od_get Nat.eqb d1 acc = od_get Nat.eqb d2 acc /\
    forall s1 s2, In (d1, s1) hits -> In (d2, s2) hits -> s1 = s2.
Proof.
  intros Hp Hperm.
  destruct (build_index_eq docs) as (ix & Hb & _).
  destruct (built_accumulate docs ix k b0 query Hb Hp) as (acc & Hacc & Hnd & Hsc).
  exists ix, acc, (slice_to (sorted_desc acc) top_k).
  split; [exact Hb|]. split; [exact Hacc|]. split; [apply score_eq; exact Hacc|].
  assert (Heq : od_get Nat.eqb d1 acc = od_get Nat.eqb d2 acc).
  { rewrite !Hsc. apply bm25_score_bag. exact Hperm. }
  split; [exact Heq|]. intros s1 s2 H1 H2.
  apply (in_ranked top_k acc _ _ Hnd) in H1, H2. congruence.
Qed.

Lemma X10_score_of_a_bag_of_words_witness :
  params_ok 1.5 0.75 /\
  Permutation (tokenize (doc_text ["cat sat"; "dog"; "sat, cat!"] 0))
              (tokenize (doc_text ["cat sat"; "dog"; "sat, cat!"] 2)) /\
  exists ix acc hits,
    build_index ["cat sat"; "dog"; "sat, cat!"] = Ok ix /\
    accumulate {| idx := ix; k1 := 1.5; b := 0.75 |} "cat" = Ok acc /\
    score {| idx := ix; k1 := 1.5; b := 0.75 |} "cat" 10 = Ok hits /\
    od_get Nat.eqb 0%nat acc = od_get Nat.eqb 2%nat acc.
Proof.
  assert (Hp : params_ok 1.5 0.75) by (unfold params_ok; lra).
  assert (Hperm : Permutation (tokenize (doc_text ["cat sat"; "dog"; "sat, cat!"] 0))
                              (tokenize (doc_text ["cat sat"; "dog"; "sat, cat!"] 2))).
  { exact (perm_swap "sat" "cat" []). }
  split; [exact Hp|]. split; [exact Hperm|].
  destruct (X10_score_of_a_bag_of_words
              ["cat sat"; "dog"; "sat, cat!"] 1.5 0.75 "cat" 10 0 2 Hp Hperm)
    as (ix & acc & hits & Hb & Hacc & Hs & Heq & _).
  exists ix, acc, hits. repeat split; assumption.
Defined.

(** ** More about [BM25Ranker.idf] *)

Lemma ln_monotone (x y : R) : 0 < x -> x <= y -> ln x <= ln y.
Proof.
  intros Hx [Hlt|Heq]; [|subst y; lra]. apply Rlt_le, ln_increasing; assumption.
Qed.

Lemma idf_formula_antitone (n df1 df2 : nat) :
  (df1 <= df2 <= n)%nat -> idf_formula n df2 <= idf_formula n df1.
Proof.
  intros [H12 H2n]. unfold idf_formula.
  assert (H1n : (df1 <= n)%nat) by lia.
  pose proof (idf_ratio_pos n df2 H2n) as Hq2.
  apply le_INR in H12, H2n, H1n.
  pose proof (pos_INR df1) as H1. pose proof (pos_INR df2) as H2.
  apply ln_monotone; [lra|]. apply Rplus_le_compat_r.
  apply Rmult_le_reg_r with ((INR df1 + 0.5) * (INR df2 + 0.5)).
  { apply Rmult_lt_0_compat; lra. }
  replace ((INR n - INR df2 + 0.5) / (INR df2 + 0.5)
           * ((INR df1 + 0.5) * (INR df2 + 0.5)))
    with ((INR n - INR df2 + 0.5) * (INR df1 + 0.5)) by (field; lra).
  replace ((INR n - INR df1 + 0.5) / (INR df1 + 0.5)
           * ((INR df1 + 0.5) * (INR df2 + 0.5)))
    with ((INR n - INR df1 + 0.5) * (INR df2 + 0.5)) by (field; lra).
  nra.
Qed.

(** X11: on a built index, [idf] gives a term that fewer documents
    contain a value at least as large: the rarer term weighs more. *)
Theorem X11_idf_larger_for_rarer_terms
    (docs : list string) (k b0 : R) (t1 t2 : string) :
  (doc_frequency t1 docs <= doc_frequency t2 docs)%nat ->
  exists ix v1 v2,
    build_index docs = Ok ix /\
    idf {| idx := ix; k1 := k; b := b0 |} t1 = Ok v1 /\
    idf {| idx := ix; k1 := k; b := b0 |} t2 = Ok v2 /\
    v2 <= v1.
Proof.
  intros Hdf. destruct (build_index_eq docs) as (ix & Hb & _).
  exists ix, (idf_formula (length docs) (doc_frequency t1 docs)),
         (idf_formula (length docs) (doc_frequency t2 docs)).
  split; [exact Hb|]. split; [apply built_idf; exact Hb|].
  split; [apply built_idf; exact Hb|].
  apply idf_formula_antitone. split; [exact Hdf|].
  rewrite <- postings_of_frequency. apply postings_of_length.
Qed.

Lemma X11_idf_larger_for_rarer_terms_witness :
  (doc_frequency "sat" scenario_docs <= doc_frequency "cat" scenario_docs)%nat /\
  exists ix v1 v2,
    build_index scenario_docs = Ok ix /\
    idf {| idx := ix; k1 := 1.5; b := 0.75 |} "sat" = Ok v1 /\
    idf {| idx := ix; k1 := 1.5; b := 0.75 |} "cat" = Ok v2 /\
    v2 <= v1.
Proof.
  assert (H : (doc_frequency "sat" scenario_docs
               <= doc_frequency "cat" scenario_docs)%nat) by (vm_compute; lia).
  split; [exact H|].
  exact (X11_idf_larger_for_rarer_terms scenario_docs 1.5 0.75 "sat" "cat" H).
Defined.

Lemma slice_to_all {A : Type} (l : list A) (k : Z) :
  (Z.of_nat (length l) <= k)%Z -> slice_to l k = l.
Proof.
  intros H. rewrite slice_to_nonneg by lia. apply firstn_all2. lia.
Qed.

(** X12: a negative [top_k] is not an error: on a built index, for
    parameters in their domain, [score] then returns the full ranking
    (what it returns when [top_k] is the size of the collection) without
    its last [-top_k] hits, and nothing when there are no more hits than
    that. *)
Theorem X12_negative_top_k_drops_the_last_hits
    (docs : list string) (k b0 : R) (query : string) (top_k : Z) :
  params_ok k b0 -> (top_k < 0)%Z ->
  exists ix hits ranked dropped,
    build_index docs = Ok ix /\
    score {| idx := ix; k1 := k; b := b0 |} query top_k = Ok hits /\
    score {| idx := ix; k1 := k; b := b0 |} query (Z.of_nat (length docs)) = Ok ranked /\
    ranked = hits ++ dropped /\
    length dropped = Nat.min (Z.to_nat (- top_k)) (length ranked).
Proof.
  intros Hp Hk.
  destruct (build_index_eq docs) as (ix & Hb & _).
  destruct (built_accumulate docs ix k b0 query Hb Hp) as (acc & Hacc & _).
  destruct (built_accumulate_matching docs ix k b0 query acc Hb Hp Hacc)
    as [_ Hperm].
  pose proof (Permutation_length (sorted_desc_perm acc)) as Hlen.
  set (S := sorted_desc acc) in *.
  set (n := (length S - Z.to_nat (- top_k))%nat).
  exists ix, (firstn n S), S, (skipn n S).
  split; [exact Hb|]. split; [|split; [|split]].
  - rewrite (score_eq _ _ _ _ Hacc). fold S. unfold slice_to.
    apply Z.ltb_lt in Hk. rewrite Hk. reflexivity.
  - rewrite (score_eq _ _ _ _ Hacc). fold S. rewrite slice_to_all; [reflexivity|].
    rewrite Hlen, <- (length_map fst acc), (Permutation_length Hperm).
    pose proof (matching_length docs query). lia.
  - symmetry. apply firstn_skipn.
  - rewrite length_skipn. unfold n. lia.
Qed.

Lemma X12_negative_top_k_drops_the_last_hits_witness :
  params_ok 1.5 0.75 /\ (-1 < 0)%Z /\
  exists ix hits ranked dropped,
    build_index scenario_docs = Ok ix /\
    score {| idx := ix; k1 := 1.5; b := 0.75 |} "cat" (-1) = Ok hits /\
    score {| idx := ix; k1 := 1.5; b := 0.75 |} "cat"
          (Z.of_nat (length scenario_docs)) = Ok ranked /\
    ranked = hits ++ dropped /\
    length dropped = Nat.min (Z.to_nat (- -1)) (length ranked).
Proof.
  assert (Hp : params_ok 1.5 0.75) by (unfold params_ok; lra).
  assert (Hk : (-1 < 0)%Z) by lia.
  split; [exact Hp|]. split; [exact Hk|].
  exact (X12_negative_top_k_drops_the_last_hits scenario_docs 1.5 0.75 "cat" (-1) Hp Hk).
Defined.

Lemma bm25_term_saturates (idf_t : R) (f dl : nat) (avg k b0 : R) :
  0 < idf_t -> params_ok k b0 -> 0 < avg -> (1 <= f <= dl)%nat ->
  bm25_term idf_t f dl avg k b0 < idf_t * (k + 1).
Proof.
  intros Hidf Hp Havg [Hf Hdl].
  pose proof (bm25_denom_pos f dl avg k b0 Hf Hp Havg) as Hd.
  destruct Hp as [Hk [Hb0 Hb1]].
  assert (Hdl1 : 1 <= INR dl) by (apply (le_INR 1); lia).
  apply le_INR in Hf. simpl in Hf.
  assert (Hr : 0 < INR dl / avg) by (apply Rdiv_lt_0_compat; lra).
  assert (Hc : 0 < k * (1 - b0 + b0 * INR dl / avg)).
  { apply Rmult_lt_0_compat; [exact Hk|]. unfold Rdiv in *.
    rewrite Rmult_assoc. set (r := INR dl * / avg) in *.
    assert (0 <= b0 * r) by (apply Rmult_le_pos; lra).
    destruct (Req_dec_T b0 1) as [->|Hne]; lra. }
  unfold bm25_term.
  set (c := k * (1 - b0 + b0 * INR dl / avg)) in *.
  apply Rmult_lt_reg_r with (INR f + c); [exact Hd|].
  replace (idf_t * (INR f * (k + 1)) / (INR f + c) * (INR f + c))
    with (idf_t * (INR f * (k + 1))) by (field; lra).
  assert (0 < idf_t * (k + 1) * c).
  { apply Rmult_lt_0_compat; [apply Rmult_lt_0_compat; lra | exact Hc]. }
  nra.
Qed.

Lemma fold_Rplus_lt {A : Type} (f g : A -> R) (l : list A) (a a' : R) :
  a <= a' -> (forall x, In x l -> f x < g x) -> l <> [] ->
  fold_left Rplus (map f l) a < fold_left Rplus (map g l) a'.
Proof.
  revert a a'. induction l as [|x l IH]; intros a a' Ha Hfg Hne; [contradiction|].
  cbn [map fold_left]. pose proof (Hfg x (or_introl eq_refl)) as Hx.
  destruct l as [|y l'].
  - simpl. lra.
  - apply IH; [lra | intros z Hz; apply Hfg; right; exact Hz | discriminate].
Qed.

Lemma occurrences_le_length (t : string) (toks : list string) :
  (occurrences t toks <= length toks)%nat.
Proof.
  unfold occurrences. induction toks as [|a toks IH]; [simpl; lia|].
  cbn [count_occ length]. destruct (string_dec a t); lia.
Qed.

(** X13: on a built index, for parameters in their domain, the score of
    a hit is positive and below [(k1 + 1)] times the idf of the query
    terms that occur in the document, added up: however often a term is
    repeated in a document, it adds less than [idf * (k1 + 1)]. *)
Theorem X13_score_below_idf_bound
    (docs : list string) (k b0 : R) (query : string) (top_k : Z) :
  params_ok k b0 ->
  exists ix hits,
    build_index docs = Ok ix /\
    score {| idx := ix; k1 := k; b := b0 |} query top_k = Ok hits /\
    forall d s,
      In (d, s) hits ->
      0 < s <
      Rsum (map (fun t => idf_formula (length docs) (doc_frequency t docs) * (k + 1))
                (terms_in_doc docs d (query_terms query))).
Proof.
  intros Hp.
  destruct (build_index_eq docs) as (ix & Hb & _).
  destruct (built_accumulate docs ix k b0 query Hb Hp) as (acc & Hacc & Hnd & Hsc).
  destruct (built_score docs ix k b0 query top_k Hb Hp) as (hits & Hscore & Hall & _).
  exists ix, hits. split; [exact Hb|]. split; [exact Hscore|].
  intros d s Hin. split.
  { rewrite Forall_forall in Hall. apply (Hall (d, s) Hin). }
  rewrite (score_eq _ _ _ _ Hacc) in Hscore. injection Hscore as <-.
  apply (in_ranked top_k acc _ _ Hnd) in Hin. rewrite Hsc in Hin.
  pose proof (bm25_score_doc _ _ _ _ _ _ Hin) as Hd.
  unfold bm25_score in Hin.
  destruct (terms_in_doc docs d (query_terms query)) as [|t0 ts] eqn:E;
    [discriminate|].
  injection Hin as <-. unfold Rsum.
  apply (fold_Rplus_lt (fun t => bm25_weight docs k b0 t d)
           (fun t => idf_formula (length docs) (doc_frequency t docs) * (k + 1))
           (t0 :: ts)); [lra | | discriminate].
  intros t Ht. rewrite <- E in Ht. unfold terms_in_doc in Ht.
  apply filter_In in Ht. destruct Ht as [_ Ht].
  apply negb_true_iff, Nat.eqb_neq in Ht.
  destruct (nth_error docs d) as [text|] eqn:Hnth;
    [|apply nth_error_None in Hnth; lia].
  unfold bm25_weight. rewrite (doc_text_nth _ _ _ Hnth) in *.
  apply bm25_term_saturates.
  - apply idf_formula_pos. rewrite <- postings_of_frequency.
    apply postings_of_length.
  - exact Hp.
  - unfold mean_tokens. rewrite <- lengths_of_values, <- mean_length_eq.
    apply (mean_length_pos docs d text t Hnth).
    apply (count_occ_In string_dec). unfold occurrences in Ht. lia.
  - split; [lia | apply occurrences_le_length].
Qed.

Lemma X13_score_below_idf_bound_witness :
  params_ok 1.5 0.75 /\
  exists ix hits,
    build_index scenario_docs = Ok ix /\
    score {| idx := ix; k1 := 1.5; b := 0.75 |} "cat dog" 10 = Ok hits.
Proof.
  assert (Hp : params_ok 1.5 0.75) by (unfold params_ok; lra).
  split; [exact Hp|].
  destruct (X13_score_below_idf_bound scenario_docs 1.5 0.75 "cat dog" 10 Hp)
    as (ix & hits & Hb & Hs & _).
  exists ix, hits. split; assumption.
Defined.

(** ** More about [SearchEngine] *)

Lemma texts_Err (col : list cell) :
  forallb is_text col = false ->
  map_result as_str (map fillna_empty col) = Err AttributeError.
Proof.
  induction col as [|c col IH]; intros H; [discriminate|].
  cbn [forallb] in H. cbn [map map_result]. unfold is_text in H.
  destruct (fillna_empty c) eqn:E; cbn [as_str andb] in *; try reflexivity.
  rewrite bind_Ok, (IH H). reflexivity.
Qed.


Lemma od_get_map_values {V W : Type} (f : V -> W) (c : string)
    (df : list (string * V)) :
  od_get String.eqb c (map (fun kv => (fst kv, f (snd kv))) df)
  = option_map f (od_get String.eqb c df).
Proof.
  induction df as [|[k v] df IH]; [reflexivity|]. cbn [map od_get fst snd].
  destruct (String.eqb c k); [reflexivity | exact IH].
Qed.

Lemma row_of_get (df : DataFrame) (hit : nat * R) (c : string) (col : list cell) :
  od_get String.eqb c df = Some col -> c <> "score" ->
  od_get String.eqb c (row_of df hit) = Some (nth (fst hit) col CNone).
Proof.
  intros Hc Hne. unfold row_of.
  rewrite (od_get_set_other _ String.eqb_eq) by exact Hne.
  rewrite (od_get_map_values (fun cells => nth (fst hit) cells CNone)), Hc.
  reflexivity.
Qed.

(** X15: [search] joins the hits with the rows they come from: in a
    non-empty result, every column of the engine's frame other than
    [score] and [pct_relevance] is a column of the result, and its cell
    in the row of a hit is the cell of that document in the frame. *)
Theorem X15_search_keeps_the_metadata
    (df : DataFrame) (text_col query c : string) (col : list cell) (top_k : Z) :
  df_wf df = true -> has_text_column df text_col = true ->
  od_get String.eqb c df = Some col -> c <> "score" -> c <> "pct_relevance" ->
  exists eng hits res,
    SearchEngine_init df text_col = Ok eng /\
    score (se_ranker eng) query top_k = Ok hits /\
    search eng query top_k = Ok res /\
    Forall (fun h => (fst h < length col)%nat) hits /\
    (hits <> [] ->
     df_getitem res c = Ok (map (fun h => nth (fst h) col CNone) hits)).
Proof.
  intros Hwf Htext Hc Hs Hpct.
  destruct (SearchEngine_init_Ok df text_col Htext) as (eng & Hinit & Hdf & Hb & Hrk).
  destruct (engine_hits df text_col eng query top_k Hwf Hinit)
    as (hits & Hscore & _ & _ & Hsearch).
  exists eng, hits, (search_frame df hits).
  split; [exact Hinit|]. split; [exact Hscore|]. split; [exact Hsearch|]. split.
  - destruct (built_score _ _ 1.5 0.75 query top_k Hb default_params_ok)
      as (hits' & Hscore' & Hall & _).
    fold (BM25Ranker_init (se_index eng)) in Hscore'. rewrite <- Hrk in Hscore'.
    rewrite Hscore in Hscore'. injection Hscore' as <-.
    apply Forall_impl with (2 := Hall). intros h [Hh _].
    rewrite length_map in Hh.
    assert (Hcol : exists tcol, df_getitem df text_col = Ok tcol
                                /\ column df text_col = tcol).
    { unfold has_text_column in Htext. unfold df_getitem, column, od_get_default.
      destruct (od_get String.eqb text_col df) as [tcol|]; [|discriminate].
      exists tcol. split; reflexivity. }
    destruct Hcol as (tcol & Hget & Heq). rewrite Heq in Hh.
    rewrite (df_wf_getitem df text_col tcol Hwf Hget) in Hh.
    assert (Hget' : df_getitem df c = Ok col) by (unfold df_getitem; rewrite Hc; reflexivity).
    rewrite (df_wf_getitem df c col Hwf Hget'). exact Hh.
  - intros Hne. rewrite search_frame_eq by exact Hne. unfold df_getitem.
    rewrite (od_get_set_other _ String.eqb_eq) by exact Hpct.
    destruct hits as [|h0 hits']; [contradiction|].
    rewrite (DataFrame_of_records_get _ (row_of df h0) c); [| left; reflexivity |].
    + rewrite map_map. f_equal. apply map_ext. intros h.
      unfold od_get_default. rewrite (row_of_get df h c col Hc Hs). reflexivity.
    + pose proof (row_of_get df h0 c col Hc Hs) as Hrow.
      apply (od_get_Some_in _ String.eqb_eq) in Hrow.
      apply (in_map fst) in Hrow. exact Hrow.
Qed.

Lemma X15_search_keeps_the_metadata_witness :
  df_wf sample_frame = true /\
  has_text_column sample_frame "Item Description" = true /\
  od_get String.eqb "Item Title" sample_frame
  = Some [CStr "Cats"; CStr "Dogs"; CStr "Pets"] /\
  "Item Title" <> "score" /\ "Item Title" <> "pct_relevance" /\
  exists eng hits res,
    SearchEngine_init sample_frame "Item Description" = Ok eng /\
    score (se_ranker eng) "cat" 10 = Ok hits /\
    search eng "cat" 10 = Ok res /\
    (hits <> [] ->
     df_getitem res "Item Title"
     = Ok (map (fun h => nth (fst h) [CStr "Cats"; CStr "Dogs"; CStr "Pets"] CNone)
               hits)).
Proof.
  assert (Hwf : df_wf sample_frame = true) by reflexivity.
  assert (Ht : has_text_column sample_frame "Item Description" = true) by reflexivity.
  assert (Hc : od_get String.eqb "Item Title" sample_frame
               = Some [CStr "Cats"; CStr "Dogs"; CStr "Pets"]) by reflexivity.
  assert (H1 : "Item Title" <> "score") by discriminate.
  assert (H2 : "Item Title" <> "pct_relevance") by discriminate.
  split; [exact Hwf|]. split; [exact Ht|]. split; [exact Hc|].
  split; [exact H1|]. split; [exact H2|].
  destruct (X15_search_keeps_the_metadata
              sample_frame "Item Description" "cat" "Item Title"
              [CStr "Cats"; CStr "Dogs"; CStr "Pets"] 10 Hwf Ht Hc H1 H2)
    as (eng & hits & res & Hinit & Hscore & Hsearch & _ & Hcol).
  exists eng, hits, res. repeat split; assumption.
Defined.

(** ** [FeedScraper._load_urls] *)

Lemma lstrip_clean (l : list ascii) : starts_clean (lstrip l).
Proof.
  induction l as [|c l IH]; [exact I|]. cbn [lstrip].
  destruct (is_space c) eqn:E; [exact IH | exact E].
Qed.

Lemma lstrip_id (l : list ascii) : starts_clean l -> lstrip l = l.
Proof.
  destruct l as [|c l]; [reflexivity|]. cbn [starts_clean lstrip].
  intros ->. reflexivity.
Qed.

Lemma lstrip_suffix (l : list ascii) :
  exists p, l = p ++ lstrip l /\ Forall (fun c => is_space c = true) p.
Proof.
  induction l as [|c l IH].
  - exists []. split; [reflexivity | constructor].
  - cbn [lstrip]. destruct (is_space c) eqn:E.
    + destruct IH as (p & Hp & Hall). exists (c :: p).
      split; [cbn [app]; rewrite <- Hp; reflexivity | constructor; assumption].
    + exists []. split; [reflexivity | constructor].
Qed.

Lemma rstrip_prefix (l : list ascii) :
  exists p, l = rstrip l ++ p /\ Forall (fun c => is_space c = true) p.
Proof.
  unfold rstrip. destruct (lstrip_suffix (rev l)) as (p & Hp & Hall).
  exists (rev p). split.
  - rewrite <- rev_app_distr, <- Hp, rev_involutive. reflexivity.
  - apply Forall_rev. exact Hall.
Qed.

Lemma rstrip_clean (l : list ascii) : starts_clean l -> starts_clean (rstrip l).
Proof.
  intros Hl. destruct (rstrip_prefix l) as (p & Hp & _).
  destruct (rstrip l) as [|c r]; [exact I|]. rewrite Hp in Hl. exact Hl.
Qed.

Lemma rstrip_id (l : list ascii) : starts_clean (rev l) -> rstrip l = l.
Proof.
  intros H. unfold rstrip. rewrite (lstrip_id _ H). apply rev_involutive.
Qed.

Lemma rstrip_ends_clean (l : list ascii) : starts_clean (rev (rstrip l)).
Proof. unfold rstrip. rewrite rev_involutive. apply lstrip_clean. Qed.

Lemma strip_chars (s : string) :
  list_ascii_of_string (strip s) = rstrip (lstrip (list_ascii_of_string s)).
Proof. unfold strip. apply list_ascii_of_string_of_list_ascii. Qed.

(** [strip] leaves a stripped string as it is. *)
Lemma strip_strip (s : string) : strip (strip s) = strip s.
Proof.
  unfold strip at 1. rewrite strip_chars.
  set (A := lstrip (list_ascii_of_string s)).
  rewrite (lstrip_id (rstrip A)) by (apply rstrip_clean, lstrip_clean).
  rewrite (rstrip_id (rstrip A)) by apply rstrip_ends_clean.
  reflexivity.
Qed.

Lemma lstrip_forall (P : ascii -> Prop) (l : list ascii) :
  Forall P l -> Forall P (lstrip l).
Proof.
  intros H. destruct (lstrip_suffix l) as (p & Hp & _). rewrite Hp in H.
  apply Forall_app in H. apply H.
Qed.

Lemma rstrip_forall (P : ascii -> Prop) (l : list ascii) :
  Forall P l -> Forall P (rstrip l).
Proof.
  intros H. destruct (rstrip_prefix l) as (p & Hp & _). rewrite Hp in H.
  apply Forall_app in H. apply H.
Qed.

Lemma lstrip_snoc_space (l : list ascii) (c : ascii) :
  is_space c = true ->
  lstrip (l ++ [c]) = match lstrip l with [] => [] | _ => lstrip l ++ [c] end.
Proof.
  intros Hc. induction l as [|a l IH]; cbn [app lstrip].
  - rewrite Hc. reflexivity.
  - destruct (is_space a); [exact IH | reflexivity].
Qed.

Lemma rstrip_snoc_space (l : list ascii) (c : ascii) :
  is_space c = true -> rstrip (l ++ [c]) = rstrip l.
Proof.
  intros Hc. unfold rstrip. rewrite rev_app_distr. cbn [rev app lstrip].
  rewrite Hc. reflexivity.
Qed.

(** A newline at the end of a line does not survive [strip], and [strip]
    brings in no character. *)
Lemma strip_line (body : list ascii) (nl : list ascii) :
  Forall (fun c => c <> "010"%char) body -> nl = [] \/ nl = ["010"%char] ->
  Forall (fun c => c <> "010"%char)
         (list_ascii_of_string (strip (string_of_list_ascii (body ++ nl)))).
Proof.
  intros Hbody Hnl. rewrite strip_chars, list_ascii_of_string_of_list_ascii.
  destruct Hnl as [->| ->].
  - rewrite app_nil_r. apply rstrip_forall, lstrip_forall, Hbody.
  - rewrite lstrip_snoc_space by reflexivity.
    destruct (lstrip body) as [|a r] eqn:E; [constructor|].
    rewrite rstrip_snoc_space by reflexivity. rewrite <- E.
    apply rstrip_forall, lstrip_forall, Hbody.
Qed.

Lemma file_lines_shape (text : string) (run : list ascii) :
  Forall (fun c => c <> "010"%char) run ->
  Forall (fun line => exists body nl,
              line = string_of_list_ascii (body ++ nl) /\
              Forall (fun c => c <> "010"%char) body /\
              (nl = [] \/ nl = ["010"%char]))
         (file_lines run text).
Proof.
  revert run. induction text as [|c text IH]; intros run Hrun; cbn [file_lines].
  - unfold last_line. destruct run as [|a r]; [constructor|].
    constructor; [|constructor]. exists (rev (a :: r)), [].
    rewrite app_nil_r. split; [reflexivity|]. split; [|left; reflexivity].
    apply Forall_rev. exact Hrun.
  - destruct (Ascii.eqb c "010") eqn:E.
    + apply Ascii.eqb_eq in E. subst c. constructor; [|apply IH; constructor].
      exists (rev run), ["010"%char]. cbn [rev]. split; [reflexivity|].
      split; [apply Forall_rev; exact Hrun | right; reflexivity].
    + apply Ascii.eqb_neq in E. apply IH. constructor; assumption.
Qed.

(** X16: every URL that [_load_urls] returns is non-empty, has no white
    space at either end ([strip] leaves it as it is) and contains no
    newline; blank lines are skipped, so there are at most as many URLs
    as lines. *)
Theorem X16_loaded_urls_are_stripped (text : string) :
  Forall (fun u => u <> "" /\ strip u = u /\
                   ~ In "010"%char (list_ascii_of_string u))
         (_load_urls text) /\
  (length (_load_urls text) <= length (file_lines [] text))%nat.
Proof.
  unfold _load_urls. split.
  - apply Forall_forall. intros u Hu. apply in_map_iff in Hu.
    destruct Hu as (line & <- & Hline). apply filter_In in Hline.
    destruct Hline as [Hin Hne]. apply negb_true_iff, String.eqb_neq in Hne.
    split; [exact Hne|]. split; [apply strip_strip|].
    pose proof (file_lines_shape text [] (Forall_nil _)) as Hshape.
    rewrite Forall_forall in Hshape. destruct (Hshape line Hin)
      as (body & nl & -> & Hbody & Hnl).
    pose proof (strip_line body nl Hbody Hnl) as Hclean.
    rewrite Forall_forall in Hclean. intros Hnewline.
    apply (Hclean _ Hnewline). reflexivity.
  - rewrite length_map. apply filter_length_le.
Qed.

Lemma file_lines_line (u rest : string) (run : list ascii) :
  ~ In "010"%char (list_ascii_of_string u) ->
  file_lines run (u ++ String "010" rest) =
  string_of_list_ascii (rev run ++ list_ascii_of_string u ++ ["010"%char])
  :: file_lines [] rest.
Proof.
  revert run. induction u as [|c u IH]; intros run Hu.
  - cbn [append file_lines list_ascii_of_string app rev].
    change (Ascii.eqb "010" "010") with true. cbv iota. reflexivity.
  - cbn [append file_lines list_ascii_of_string].
    cbn [list_ascii_of_string In] in Hu.
    destruct (Ascii.eqb c "010") eqn:E.
    + apply Ascii.eqb_eq in E. exfalso. apply Hu. left. exact E.
    + rewrite IH by (intros H; apply Hu; right; exact H).
      cbn [rev]. rewrite <- app_assoc. reflexivity.
Qed.

Lemma strip_clean_line (u : string) :
  clean_url u ->
  strip (string_of_list_ascii (list_ascii_of_string u ++ ["010"%char])) = u.
Proof.
  intros (Hne & Hstrip & _).
  assert (HU : rstrip (lstrip (list_ascii_of_string u)) = list_ascii_of_string u).
  { rewrite <- strip_chars, Hstrip. reflexivity. }
  set (U := list_ascii_of_string u) in *.
  assert (Hstart : starts_clean U).
  { rewrite <- HU. apply rstrip_clean, lstrip_clean. }
  rewrite (lstrip_id U Hstart) in HU.
  unfold strip. rewrite list_ascii_of_string_of_list_ascii.
  rewrite lstrip_snoc_space by reflexivity. rewrite (lstrip_id U Hstart).
  destruct U as [|a r] eqn:E.
  - exfalso. apply Hne. rewrite <- (string_of_list_ascii_of_string u).
    fold U. rewrite E. reflexivity.
  - rewrite rstrip_snoc_space by reflexivity. rewrite HU, <- E.
    apply string_of_list_ascii_of_string.
Qed.



(** ** [FeedScraper._fetch_items] and [FeedScraper.scrape_all] *)

Lemma feed_rows_columns (rows : list (list (string * cell))) (cols : list string) :
  Forall is_feed_row rows -> cols = [] \/ cols = feed_columns ->
  fold_left (fun cols r => fold_left add_column (map fst r) cols) rows cols
  = match rows with [] => cols | _ => feed_columns end.
Proof.
  revert cols. induction rows as [|r rows IH]; intros cols Hall Hcols;
    [reflexivity|].
  inversion Hall as [|? ? (u & ct & cd & it & id & ->) Hall']; subst.
  cbn [fold_left]. rewrite IH; [| exact Hall' |].
  - destruct rows; [|reflexivity]. destruct Hcols as [-> | ->]; reflexivity.
  - right. destruct Hcols as [-> | ->]; reflexivity.
Qed.

(** The frame that pandas makes of scraped rows. *)
Lemma feed_rows_frame (rows : list (list (string * cell))) :
  Forall is_feed_row rows -> rows <> [] ->
  DataFrame_of_records rows = feed_frame rows.
Proof.
  intros Hall Hne. unfold DataFrame_of_records. cbv zeta.
  rewrite (feed_rows_columns rows [] Hall) by (left; reflexivity).
  destruct rows; [contradiction | reflexivity].
Qed.

Lemma feed_frame_wf (rows : list (list (string * cell))) :
  df_wf (feed_frame rows) = true /\ nrows (feed_frame rows) = length rows.
Proof.
  unfold feed_frame, feed_columns, df_wf. cbn [map forallb nrows snd].
  rewrite !length_map, Nat.eqb_refl. split; reflexivity.
Qed.

Lemma feed_frame_text (rows : list (list (string * cell))) :
  Forall is_feed_row rows ->
  has_text_column (feed_frame rows) "Item Description" = true.
Proof.
  intros Hall. unfold has_text_column, feed_frame, feed_columns.
  cbn [map od_get String.eqb Ascii.eqb Bool.eqb]. cbv iota.
  induction Hall as [|r rows (u & ct & cd & it & id & ->) _ IH]; [reflexivity|].
  cbn [map forallb]. rewrite IH. reflexivity.
Qed.

Section FeedsFacts.
Variable Tag : Type.
Variable fetch : string -> string + Tag.
Variable find : Tag -> string -> option Tag.
Variable find_all : Tag -> string -> list Tag.
Variable get_text : Tag -> string.

Local Abbreviation feed_log := (feed_log Tag fetch).
Local Abbreviation feed_rows := (feed_rows Tag fetch find find_all get_text).
Local Abbreviation fetched := (fetched Tag fetch).

Lemma fetch_items_rows (u : string) :
  Forall is_feed_row (feed_rows u) /\
  Forall (fun r => od_get String.eqb "Feed URL" r = Some (CStr u)) (feed_rows u) /\
  match fetch u with
  | inl _ => feed_rows u = []
  | inr soup =>
      length (feed_rows u)
      = Nat.max 1 (length (snd (channel_of Tag find find_all get_text soup)))
  end.
Proof.
  unfold feed_rows, _fetch_items. destruct (fetch u) as [e|soup].
  - cbn [snd]. repeat split; constructor.
  - destruct (channel_of Tag find find_all get_text soup) as [[ct cd] entries].
    cbn [snd]. destruct entries as [|e entries]; cbn [map].
    + repeat split; repeat constructor. unfold is_feed_row. repeat eexists.
    + repeat split.
      * apply Forall_forall. intros r Hr.
        change (entry_row Tag find get_text u ct cd e
                :: map (entry_row Tag find get_text u ct cd) entries)
          with (map (entry_row Tag find get_text u ct cd) (e :: entries)) in Hr.
        apply in_map_iff in Hr. destruct Hr as (e' & <- & _).
        unfold is_feed_row, entry_row. repeat eexists.
      * apply Forall_forall. intros r Hr.
        change (entry_row Tag find get_text u ct cd e
                :: map (entry_row Tag find get_text u ct cd) entries)
          with (map (entry_row Tag find get_text u ct cd) (e :: entries)) in Hr.
        apply in_map_iff in Hr. destruct Hr as (e' & <- & _). reflexivity.
      * cbn [length]. rewrite length_map. lia.
Qed.

Lemma scrape_step_eq (st : list string * list (list (string * cell))) (u : string) :
  scrape_step Tag fetch find find_all get_text st u
  = (fst st ++ feed_log u, snd st ++ feed_rows u).
Proof.
  unfold scrape_step, feed_log, feed_rows, _fetch_items.
  destruct (fetch u) as [e|soup]; [reflexivity|].
  destruct (channel_of Tag find find_all get_text soup) as [[ct cd] entries].
  reflexivity.
Qed.

Lemma scrape_fold (us : list string) (st : list string * list (list (string * cell))) :
  fold_left (scrape_step Tag fetch find find_all get_text) us st
  = (fst st ++ flat_map feed_log us, snd st ++ flat_map feed_rows us).
Proof.
  revert st. induction us as [|u us IH]; intros st; cbn [fold_left flat_map].
  - rewrite !app_nil_r. destruct st; reflexivity.
  - rewrite IH, scrape_step_eq. cbn [fst snd]. rewrite <- !app_assoc. reflexivity.
Qed.

Lemma fetched_cons (u : string) (us : list string) :
  fetched (u :: us)
  = match fetch u with inl _ => fetched us | inr _ => u :: fetched us end.
Proof.
  change (fetched (u :: us))
    with (if match fetch u with inl _ => false | inr _ => true end
          then u :: fetched us else fetched us).
  destruct (fetch u); reflexivity.
Qed.

Lemma flat_map_rows_nil (us : list string) :
  flat_map feed_rows us = [] <-> fetched us = [].
Proof.
  induction us as [|u us IH]; [split; reflexivity|].
  cbn [flat_map]. rewrite fetched_cons.
  pose proof (fetch_items_rows u) as (_ & _ & Hu).
  destruct (fetch u) as [e|soup].
  - rewrite Hu. exact IH.
  - split; [|discriminate]. intros H. apply app_eq_nil in H. destruct H as [H _].
    rewrite H in Hu. cbn [length] in Hu. lia.
Qed.

Lemma flat_map_rows_length (us : list string) :
  (length (fetched us) <= length (flat_map feed_rows us))%nat.
Proof.
  induction us as [|u us IH]; [apply Nat.le_refl|].
  cbn [flat_map]. rewrite fetched_cons, length_app.
  pose proof (fetch_items_rows u) as (_ & _ & Hu).
  destruct (fetch u) as [e|soup]; [lia|]. cbn [length]. lia.
Qed.
Lemma scrape_all_eq (self : FeedScraper) :
  scrape_all Tag fetch find find_all get_text self
  = (flat_map feed_log (urls self),
     DataFrame_of_records (flat_map feed_rows (urls self))).
Proof. unfold scrape_all. cbv zeta. rewrite scrape_fold. reflexivity. Qed.

Lemma flat_map_rows_shape (us : list string) :
  Forall is_feed_row (flat_map feed_rows us).
Proof.
  induction us as [|u us IH]; [constructor|]. cbn [flat_map].
  apply Forall_app. split; [apply fetch_items_rows | exact IH].
Qed.

(** X18: the frame that [scrape_all] returns.  When no feed could be
    fetched (no URL, or every fetch failed) it has no rows and no
    columns, and constructing a [SearchEngine] on it raises [KeyError].
    When a feed could be fetched it has exactly the five columns of the
    scraper, all of one length, at least one row per fetched feed, and
    construction on it returns an engine whose index has one document
    per row. *)
Theorem X18_scraped_frame_and_construction (self : FeedScraper) :
  let df := snd (scrape_all Tag fetch find find_all get_text self) in
  match fetched (urls self) with
  | [] =>
      df = [] /\ SearchEngine_init df "Item Description" = Err KeyError
  | _ =>
      map fst df = feed_columns /\
      df_wf df = true /\
      (length (fetched (urls self)) <= nrows df)%nat /\
      exists eng,
        SearchEngine_init df "Item Description" = Ok eng /\
        N (se_index eng) = nrows df
  end.
Proof.
  cbv zeta. rewrite scrape_all_eq. cbn [snd].
  pose proof (flat_map_rows_nil (urls self)) as Hnil.
  pose proof (flat_map_rows_length (urls self)) as Hlen.
  pose proof (flat_map_rows_shape (urls self)) as Hshape.
  destruct (fetched (urls self)) as [|u0 us0] eqn:E.
  - rewrite (proj2 Hnil eq_refl). split; reflexivity.
  - assert (Hne : flat_map feed_rows (urls self) <> []).
    { intros H. apply Hnil in H. discriminate. }
    rewrite (feed_rows_frame _ Hshape Hne).
    destruct (feed_frame_wf (flat_map feed_rows (urls self))) as [Hwf Hn].
    split; [reflexivity|]. split; [exact Hwf|]. split; [rewrite Hn; exact Hlen|].
    destruct (SearchEngine_init_Ok _ "Item Description" (feed_frame_text _ Hshape))
      as (eng & Hinit & _ & Hb & _).
    exists eng. split; [exact Hinit|].
    destruct (build_index_eq
                (map text_of (column (feed_frame (flat_map feed_rows (urls self)))
                                     "Item Description")))
      as (ix & Hb' & HN & _).
    rewrite Hb in Hb'. injection Hb' as <-. rewrite HN, Hn, length_map.
    unfold column, feed_frame, feed_columns, od_get_default.
    cbn [map od_get String.eqb Ascii.eqb Bool.eqb]. cbv iota.
    apply length_map.
Qed.

(** X19: what [scrape_all] prints: for each URL in order the line
    [Fetching feed: <url>], followed, when the fetch failed, by the line
    [Failed to fetch <url>: <exception>]; and its rows are the rows of the
    URLs, in order. *)
Theorem X19_scrape_all_log_and_rows (self : FeedScraper) :
  scrape_all Tag fetch find find_all get_text self
  = (flat_map feed_log (urls self),
     DataFrame_of_records (flat_map feed_rows (urls self))) /\
  forall u,
    Forall is_feed_row (feed_rows u) /\
    Forall (fun r => od_get String.eqb "Feed URL" r = Some (CStr u)) (feed_rows u) /\
    match fetch u with
    | inl _ => feed_rows u = []
    | inr soup =>
        length (feed_rows u)
        = Nat.max 1 (length (snd (channel_of Tag find find_all get_text soup)))
    end.
Proof. split; [apply scrape_all_eq | apply fetch_items_rows]. Qed.
(** The rows scraped when a feed could be fetched make a frame on which
    an engine can be constructed. *)
Lemma scraped_rows_engine (us : list string) :
  fetched us <> [] ->
  flat_map feed_rows us <> [] /\
  DataFrame_of_records (flat_map feed_rows us) = feed_frame (flat_map feed_rows us) /\
  exists eng,
    SearchEngine_init (feed_frame (flat_map feed_rows us)) "Item Description" = Ok eng /\
    se_df eng = feed_frame (flat_map feed_rows us) /\
    N (se_index eng) = length (flat_map feed_rows us).
Proof.
  intros Hf. pose proof (flat_map_rows_shape us) as Hshape.
  assert (Hne : flat_map feed_rows us <> []).
  { intros H. apply flat_map_rows_nil in H. contradiction. }
  split; [exact Hne|]. split; [apply feed_rows_frame; assumption|].
  destruct (SearchEngine_init_Ok _ "Item Description" (feed_frame_text _ Hshape))
    as (eng & Hinit & Hdf & Hb & _).
  exists eng. split; [exact Hinit|]. split; [exact Hdf|].
  destruct (build_index_eq
              (map text_of (column (feed_frame (flat_map feed_rows us))
                                   "Item Description")))
    as (ix & Hb' & HN & _).
  rewrite Hb in Hb'. injection Hb' as <-. rewrite HN, length_map.
  unfold column, feed_frame, feed_columns, od_get_default.
  cbn [map od_get String.eqb Ascii.eqb Bool.eqb]. cbv iota.
  apply length_map.
Qed.
End FeedsFacts.

(** ** The HTTP application *)

Lemma map_seq_nth {A B : Type} (f : A -> B) (l : list A) (d : A) :
  map (fun i => f (nth i l d)) (seq 0 (length l)) = map f l.
Proof.
  induction l as [|x l IH]; [reflexivity|].
  cbn [length]. rewrite <- cons_seq, <- seq_shift. cbn [map nth].
  rewrite map_map. cbn [nth]. rewrite IH. reflexivity.
Qed.

Lemma nth_map_default {A B : Type} (g : A -> B) (l : list A) (i : nat) (d : A) (e : B) :
  (i < length l)%nat -> nth i (map g l) e = g (nth i l d).
Proof.
  intros Hi. rewrite (nth_indep _ e (g d)) by (rewrite length_map; exact Hi).
  apply map_nth.
Qed.

(** The records of the frame of scraped rows are the rows. *)
Lemma to_dict_records_feed_frame (rows : list (list (string * cell))) :
  Forall is_feed_row rows -> to_dict_records (feed_frame rows) = rows.
Proof.
  intros Hall. unfold to_dict_records.
  rewrite (proj2 (feed_frame_wf rows)).
  transitivity (map (fun r => map (fun c => (c, od_get_default String.eqb c (CFloat NaN) r))
                                  feed_columns) rows).
  - rewrite <- (map_seq_nth _ rows []). apply map_ext_in. intros i Hi.
    apply in_seq in Hi. unfold feed_frame. rewrite map_map. cbn [fst snd].
    apply map_ext. intros c. f_equal. apply nth_map_default. lia.
  - rewrite <- (map_id rows) at 2. apply map_ext_in. intros r Hr.
    rewrite Forall_forall in Hall. destruct (Hall r Hr) as (u & ct & cd & it & id & ->).
    reflexivity.
Qed.

Lemma to_dict_records_length (df : DataFrame) :
  length (to_dict_records df) = nrows df.
Proof. unfold to_dict_records. rewrite length_map. apply length_seq. Qed.

Lemma to_dict_records_nth (df : DataFrame) (i : nat) :
  (i < nrows df)%nat ->
  nth_error (to_dict_records df) i
  = Some (map (fun c => (fst c, nth i (snd c) CNone)) df).
Proof.
  intros Hi. unfold to_dict_records. rewrite nth_error_map.
  rewrite nth_error_seq. destruct (i <? nrows df)%nat eqn:E; [reflexivity|].
  apply Nat.ltb_ge in E. lia.
Qed.

Lemma nrows_search_frame (df : DataFrame) (hits : list (nat * R)) :
  nrows (search_frame df hits) = length hits.
Proof.
  destruct hits as [|h hits']; [reflexivity|].
  rewrite search_frame_eq by discriminate.
  set (hits := h :: hits').
  pose proof (DataFrame_of_records_empty (map (row_of df) hits) (row_of df h) "score"
                (or_introl eq_refl) (row_of_has_score df h)) as Hnonempty.
  unfold DataFrame_of_records in *. cbv zeta in *.
  destruct (fold_left _ (map (row_of df) hits) []) as [|c0 cols];
    [discriminate Hnonempty|].
  cbn [map od_set]. destruct (String.eqb "pct_relevance" c0);
    cbn [nrows]; rewrite !length_map; reflexivity.
Qed.

Lemma search_records (df : DataFrame) (hits : list (nat * R)) (i : nat) (h : nat * R) :
  nth_error hits i = Some h ->
  exists r,
    nth_error (to_dict_records (search_frame df hits)) i = Some r /\
    od_get String.eqb "score" r = Some (CFloat (Fin (snd h))) /\
    od_get String.eqb "pct_relevance" r
    = Some (CFloat (Fin (snd h / top_score hits * 100))).
Proof.
  intros Hnth.
  assert (Hi : (i < length hits)%nat) by (apply nth_error_Some; congruence).
  assert (Hne : hits <> []) by (intros ->; destruct i; discriminate).
  eexists. split.
  - apply to_dict_records_nth. rewrite nrows_search_frame. exact Hi.
  - pose proof (search_frame_score df hits Hne) as Hs.
    pose proof (search_frame_pct df hits Hne) as Hp.
    unfold df_getitem in Hs, Hp.
    destruct (od_get String.eqb "score" (search_frame df hits)) as [cs|] eqn:Es;
      [|discriminate].
    destruct (od_get String.eqb "pct_relevance" (search_frame df hits)) as [cp|] eqn:Ep;
      [|discriminate].
    injection Hs as ->. injection Hp as ->.
    rewrite !(od_get_map_values (fun cells => nth i cells CNone)), Es, Ep.
    cbn [option_map].
    rewrite !(nth_map_default _ hits i h) by exact Hi.
    rewrite (nth_error_nth _ _ h Hnth). split; reflexivity.
Qed.

Section ApplicationFacts.
Variable Tag : Type.
Variable fetch : string -> string + Tag.
Variable find : Tag -> string -> option Tag.
Variable find_all : Tag -> string -> list Tag.
Variable get_text : Tag -> string.
Variable feeds_txt : string.

Local Abbreviation the_urls := (_load_urls feeds_txt).
Local Abbreviation the_rows :=
  (flat_map (feed_rows Tag fetch find find_all get_text) (_load_urls feeds_txt)).
Local Abbreviation the_log :=
  (flat_map (feed_log Tag fetch) (_load_urls feeds_txt)).
Local Abbreviation startup :=
  (startup_event Tag fetch find find_all get_text feeds_txt).
Local Abbreviation reload :=
  (reload_feeds Tag fetch find find_all get_text feeds_txt).

Lemma startup_Ok :
  fetched Tag fetch the_urls <> [] ->
  exists eng,
    SearchEngine_init (feed_frame the_rows) "Item Description" = Ok eng /\
    se_df eng = feed_frame the_rows /\
    N (se_index eng) = length the_rows /\
    startup = (the_log,
               Ok {| app_scraper := FeedScraper_init "feeds.txt" feeds_txt;
                     app_engine := eng;
                     app_feed_df := feed_frame the_rows |}).
Proof.
  intros Hf.
  destruct (scraped_rows_engine Tag fetch find find_all get_text the_urls Hf)
    as (_ & Hframe & eng & Hinit & Hdf & HN).
  exists eng. split; [exact Hinit|]. split; [exact Hdf|]. split; [exact HN|].
  unfold startup_event. cbv zeta. rewrite scrape_all_eq. cbn [fst snd urls FeedScraper_init].
  rewrite Hframe, Hinit. reflexivity.
Qed.

(** X20: when at least one feed of [feeds.txt] can be fetched,
    [startup_event] succeeds; the engine is built over the scraped frame,
    with one document per scraped row, and [get_feeds] then returns
    exactly the scraped rows, in order. *)
Theorem X20_startup_then_get_feeds :
  fetched Tag fetch the_urls <> [] ->
  exists app,
    startup = (the_log, Ok app) /\
    SearchEngine_init (app_feed_df app) "Item Description" = Ok (app_engine app) /\
    N (se_index (app_engine app)) = length the_rows /\
    get_feeds app = the_rows.
Proof.
  intros Hf. destruct (startup_Ok Hf) as (eng & Hinit & _ & HN & Hstart).
  eexists. split; [exact Hstart|]. cbn [app_feed_df app_engine].
  split; [exact Hinit|]. split; [exact HN|].
  unfold get_feeds. cbn [app_feed_df]. apply to_dict_records_feed_frame.
  apply flat_map_rows_shape.
Qed.

(** X21: after such a start-up the route [/search] never raises: it
    returns one record per hit of the ranker, in rank order, each with the
    hit's [score] and its [pct_relevance] (the score over the top score,
    times 100); the empty list when nothing matches. *)
Theorem X21_search_route_after_startup (query : string) (top_k : Z) :
  fetched Tag fetch the_urls <> [] ->
  exists app hits recs,
    startup = (the_log, Ok app) /\
    score (se_ranker (app_engine app)) query top_k = Ok hits /\
    search_route app query top_k = Ok recs /\
    length recs = length hits /\
    forall i h,
      nth_error hits i = Some h ->
      exists r,
        nth_error recs i = Some r /\
        od_get String.eqb "score" r = Some (CFloat (Fin (snd h))) /\
        od_get String.eqb "pct_relevance" r
        = Some (CFloat (Fin (snd h / top_score hits * 100))).
Proof.
  intros Hf. destruct (startup_Ok Hf) as (eng & Hinit & Hdf & _ & Hstart).
  destruct (engine_hits (feed_frame the_rows) "Item Description" eng query top_k
              (proj1 (feed_frame_wf the_rows)) Hinit)
    as (hits & Hscore & _ & _ & Hsearch).
  eexists. exists hits, (to_dict_records (search_frame (feed_frame the_rows) hits)).
  split; [exact Hstart|]. cbn [app_engine].
  split; [exact Hscore|]. split; [|split].
  - unfold search_route. cbn [app_engine]. rewrite Hsearch. reflexivity.
  - rewrite to_dict_records_length. apply nrows_search_frame.
  - intros i h Hnth. apply search_records. exact Hnth.
Qed.

End ApplicationFacts.

Lemma X20_startup_then_get_feeds_witness :
  fetched unit empty_feed (_load_urls (unlines ["http://a.example/rss"])) <> [] /\
  exists app,
    startup_event unit empty_feed (fun _ _ => None) (fun _ _ => []) (fun _ => "")
                  (unlines ["http://a.example/rss"])
    = (flat_map (feed_log unit empty_feed)
                (_load_urls (unlines ["http://a.example/rss"])), Ok app) /\
    get_feeds app
    = flat_map (feed_rows unit empty_feed (fun _ _ => None) (fun _ _ => [])
                          (fun _ => ""))
               (_load_urls (unlines ["http://a.example/rss"])).
Proof.
  assert (Hf : fetched unit empty_feed
                 (_load_urls (unlines ["http://a.example/rss"])) <> [])
    by (vm_compute; discriminate).
  split; [exact Hf|].
  destruct (X20_startup_then_get_feeds unit empty_feed (fun _ _ => None)
              (fun _ _ => []) (fun _ => "") (unlines ["http://a.example/rss"]) Hf)
    as (app & Hstart & _ & _ & Hget).
  exists app. split; assumption.
Defined.

Lemma X21_search_route_after_startup_witness :
  fetched unit empty_feed (_load_urls (unlines ["http://a.example/rss"])) <> [] /\
  exists app hits recs,
    startup_event unit empty_feed (fun _ _ => None) (fun _ _ => []) (fun _ => "")
                  (unlines ["http://a.example/rss"])
    = (flat_map (feed_log unit empty_feed)
                (_load_urls (unlines ["http://a.example/rss"])), Ok app) /\
    score (se_ranker (app_engine app)) "cat" 5 = Ok hits /\
    search_route app "cat" 5 = Ok recs /\
    length recs = length hits.
Proof.
  assert (Hf : fetched unit empty_feed
                 (_load_urls (unlines ["http://a.example/rss"])) <> [])
    by (vm_compute; discriminate).
  split; [exact Hf|].
  destruct (X21_search_route_after_startup unit empty_feed (fun _ _ => None)
              (fun _ _ => []) (fun _ => "") (unlines ["http://a.example/rss"])
              "cat" 5 Hf)
    as (app & hits & recs & Hstart & Hscore & Hroute & Hlen & _).
  exists app, hits, recs. repeat split; assumption.
Defined.

(** ** The command line *)

Section CommandLineFacts.
Variable Tag : Type.
Variable fetch : string -> string + Tag.
Variable find : Tag -> string -> option Tag.
Variable find_all : Tag -> string -> list Tag.
Variable get_text : Tag -> string.
Variable read_file : string -> string.

End CommandLineFacts.
